(** * Image delivery pipeline of the Slack MCP server (package handler)

    A shallow embedding of the image pipeline of [pkg/handler/images.go]:
    reference extraction, the SSRF host allow-list, magic-byte and HTML
    sniffing, the PNG to JPEG quality ladder, the budgeted sequential
    assembler and the semaphore-bounded download pool.

    The second part (the rest of the package) adds what is around the
    pipeline: the references of a message's files, the content
    built for the protocol layer, the tool [GetImageHandler] of
    [pkg/handler/images_tool.go] and the team context handler.

    Conventions.
    - A Go [string] is a Rocq [string] (a sequence of bytes); a Go [[]byte]
      is a [list byte]; [string(data[a:b])] is [string_of_bytes (slice a b data)].
    - A Go [int] is a [Z].  The pipeline adds and subtracts in two places
      only: [budget - cumulativeSize], where [cumulativeSize] is zero or
      lies between zero and [budget], and [cumulativeSize + len(data)], a
      sum of at most [MaxImagesPerCall] lengths of slices held in memory.
      Neither reaches the wrap-around of the machine integer.
    - A Go [map[string]V] is a [gmap string V]; reading a missing key of a
      [map[string]bool] yields [false].
    - A Go [error] is modelled by its message ([err.Error()]), the only
      thing a caller of these functions can observe of it.
    - The collaborators the package reaches through an interface or an
      imported package ([net/url], [image/png], [image/jpeg] and the
      [SlackFileDownloader] interface) are type classes. *)

From Stdlib Require Import ZArith Lia List Ascii Bool.
From Stdlib.Strings Require Import Byte.
From stdpp Require Import base option list strings gmap pretty.

Open Scope Z_scope.

(** ** The fragment of Go's [strings] package used by the handler *)
Module GoStrings.

Fixpoint HasPrefix (s prefix : string) : bool :=
  match prefix, s with
  | EmptyString, _ => true
  | String p prefix', String c s' => Ascii.eqb c p && HasPrefix s' prefix'
  | String _ _, EmptyString => false
  end.

(** [s[n:]] for [n <= len(s)]. *)
Fixpoint drop (n : nat) (s : string) : string :=
  match n, s with
  | O, _ => s
  | S n', String _ s' => drop n' s'
  | S _, EmptyString => EmptyString
  end.

(** [s[:n]] for [n <= len(s)]. *)
Fixpoint take (n : nat) (s : string) : string :=
  match n, s with
  | O, _ => EmptyString
  | S n', String c s' => String c (take n' s')
  | S _, EmptyString => EmptyString
  end.

(** [len(s) >= len(suffix) && s[len(s)-len(suffix):] == suffix] *)
Definition HasSuffix (s suffix : string) : bool :=
  (String.length suffix <=? String.length s)%nat
  && String.eqb (drop (String.length s - String.length suffix) s) suffix.

Fixpoint Contains (s substr : string) : bool :=
  HasPrefix s substr
  || match s with
     | EmptyString => false
     | String _ s' => Contains s' substr
     end.

(** [strings.IndexByte]; [None] is Go's [-1]. *)
Fixpoint IndexByte (s : string) (c : ascii) : option nat :=
  match s with
  | EmptyString => None
  | String d s' => if Ascii.eqb d c then Some O else S <$> IndexByte s' c
  end.

(** [strings.LastIndexByte]; [None] is Go's [-1]. *)
Fixpoint LastIndexByte (s : string) (c : ascii) : option nat :=
  match s with
  | EmptyString => None
  | String d s' =>
      match LastIndexByte s' c with
      | Some i => Some (S i)
      | None => if Ascii.eqb d c then Some O else None
      end
  end.

(** [strings.Cut] with a one-byte separator: [(before, after, found)]. *)
Definition Cut (s : string) (sep : ascii) : string * string * bool :=
  match IndexByte s sep with
  | Some i => (take i s, drop (S i) s, true)
  | None => (s, EmptyString, false)
  end.

(** [strings.Count] with a one-byte separator. *)
Fixpoint Count (s : string) (c : ascii) : nat :=
  match s with
  | EmptyString => O
  | String d s' => ((if Ascii.eqb d c then 1 else 0) + Count s' c)%nat
  end.

Definition lower_byte (c : ascii) : ascii :=
  let n := N_of_ascii c in
  if ((65 <=? n) && (n <=? 90))%N then ascii_of_N (n + 32) else c.

(** [strings.ToLower] as the map of the ASCII capitals to the small
    letters, byte by byte: what Go computes on ASCII input.  On other
    input Go lower-cases runes; a rune above 0x7f or an invalid byte
    becomes bytes above 0x7f, except U+0130 and U+212A, which become [i]
    and [k].  A search of the lower-cased text for ASCII text without [i]
    and [k], as are the HTML markers of [isHTMLContent], is decided alike
    by both. *)
Fixpoint ToLower (s : string) : string :=
  match s with
  | EmptyString => EmptyString
  | String c s' => String (lower_byte c) (ToLower s')
  end.

Fixpoint TrimLeftSpace (s : string) : string :=
  match s with
  | EmptyString => EmptyString
  | String c s' => if Ascii.is_space c then TrimLeftSpace s' else s
  end.

(** Drops the trailing white space: the result of the recursive call is
    empty exactly when everything after [c] is white space. *)
Fixpoint TrimRightSpace (s : string) : string :=
  match s with
  | EmptyString => EmptyString
  | String c s' =>
      match TrimRightSpace s' with
      | EmptyString => if Ascii.is_space c then EmptyString else String c EmptyString
      | t => String c t
      end
  end.

(** [strings.TrimSpace] for the ASCII white space (tab, LF, VT, FF, CR,
    space). *)
Definition TrimSpace (s : string) : string := TrimRightSpace (TrimLeftSpace s).

End GoStrings.

(** ** The fragment of Go's [net/url] used by the handler

    [Parse] follows [url.Parse] for URLs of the shape
    [scheme://userinfo@host:port/path?query#fragment]: control bytes are
    refused, the fragment and the query are cut off, a scheme is split by
    [getScheme], a rootless rest after a scheme is opaque, a colon in the
    first segment of a scheme-less relative path is refused, the authority
    runs from [//] to the next [/], the user information ends at the last
    [@], a port must be a colon followed by digits, and the path is
    percent-decoded.  The host is kept as written: Go also validates its
    bytes and decodes the escapes of non-ASCII bytes there. *)
Module NetURL.

Record URL := mkURL {
  Scheme : string;
  Opaque : string;
  User : option string;
  Host : string;
  Path : string;
  RawQuery : string;
  Fragment : string
}.

Definition is_alpha (c : ascii) : bool :=
  let n := N_of_ascii c in
  (((97 <=? n) && (n <=? 122)) || ((65 <=? n) && (n <=? 90)))%N.

Definition is_digit (c : ascii) : bool :=
  let n := N_of_ascii c in ((48 <=? n) && (n <=? 57))%N.

Definition is_ctl (c : ascii) : bool :=
  let n := N_of_ascii c in ((n <? 32) || (n =? 127))%N.

Fixpoint stringContainsCTLByte (s : string) : bool :=
  match s with
  | EmptyString => false
  | String c s' => is_ctl c || stringContainsCTLByte s'
  end.

(** [getScheme]: [None] is the error "missing protocol scheme". *)
Fixpoint getScheme_from (rawURL : string) (i : nat) (s : string)
    : option (string * string) :=
  match s with
  | EmptyString => Some (EmptyString, rawURL)
  | String c s' =>
      if is_alpha c then getScheme_from rawURL (S i) s'
      else if is_digit c || Ascii.eqb c "+" || Ascii.eqb c "-" || Ascii.eqb c "."
      then match i with
           | O => Some (EmptyString, rawURL)
           | S _ => getScheme_from rawURL (S i) s'
           end
      else if Ascii.eqb c ":"
      then match i with
           | O => None
           | S _ => Some (GoStrings.take i rawURL, s')
           end
      else Some (EmptyString, rawURL)
  end.

Definition getScheme (rawURL : string) : option (string * string) :=
  getScheme_from rawURL O rawURL.

Definition unhex (c : ascii) : option N :=
  let n := N_of_ascii c in
  if ((48 <=? n) && (n <=? 57))%N then Some (n - 48)%N
  else if ((97 <=? n) && (n <=? 102))%N then Some (n - 87)%N
  else if ((65 <=? n) && (n <=? 70))%N then Some (n - 55)%N
  else None.

(** [unescape] in path mode: [%XX] is decoded, a malformed escape is an
    error. *)
Fixpoint unescape (s : string) : option string :=
  match s with
  | EmptyString => Some EmptyString
  | String c s' =>
      if Ascii.eqb c "%" then
        match s' with
        | String a (String b rest) =>
            match unhex a, unhex b with
            | Some h, Some l => String (ascii_of_N (16 * h + l)) <$> unescape rest
            | _, _ => None
            end
        | _ => None
        end
      else String c <$> unescape s'
  end.

Fixpoint all_digits (s : string) : bool :=
  match s with
  | EmptyString => true
  | String c s' => is_digit c && all_digits s'
  end.

(** [validOptionalPort]: empty, or a colon followed by digits. *)
Definition validOptionalPort (port : string) : bool :=
  match port with
  | EmptyString => true
  | String c rest => Ascii.eqb c ":" && all_digits rest
  end.

Definition parseHost (host : string) : option string :=
  if GoStrings.HasPrefix host "[" then
    match GoStrings.LastIndexByte host "]" with
    | None => None
    | Some i =>
        if validOptionalPort (GoStrings.drop (S i) host) then Some host else None
    end
  else
    match GoStrings.LastIndexByte host ":" with
    | Some i => if validOptionalPort (GoStrings.drop i host) then Some host else None
    | None => Some host
    end.

Definition parseAuthority (authority : string) : option (option string * string) :=
  match GoStrings.LastIndexByte authority "@" with
  | None => host ← parseHost authority; Some (None, host)
  | Some i =>
      host ← parseHost (GoStrings.drop (S i) authority);
      Some (Some (GoStrings.take i authority), host)
  end.

Definition parse (rawURL : string) : option URL :=
  if stringContainsCTLByte rawURL then None
  else if String.eqb rawURL "*"
  then Some (mkURL "" "" None "" "*" "" "")
  else
    '(scheme, rest) ← getScheme rawURL;
    let scheme := GoStrings.ToLower scheme in
    let '(rest, query) :=
      if GoStrings.HasSuffix rest "?" && (GoStrings.Count rest "?" =? 1)%nat
      then (GoStrings.take (String.length rest - 1) rest, EmptyString)
      else let '(r, q, _) := GoStrings.Cut rest "?" in (r, q) in
    if negb (GoStrings.HasPrefix rest "/") && negb (String.eqb scheme "")
    then Some (mkURL scheme rest None "" "" query "")
    else if negb (GoStrings.HasPrefix rest "/")
            && GoStrings.Contains (fst (fst (GoStrings.Cut rest "/"))) ":"
    then None
    else if GoStrings.HasPrefix rest "//"
            && (negb (String.eqb scheme "") || negb (GoStrings.HasPrefix rest "///"))
    then
      let authority := GoStrings.drop 2 rest in
      let '(authority, rest) :=
        match GoStrings.IndexByte authority "/" with
        | Some i => (GoStrings.take i authority, GoStrings.drop i authority)
        | None => (authority, EmptyString)
        end in
      '(user, host) ← parseAuthority authority;
      path ← unescape rest;
      Some (mkURL scheme "" user host path query "")
    else
      path ← unescape rest;
      Some (mkURL scheme "" None "" path query "").

(** [url.Parse]: the fragment is cut off first and decoded last. *)
Definition Parse (rawURL : string) : option URL :=
  let '(u, frag, _) := GoStrings.Cut rawURL "#" in
  url ← parse u;
  frag ← unescape frag;
  Some (mkURL (Scheme url) (Opaque url) (User url) (Host url) (Path url)
              (RawQuery url) frag).

(** [splitHostPort] and the method [Hostname] of a URL: the host without a valid port
    and without the brackets of an IP literal. *)
Definition splitHostPort (hostPort : string) : string * string :=
  let '(host, port) :=
    match GoStrings.LastIndexByte hostPort ":" with
    | Some colon =>
        if validOptionalPort (GoStrings.drop colon hostPort)
        then (GoStrings.take colon hostPort, GoStrings.drop (S colon) hostPort)
        else (hostPort, EmptyString)
    | None => (hostPort, EmptyString)
    end in
  if GoStrings.HasPrefix host "[" && GoStrings.HasSuffix host "]"
  then (GoStrings.take (String.length host - 2) (GoStrings.drop 1 host), port)
  else (host, port).

Definition Hostname (u : URL) : string := fst (splitHostPort (Host u)).

(** What the handler needs of [net/url]: a parser. *)
Class Parser := url_Parse : string → option URL.

(** The parser above as the default one. *)
Definition go : Parser := Parse.

End NetURL.

Import NetURL (Parser, url_Parse, Hostname, Path).

(** ** Constants and data of the handler *)

Definition MaxImageSize : Z := 3932160.
Definition MaxImagesPerCall : nat := 10.
Definition MaxConcurrentDownloads : nat := 3.
Definition MaxInlineImageBudget : Z := 750 * 1024.

Definition DefaultJPEGQuality : Z := 80.
Definition MinJPEGQuality : Z := 40.
Definition JPEGQualityStep : Z := 20.

Record ImageInfo := mkImageInfo {
  FileID : string;
  Name : string;
  MimeType : string;
  Size : Z;
  URL : string;
  MsgTS : string
}.

Definition allowedImageHosts : gmap string bool :=
  <["files.slack.com" := true]>
    (<["slack-edge.com" := true]>
       (<["avatars.slack-edge.com" := true]> ∅)).

Definition supportedImageMimeTypes : gmap string bool :=
  <["image/png" := true]>
    (<["image/jpeg" := true]>
       (<["image/gif" := true]>
          (<["image/webp" := true]> ∅))).

(** [m[k]] on a [map[string]bool]: the zero value for a missing key. *)
Definition map_index (m : gmap string bool) (k : string) : bool :=
  default false (m !! k).

(** ** Host allow-list *)

Definition isAllowedImageHost `{Parser} (rawURL : string) : bool :=
  match url_Parse rawURL with
  | None => false
  | Some parsed =>
      let host := Hostname parsed in
      if map_index allowedImageHosts host then true
      else existsb (λ kv, GoStrings.HasSuffix host ("." +:+ kv.1))
                   (map_to_list allowedImageHosts)
  end.

(** ** MIME types *)

Definition isImageMimeType (mimeType : string) : bool :=
  let mimeType := GoStrings.TrimSpace mimeType in
  let mimeType :=
    match GoStrings.IndexByte mimeType ";" with
    | Some idx => GoStrings.TrimSpace (GoStrings.take idx mimeType)
    | None => mimeType
    end in
  let mimeType := GoStrings.ToLower mimeType in
  map_index supportedImageMimeTypes mimeType.

Definition guessMimeTypeFromURL `{Parser} (rawURL : string) : string :=
  match url_Parse rawURL with
  | None => ""
  | Some parsed =>
      let path := GoStrings.ToLower (Path parsed) in
      if GoStrings.HasSuffix path ".png" then "image/png"
      else if GoStrings.HasSuffix path ".jpg" || GoStrings.HasSuffix path ".jpeg"
      then "image/jpeg"
      else if GoStrings.HasSuffix path ".gif" then "image/gif"
      else if GoStrings.HasSuffix path ".webp" then "image/webp"
      else "image/png"
  end.

Definition extractFilenameFromURL `{Parser} (rawURL : string) : string :=
  match url_Parse rawURL with
  | None => "image"
  | Some parsed =>
      let path := Path parsed in
      match GoStrings.LastIndexByte path "/" with
      | Some idx =>
          let filename := GoStrings.drop (S idx) path in
          if String.eqb filename "" then "image" else filename
      | None => "image"
      end
  end.

(** ** Reference extraction from link-preview attachments *)

(** The two fields of [slack.Attachment] the extraction reads. *)
Record Attachment := mkAttachment {
  ImageURL : string;
  ThumbURL : string
}.

Definition nonempty (s : string) : bool := negb (String.eqb s "").

(** The reference built for an attachment URL: no file ID, unknown size. *)
Definition attachmentImage `{Parser} (url mimeType msgTS : string) : ImageInfo :=
  {| FileID := ""; Name := extractFilenameFromURL url; MimeType := mimeType;
     Size := 0; URL := url; MsgTS := msgTS |}.

(** One iteration of the loop of [ExtractImagesFromAttachments]: the
    references it appends for one attachment. *)
Definition extractFromAttachment `{Parser} (msgTS : string) (attachment : Attachment)
    : list ImageInfo :=
  let fromImage :=
    if nonempty (ImageURL attachment) && isAllowedImageHost (ImageURL attachment)
    then
      let mimeType := guessMimeTypeFromURL (ImageURL attachment) in
      if isImageMimeType mimeType
      then [attachmentImage (ImageURL attachment) mimeType msgTS]
      else []
    else [] in
  let fromThumb :=
    if nonempty (ThumbURL attachment) && isAllowedImageHost (ThumbURL attachment)
    then
      if nonempty (ImageURL attachment) && isAllowedImageHost (ImageURL attachment)
      then []
      else
        let mimeType := guessMimeTypeFromURL (ThumbURL attachment) in
        if isImageMimeType mimeType
        then [attachmentImage (ThumbURL attachment) mimeType msgTS]
        else []
    else [] in
  fromImage ++ fromThumb.

Definition ExtractImagesFromAttachments `{Parser}
    (attachments : list Attachment) (msgTS : string) : list ImageInfo :=
  fold_left (λ images attachment, images ++ extractFromAttachment msgTS attachment)
            attachments [].

(** ** Content sniffing *)

Definition len {A} (l : list A) : Z := Z.of_nat (length l).

(** [data[lo:hi]] for [lo <= hi <= len(data)]. *)
Definition slice {A} (lo hi : nat) (data : list A) : list A :=
  take (hi - lo) (drop lo data).

Definition string_of_bytes (data : list byte) : string :=
  String.string_of_list_byte data.

(** [data[i] == b], for an index in range. *)
Definition byte_is (data : list byte) (i : nat) (b : byte) : bool :=
  match data !! i with
  | Some c => Byte.eqb c b
  | None => false
  end.

Definition isValidImageData (data : list byte) : bool :=
  if len data <? 8 then false
  else if byte_is data 0 x89 && byte_is data 1 x50 && byte_is data 2 x4e
          && byte_is data 3 x47
  then true
  else if byte_is data 0 xff && byte_is data 1 xd8 && byte_is data 2 xff
  then true
  else if (6 <=? len data) && String.eqb (string_of_bytes (slice 0 3 data)) "GIF"
  then true
  else if (12 <=? len data)
          && String.eqb (string_of_bytes (slice 0 4 data)) "RIFF"
          && String.eqb (string_of_bytes (slice 8 12 data)) "WEBP"
  then true
  else false.

Definition isHTMLContent (data : list byte) : bool :=
  if len data <? 15 then false
  else
    let prefix :=
      GoStrings.ToLower (string_of_bytes (slice 0 (Nat.min 500 (length data)) data)) in
    if GoStrings.Contains prefix "<!doctype"
       || GoStrings.Contains prefix "<html"
       || GoStrings.Contains prefix "<head"
       || GoStrings.Contains prefix "<body"
    then true
    else if (20 <? len data)
    then
      let suffix :=
        GoStrings.ToLower
          (string_of_bytes (slice (length data - 20) (length data) data)) in
      GoStrings.Contains suffix "</html>" || GoStrings.Contains suffix "</body>"
    else false.

(** ** Fetching one image *)

(** The outcome of a call that returns [(value, error)]. *)
Inductive outcome (A : Type) :=
  | Ok (a : A)
  | Fail (err : string).
Arguments Ok {A} a.
Arguments Fail {A} err.

(** The interface [SlackFileDownloader].  [GetFileContext] is given the
    URL and a buffer; it writes the file to the buffer or fails (network
    error, time-out or cancellation of its context).  A call may change
    the downloader, so its state is threaded. *)
Class SlackFileDownloader (C : Type) :=
  GetFileContext : C → string → C * outcome (list byte).

Definition errAuthenticationFailed : string :=
  "authentication failed: received HTML login page instead of image (browser tokens may not support file downloads)".

Definition errNotAnImage : string := "downloaded data is not a valid image format".

Definition errDownload (cause : string) : string :=
  "failed to download image: " +:+ cause.

Definition errTooLarge (n : Z) : string :=
  "image size " +:+ pretty n +:+ " bytes exceeds maximum allowed size of "
    +:+ pretty MaxImageSize +:+ " bytes".

Definition DownloadImage `{SlackFileDownloader C} (slackClient : C) (url : string)
    : C * outcome (list byte) :=
  let '(slackClient, r) := GetFileContext slackClient url in
  match r with
  | Fail err => (slackClient, Fail (errDownload err))
  | Ok data =>
      if MaxImageSize <? len data then (slackClient, Fail (errTooLarge (len data)))
      else if negb (isValidImageData data)
      then if isHTMLContent data
           then (slackClient, Fail errAuthenticationFailed)
           else (slackClient, Fail errNotAnImage)
      else (slackClient, Ok data)
  end.

(** ** PNG to JPEG compression *)

(** The two library calls of [compressPNGToJPEG]: [png.Decode] and
    [jpeg.Encode] at a quality; both can fail. *)
Class ImageCodec := {
  Image : Type;
  png_Decode : list byte → option Image;
  jpeg_Encode : Image → Z → option (list byte)
}.

(** The field [MimeType] of the Go struct is [ResultMimeType] here, and the
    fields of [imageDownloadResult] carry the prefix [Result] below: the
    names are taken by the fields of [ImageInfo]. *)
Record CompressImageResult := mkCompressImageResult {
  Data : list byte;
  ResultMimeType : string;
  WasConverted : bool;
  OriginalSize : Z;
  FinalSize : Z
}.

(** [None] is a non-nil error; its text is dropped by the only caller. *)
Definition compressPNGToJPEG `{ImageCodec} (pngData : list byte) (quality : Z)
    : option (list byte) :=
  img ← png_Decode pngData;
  jpeg_Encode img quality.

Definition qualities : list Z :=
  [DefaultJPEGQuality; DefaultJPEGQuality - JPEGQualityStep; MinJPEGQuality].

(** The loop over the quality levels; [result] is returned when the loop
    runs off its end. *)
Fixpoint compressLoop `{ImageCodec} (data : list byte) (budget : Z)
    (result : CompressImageResult) (levels : list Z) : CompressImageResult :=
  match levels with
  | [] => result
  | quality :: levels' =>
      match compressPNGToJPEG data quality with
      | None => compressLoop data budget result levels'
      | Some compressed =>
          if (len compressed <=? budget) || (quality =? MinJPEGQuality)
          then {| Data := compressed; ResultMimeType := "image/jpeg";
                  WasConverted := true; OriginalSize := OriginalSize result;
                  FinalSize := len compressed |}
          else compressLoop data budget result levels'
      end
  end.

(** The error the Go function returns next to the result is always nil. *)
Definition CompressImageIfNeeded `{ImageCodec} (data : list byte) (mimeType : string)
    (budget : Z) : CompressImageResult :=
  let result :=
    {| Data := data; ResultMimeType := mimeType; WasConverted := false;
       OriginalSize := len data; FinalSize := len data |} in
  if negb (String.eqb mimeType "image/png") then result
  else compressLoop data budget result qualities.

(** ** The budgeted assembler *)

Definition imageKey (img : ImageInfo) : string :=
  if String.eqb (FileID img) "" then URL img else FileID img.

Definition warnTooLarge (img : ImageInfo) : string :=
  "Skipped image: image '" +:+ Name img +:+ "' size " +:+ pretty (Size img)
    +:+ " bytes exceeds limit".

Definition warnFailed (err : string) : string := "Skipped image: " +:+ err.

(** The local variables of [DownloadImagesWithBudget], with the
    downloader. *)
Record budgetState (C : Type) := mkBudgetState {
  slackClient : C;
  imageData : gmap string (list byte);
  mimeTypeOverrides : gmap string string;
  skippedImages : list ImageInfo;
  warnings : list string;
  cumulativeSize : Z;
  budgetExceeded : bool
}.
Arguments mkBudgetState {C}.
Arguments slackClient {C}.
Arguments imageData {C}.
Arguments mimeTypeOverrides {C}.
Arguments skippedImages {C}.
Arguments warnings {C}.
Arguments cumulativeSize {C}.
Arguments budgetExceeded {C}.

Definition budgetInit {C} (c : C) : budgetState C :=
  mkBudgetState c ∅ ∅ [] [] 0 false.

(** The body of the loop of [DownloadImagesWithBudget]. *)
Definition budgetStep `{SlackFileDownloader C} `{ImageCodec} (budget : Z)
    (st : budgetState C) (img : ImageInfo) : budgetState C :=
  let key := imageKey img in
  if budgetExceeded st
  then mkBudgetState (slackClient st) (imageData st) (mimeTypeOverrides st)
         (skippedImages st ++ [img]) (warnings st) (cumulativeSize st) true
  else if MaxImageSize <? Size img
  then mkBudgetState (slackClient st) (imageData st) (mimeTypeOverrides st)
         (skippedImages st) (warnings st ++ [warnTooLarge img])
         (cumulativeSize st) false
  else
    let '(client', r) := DownloadImage (slackClient st) (URL img) in
    match r with
    | Fail err =>
        mkBudgetState client' (imageData st) (mimeTypeOverrides st)
          (skippedImages st) (warnings st ++ [warnFailed err])
          (cumulativeSize st) false
    | Ok data =>
        let remainingBudget := budget - cumulativeSize st in
        let compResult := CompressImageIfNeeded data (MimeType img) remainingBudget in
        let data := Data compResult in
        let overrides :=
          if WasConverted compResult
          then <[key := ResultMimeType compResult]> (mimeTypeOverrides st)
          else mimeTypeOverrides st in
        if budget <? cumulativeSize st + len data
        then mkBudgetState client' (imageData st) overrides
               (skippedImages st ++ [img]) (warnings st) (cumulativeSize st) true
        else mkBudgetState client' (<[key := data]> (imageData st)) overrides
               (skippedImages st) (warnings st) (cumulativeSize st + len data)
               false
    end.

(** The loop from a state on. *)
Definition budgetLoop `{SlackFileDownloader C} `{ImageCodec} (budget : Z)
    (st : budgetState C) (images : list ImageInfo) : budgetState C :=
  fold_left (budgetStep budget) images st.

(** [if len(images) > MaxImagesPerCall { images = images[:MaxImagesPerCall] }] *)
Definition limitImages (images : list ImageInfo) : list ImageInfo :=
  if (MaxImagesPerCall <? length images)%nat then take MaxImagesPerCall images
  else images.

(** [DownloadImagesWithBudget]: the final state holds the four results
    (included images, MIME overrides, skipped images, warnings). *)
Definition DownloadImagesWithBudget `{SlackFileDownloader C} `{ImageCodec}
    (slackClient : C) (images : list ImageInfo) (budget : Z) : budgetState C :=
  let images := limitImages images in
  match images with
  | [] => budgetInit slackClient
  | _ => budgetLoop budget (budgetInit slackClient) images
  end.

(** ** The download pool

    [DownloadImagesWithConcurrencyLimit] starts one goroutine per image.
    The program points of the goroutine's body, in source order: *)
Inductive taskPC :=
  | Spawned      (** started; before [semaphore <- struct{}{}] *)
  | Acquired     (** slot taken and its release deferred; size not yet checked *)
  | Downloading  (** inside the call of [DownloadImage] *)
  | Sent         (** result sent on [resultChan]; the function returns *)
  | Released     (** deferred [<-semaphore] done; [wg.Done()] pending *)
  | Finished.    (** deferred [wg.Done()] done *)

Record imageDownloadResult := mkResult {
  ResultFileID : string;
  ResultData : list byte;
  ResultError : option string
}.

Global Instance taskPC_eq_decision : EqDecision taskPC.
Proof. solve_decision. Defined.

(** The shared state: the images the main loop has yet to start, the
    goroutines, the number of tokens in the buffered channel [semaphore],
    the buffer of [resultChan] and whether it is closed, the counter of
    the wait group, the downloader, and the collector's two results. *)
Record poolState (C : Type) := mkPool {
  pending : list ImageInfo;
  tasks : list (ImageInfo * taskPC);
  semaphore : nat;
  resultChan : list imageDownloadResult;
  resultClosed : bool;
  wg : nat;
  poolClient : C;
  poolImageData : gmap string (list byte);
  poolWarnings : list string
}.
Arguments mkPool {C}.
Arguments pending {C}.
Arguments tasks {C}.
Arguments semaphore {C}.
Arguments resultChan {C}.
Arguments resultClosed {C}.
Arguments wg {C}.
Arguments poolClient {C}.
Arguments poolImageData {C}.
Arguments poolWarnings {C}.

Definition poolInit {C} (c : C) (images : list ImageInfo) : poolState C :=
  mkPool (limitImages images) [] 0 [] false 0 c ∅ [].

Definition setTask {C} (s : poolState C) (i : nat) (t : ImageInfo * taskPC)
    : list (ImageInfo * taskPC) := <[i := t]> (tasks s).

Definition resultOf (img : ImageInfo) (r : outcome (list byte)) : imageDownloadResult :=
  match r with
  | Ok data => mkResult (imageKey img) data None
  | Fail err => mkResult (imageKey img) [] (Some err)
  end.

Definition errOverLimit (img : ImageInfo) : string :=
  "image '" +:+ Name img +:+ "' size " +:+ pretty (Size img) +:+ " bytes exceeds limit".

(** One atomic step of one of the goroutines or of the main routine; the
    goroutines interleave at their program points.  A send on a buffered
    channel is enabled when the buffer is not full: [resultChan] has room
    for every result, [semaphore] for [MaxConcurrentDownloads] tokens.  A
    goroutine's deferred calls run when it returns, the last one deferred
    first: the receive from [semaphore], then [wg.Done()].  The main
    routine starts the goroutines one by one ([step_spawn]), then the
    goroutine that closes [resultChan] once the wait group is at zero
    ([step_close]), and collects the results ([step_collect]). *)
Inductive poolStep `{SlackFileDownloader C} : poolState C → poolState C → Prop :=
  | step_spawn s img rest :
      pending s = img :: rest →
      poolStep s (mkPool rest (tasks s ++ [(img, Spawned)]) (semaphore s)
                    (resultChan s) (resultClosed s) (S (wg s)) (poolClient s)
                    (poolImageData s) (poolWarnings s))
  | step_acquire s i img :
      tasks s !! i = Some (img, Spawned) →
      (semaphore s < MaxConcurrentDownloads)%nat →
      poolStep s (mkPool (pending s) (setTask s i (img, Acquired)) (S (semaphore s))
                    (resultChan s) (resultClosed s) (wg s) (poolClient s)
                    (poolImageData s) (poolWarnings s))
  | step_too_large s i img :
      tasks s !! i = Some (img, Acquired) →
      MaxImageSize < Size img →
      poolStep s (mkPool (pending s) (setTask s i (img, Sent)) (semaphore s)
                    (resultChan s ++ [resultOf img (Fail (errOverLimit img))])
                    (resultClosed s) (wg s) (poolClient s)
                    (poolImageData s) (poolWarnings s))
  | step_start s i img :
      tasks s !! i = Some (img, Acquired) →
      Size img <= MaxImageSize →
      poolStep s (mkPool (pending s) (setTask s i (img, Downloading)) (semaphore s)
                    (resultChan s) (resultClosed s) (wg s) (poolClient s)
                    (poolImageData s) (poolWarnings s))
  | step_complete s i img c' r :
      tasks s !! i = Some (img, Downloading) →
      DownloadImage (poolClient s) (URL img) = (c', r) →
      poolStep s (mkPool (pending s) (setTask s i (img, Sent)) (semaphore s)
                    (resultChan s ++ [resultOf img r])
                    (resultClosed s) (wg s) c'
                    (poolImageData s) (poolWarnings s))
  | step_release s i img :
      tasks s !! i = Some (img, Sent) →
      poolStep s (mkPool (pending s) (setTask s i (img, Released)) (pred (semaphore s))
                    (resultChan s) (resultClosed s) (wg s) (poolClient s)
                    (poolImageData s) (poolWarnings s))
  | step_done s i img :
      tasks s !! i = Some (img, Released) →
      poolStep s (mkPool (pending s) (setTask s i (img, Finished)) (semaphore s)
                    (resultChan s) (resultClosed s) (pred (wg s)) (poolClient s)
                    (poolImageData s) (poolWarnings s))
  | step_close s :
      pending s = [] → wg s = O → resultClosed s = false →
      poolStep s (mkPool (pending s) (tasks s) (semaphore s)
                    (resultChan s) true (wg s) (poolClient s)
                    (poolImageData s) (poolWarnings s))
  | step_collect s result rest :
      pending s = [] → resultChan s = result :: rest →
      poolStep s (mkPool (pending s) (tasks s) (semaphore s) rest
                    (resultClosed s) (wg s) (poolClient s)
                    (match ResultError result with
                     | Some _ => poolImageData s
                     | None => <[ResultFileID result := ResultData result]> (poolImageData s)
                     end)
                    (match ResultError result with
                     | Some err => poolWarnings s ++ [warnFailed err]
                     | None => poolWarnings s
                     end)).

(** The states an invocation on [images] can be in. *)
Inductive poolReachable `{SlackFileDownloader C} (c : C) (images : list ImageInfo)
    : poolState C → Prop :=
  | reach_init : poolReachable c images (poolInit c images)
  | reach_step s s' :
      poolReachable c images s → poolStep s s' → poolReachable c images s'.

Fixpoint countPC (p : taskPC → bool) (ts : list (ImageInfo * taskPC)) : nat :=
  match ts with
  | [] => O
  | t :: ts' => ((if p t.2 then 1 else 0) + countPC p ts')%nat
  end.

(** A goroutine holds a slot from the send on [semaphore] to the deferred
    receive. *)
Definition holdsSlot (pc : taskPC) : bool :=
  match pc with
  | Acquired | Downloading | Sent => true
  | _ => false
  end.

Definition isDownloading (pc : taskPC) : bool :=
  match pc with
  | Downloading => true
  | _ => false
  end.

(** The number of downloads in flight. *)
Definition inFlight {C} (s : poolState C) : nat := countPC isDownloading (tasks s).

(** The steps as a function of the state and of the scheduler's choice,
    for running the pool on an example. *)
Inductive poolAction :=
  | DoSpawn
  | DoAcquire (i : nat)
  | DoCheckSize (i : nat)
  | DoComplete (i : nat)
  | DoRelease (i : nat)
  | DoDone (i : nat)
  | DoClose
  | DoCollect.

Definition taskAt {C} (s : poolState C) (i : nat) (pc : taskPC) : option ImageInfo :=
  match tasks s !! i with
  | Some (img, pc') => if bool_decide (pc' = pc) then Some img else None
  | None => None
  end.

Definition poolExec `{SlackFileDownloader C} (s : poolState C) (a : poolAction)
    : option (poolState C) :=
  match a with
  | DoSpawn =>
      match pending s with
      | img :: rest =>
          Some (mkPool rest (tasks s ++ [(img, Spawned)]) (semaphore s)
                  (resultChan s) (resultClosed s) (S (wg s)) (poolClient s)
                  (poolImageData s) (poolWarnings s))
      | [] => None
      end
  | DoAcquire i =>
      img ← taskAt s i Spawned;
      if (semaphore s <? MaxConcurrentDownloads)%nat
      then Some (mkPool (pending s) (setTask s i (img, Acquired)) (S (semaphore s))
                   (resultChan s) (resultClosed s) (wg s) (poolClient s)
                   (poolImageData s) (poolWarnings s))
      else None
  | DoCheckSize i =>
      img ← taskAt s i Acquired;
      if MaxImageSize <? Size img
      then Some (mkPool (pending s) (setTask s i (img, Sent)) (semaphore s)
                   (resultChan s ++ [resultOf img (Fail (errOverLimit img))])
                   (resultClosed s) (wg s) (poolClient s)
                   (poolImageData s) (poolWarnings s))
      else Some (mkPool (pending s) (setTask s i (img, Downloading)) (semaphore s)
                   (resultChan s) (resultClosed s) (wg s) (poolClient s)
                   (poolImageData s) (poolWarnings s))
  | DoComplete i =>
      img ← taskAt s i Downloading;
      let '(c', r) := DownloadImage (poolClient s) (URL img) in
      Some (mkPool (pending s) (setTask s i (img, Sent)) (semaphore s)
              (resultChan s ++ [resultOf img r])
              (resultClosed s) (wg s) c'
              (poolImageData s) (poolWarnings s))
  | DoRelease i =>
      img ← taskAt s i Sent;
      Some (mkPool (pending s) (setTask s i (img, Released)) (pred (semaphore s))
              (resultChan s) (resultClosed s) (wg s) (poolClient s)
              (poolImageData s) (poolWarnings s))
  | DoDone i =>
      img ← taskAt s i Released;
      Some (mkPool (pending s) (setTask s i (img, Finished)) (semaphore s)
              (resultChan s) (resultClosed s) (pred (wg s)) (poolClient s)
              (poolImageData s) (poolWarnings s))
  | DoClose =>
      match pending s, wg s, resultClosed s with
      | [], O, false =>
          Some (mkPool (pending s) (tasks s) (semaphore s)
                  (resultChan s) true (wg s) (poolClient s)
                  (poolImageData s) (poolWarnings s))
      | _, _, _ => None
      end
  | DoCollect =>
      match pending s, resultChan s with
      | [], result :: rest =>
          Some (mkPool (pending s) (tasks s) (semaphore s) rest
                  (resultClosed s) (wg s) (poolClient s)
                  (match ResultError result with
                   | Some _ => poolImageData s
                   | None => <[ResultFileID result := ResultData result]> (poolImageData s)
                   end)
                  (match ResultError result with
                   | Some err => poolWarnings s ++ [warnFailed err]
                   | None => poolWarnings s
                   end))
      | _, _ => None
      end
  end.

Fixpoint poolRun `{SlackFileDownloader C} (s : poolState C) (schedule : list poolAction)
    : option (poolState C) :=
  match schedule with
  | [] => Some s
  | a :: schedule' => s' ← poolExec s a; poolRun s' schedule'
  end.

(** ** Stand-ins for the collaborators, for running the model *)

(** The mock of the test suite: a table from URL to bytes and an error to
    return, if any. *)
Record mockSlackFileDownloader := mkMock {
  files : gmap string (list byte);
  err : option string
}.

Global Instance mock_GetFileContext : SlackFileDownloader mockSlackFileDownloader :=
  λ m downloadURL,
    match err m with
    | Some e => (m, Fail e)
    | None =>
        match files m !! downloadURL with
        | Some data => (m, Ok data)
        | None => (m, Fail ("file not found: " +:+ downloadURL))
        end
    end.

(** A downloader that also keeps the list of the URLs it was asked for. *)
Global Instance recording_GetFileContext `{SlackFileDownloader C}
    : SlackFileDownloader (C * list string) :=
  λ cl downloadURL,
    let '(c', r) := GetFileContext cl.1 downloadURL in
    ((c', cl.2 ++ [downloadURL]), r).

Global Instance byte_eq_decision : EqDecision byte := byte_eq_dec.

Definition pngMagic : list byte := [x89; x50; x4e; x47; x0d; x0a; x1a; x0a].

(** [makePNG] of the test suite: [size] bytes, zero but for the PNG
    signature copied to the front. *)
Definition makePNG (size : nat) : list byte :=
  take size (pngMagic ++ replicate (size - 8) x00).

(** A codec for examples: decoding succeeds on data that starts with the PNG
    signature and yields what follows it; encoding at quality [q] yields a
    JPEG marker and [q] percent of the pixels. *)
Definition stubCodec : ImageCodec :=
  {| Image := list byte;
     png_Decode data :=
       if bool_decide (take 8 data = pngMagic) then Some (drop 8 data) else None;
     jpeg_Encode img quality :=
       Some ([xff; xd8; xff] ++ take (Z.to_nat (len img * quality / 100)) img) |}.

(** A codec that fails on every input. *)
Definition failingCodec : ImageCodec :=
  {| Image := unit; png_Decode _ := None; jpeg_Encode _ _ := None |}.

(** ** Notions the properties are stated with *)

(** The keys of [allowedImageHosts]. *)
Definition allowedHostNames : list string :=
  ["files.slack.com"; "slack-edge.com"; "avatars.slack-edge.com"].

(** What [isAllowedImageHost] decides about a host name. *)
Definition hostMatches (host : string) : Prop :=
  ∃ entry, entry ∈ allowedHostNames
           ∧ (host = entry ∨ ∃ sub, host = sub +:+ "." +:+ entry).

(** The bytes held by the map of included images. *)
Definition includedBytes (m : gmap string (list byte)) : Z :=
  map_fold (λ _ data acc, len data + acc) 0 m.

(** The invariant of the loop: the running total is between zero and the
    budget and bounds the bytes held. *)
Definition budgetInv {C} (budget : Z) (st : budgetState C) : Prop :=
  0 <= cumulativeSize st <= budget
  ∧ includedBytes (imageData st) <= cumulativeSize st.

(** The input returned as it came. *)
Definition unchanged (data : list byte) (mimeType : string) : CompressImageResult :=
  {| Data := data; ResultMimeType := mimeType; WasConverted := false;
     OriginalSize := len data; FinalSize := len data |}.

(** The input replaced by a JPEG encoding of it. *)
Definition converted (data compressed : list byte) : CompressImageResult :=
  {| Data := compressed; ResultMimeType := "image/jpeg"; WasConverted := true;
     OriginalSize := len data; FinalSize := len compressed |}.

(** A level is passed over when decoding or encoding fails at it, or when
    its encoding is over the budget. *)
Definition passedOver (budget : Z) (encoded : option (list byte)) : Prop :=
  encoded = None ∨ ∃ compressed, encoded = Some compressed ∧ budget < len compressed.

(** The string [isImageMimeType] looks up in the table of supported types:
    trimmed, cut at the first semicolon, trimmed again, lower-cased. *)
Definition normalizedMimeType (mimeType : string) : string :=
  let mimeType := GoStrings.TrimSpace mimeType in
  let mimeType :=
    match GoStrings.IndexByte mimeType ";" with
    | Some idx => GoStrings.TrimSpace (GoStrings.take idx mimeType)
    | None => mimeType
    end in
  GoStrings.ToLower mimeType.

(** The URL of an attachment can be fetched: present and on an allowed host. *)
Definition usable `{Parser} (url : string) : bool :=
  nonempty url && isAllowedImageHost url.

(** The reference for an attachment URL, with the type guessed from it. *)
Definition referenceTo `{Parser} (url msgTS : string) : ImageInfo :=
  attachmentImage url (guessMimeTypeFromURL url) msgTS.

Definition bytes_of_string (s : string) : list byte := String.list_byte_of_string s.

(** The four bytes the PNG test reads, and the other signatures. *)
Definition pngMagic4 : list byte := [x89; x50; x4e; x47].
Definition jpegMagic : list byte := [xff; xd8; xff].
Definition gifMagic : list byte := bytes_of_string "GIF".
Definition riffMagic : list byte := bytes_of_string "RIFF".
Definition webpMagic : list byte := bytes_of_string "WEBP".

(** The signatures as the specification lists them: the full PNG signature
    of eight bytes, the JPEG signature, the GIF prefix, or RIFF with WEBP
    at offset 8. *)
Definition claimedSignature (data : list byte) : Prop :=
  pngMagic `prefix_of` data
  ∨ jpegMagic `prefix_of` data
  ∨ gifMagic `prefix_of` data
  ∨ (riffMagic `prefix_of` data ∧ webpMagic `prefix_of` drop 8 data).

(** HTML detection as the specification words it: a marker in the first
    500 bytes, lower-cased, or a closing tag in the last 20 bytes. *)
Definition claimedHTMLDetection (data : list byte) : bool :=
  let first500 := GoStrings.ToLower (string_of_bytes (take 500 data)) in
  let last20 := string_of_bytes (drop (length data - 20) data) in
  GoStrings.Contains first500 "<!doctype"
  || GoStrings.Contains first500 "<html"
  || GoStrings.Contains first500 "<head"
  || GoStrings.Contains first500 "<body"
  || GoStrings.Contains last20 "</html>"
  || GoStrings.Contains last20 "</body>".

Definition openingMarkers : list string := ["<!doctype"; "<html"; "<head"; "<body"].
Definition closingMarkers : list string := ["</html>"; "</body>"].

(** The invariant of the pool: the tokens in [semaphore] are the
    goroutines between their send on it and their deferred receive, and
    the buffer is not over its capacity. *)
Definition poolInv {C} (s : poolState C) : Prop :=
  semaphore s = countPC holdsSlot (tasks s)
  ∧ (semaphore s <= MaxConcurrentDownloads)%nat.

(** ** Data of the examples *)

(** A reference as the test suite builds them: a file ID, a name, a
    declared size and a URL; no MIME type. *)
Definition testImage (id : string) (size : Z) : ImageInfo :=
  mkImageInfo id (id +:+ ".png") "" size ("https://files.slack.com/" +:+ id) "".

(** The second scenario of the test suite: three images of 1000 bytes, for
    a budget of 1500. *)
Definition threeImages : list ImageInfo :=
  [testImage "F001" 1000; testImage "F002" 1000; testImage "F003" 1000].

Definition threeFiles : mockSlackFileDownloader :=
  mkMock (<["https://files.slack.com/F001" := makePNG 1000]>
            (<["https://files.slack.com/F002" := makePNG 1000]>
               (<["https://files.slack.com/F003" := makePNG 1000]> ∅)))
         None.

(** Two references: the first declares a size over [MaxImageSize], the
    second declares 500 bytes and its file is served. *)
Definition oversizedThenSmall : list ImageInfo :=
  [testImage "F001" 4000000; testImage "F002" 500].

Definition twoFiles : mockSlackFileDownloader :=
  mkMock (<["https://files.slack.com/F001" := makePNG 2000]>
            (<["https://files.slack.com/F002" := makePNG 500]> ∅))
         None.

(** A downloader that serves these bytes for the URL of the first file. *)
Definition serving (data : list byte) : mockSlackFileDownloader :=
  mkMock (<["https://files.slack.com/F001" := data]> ∅) None.

(** A login page, as a server sends it in place of a file it does not
    grant. *)
Definition loginPage : list byte :=
  bytes_of_string
    "<!DOCTYPE html><html><head><title>Sign in to Slack</title></head><body>Please sign in to continue.</body></html>".

(** Four images; a schedule that starts the four goroutines and lets three
    of them acquire a slot and pass the size check; the state it leads to,
    with three downloads in flight. *)
Definition fourImages : list ImageInfo :=
  [testImage "F001" 1000; testImage "F002" 1000; testImage "F003" 1000;
   testImage "F004" 1000].

Definition threeInFlight : list poolAction :=
  [DoSpawn; DoSpawn; DoSpawn; DoSpawn;
   DoAcquire 0; DoAcquire 1; DoAcquire 2;
   DoCheckSize 0; DoCheckSize 1; DoCheckSize 2].

Definition stateThreeInFlight : poolState mockSlackFileDownloader :=
  mkPool []
    [(testImage "F001" 1000, Downloading); (testImage "F002" 1000, Downloading);
     (testImage "F003" 1000, Downloading); (testImage "F004" 1000, Spawned)]
    3 [] false 4 threeFiles ∅ [].

(** * The rest of the package *)

(** ** Messages and their files *)

(** The fields of [slack.File] and [slack.Message] that the handler reads,
    and those of [slack.User] that the team context reads. *)
Module slack.

Record File := mkFile {
  ID : string;
  Name : string;
  Mimetype : string;
  Size : Z;
  URLPrivate : string;
  URLPrivateDownload : string
}.

Record Message := mkMessage {
  Timestamp : string;
  Files : list File
}.

Record User := mkUser {
  UserID : string;
  UserName : string;
  RealName : string
}.

End slack.

(** One iteration of the loop of [ExtractImagesFromMessage]: the reference
    appended for one file, if any. *)
Definition extractFromFile (msgTS : string) (file : slack.File) : list ImageInfo :=
  if negb (isImageMimeType (slack.Mimetype file)) then []
  else
    let downloadURL := slack.URLPrivate file in
    let downloadURL :=
      if String.eqb downloadURL "" then slack.URLPrivateDownload file
      else downloadURL in
    if String.eqb downloadURL "" then []
    else [ {| FileID := slack.ID file; Name := slack.Name file;
              MimeType := slack.Mimetype file; Size := slack.Size file;
              URL := downloadURL; MsgTS := msgTS |} ].

Definition ExtractImagesFromMessage (msg : slack.Message) : list ImageInfo :=
  fold_left (λ images file, images ++ extractFromFile (slack.Timestamp msg) file)
            (slack.Files msg) [].

(** ** Content for the protocol layer *)

(** [base64.StdEncoding.EncodeToString]: three bytes give four characters
    of the standard alphabet; a rest of one or two bytes is padded with
    [=]. *)
Module base64.

Definition encodeStd : string :=
  "ABCDEFGHIJKLMNOPQRSTUVWXYZabcdefghijklmnopqrstuvwxyz0123456789+/".

(** [encodeStd[val >> shift & 0x3F]] *)
Definition encode (val : N) (shift : N) : ascii :=
  match String.get (N.to_nat (N.land (N.shiftr val shift) 63)) encodeStd with
  | Some c => c
  | None => "="%char
  end.

Fixpoint EncodeToString (src : list byte) : string :=
  match src with
  | [] => ""
  | [b0] =>
      let val := N.shiftl (Byte.to_N b0) 16 in
      String (encode val 18) (String (encode val 12) "==")
  | [b0; b1] =>
      let val := N.lor (N.shiftl (Byte.to_N b0) 16) (N.shiftl (Byte.to_N b1) 8) in
      String (encode val 18) (String (encode val 12) (String (encode val 6) "="))
  | b0 :: b1 :: b2 :: rest =>
      let val := N.lor (N.lor (N.shiftl (Byte.to_N b0) 16) (N.shiftl (Byte.to_N b1) 8))
                       (Byte.to_N b2) in
      String (encode val 18) (String (encode val 12)
        (String (encode val 6) (String (encode val 0) (EncodeToString rest))))
  end.

End base64.

(** The two kinds of [mcp.Content] the handlers build, the result of a tool
    call, and the constructors of the package [mcp] for them. *)
Module mcp.

Inductive Content :=
  | TextContent (Text : string)
  | ImageContent (Data : string) (MIMEType : string).

Record CallToolResult := mkCallToolResult {
  Content_ : list Content;
  IsError : bool
}.

Definition NewTextContent (text : string) : Content := TextContent text.

Definition NewImageContent (data mimeType : string) : Content :=
  ImageContent data mimeType.

Definition NewToolResultText (text : string) : CallToolResult :=
  mkCallToolResult [TextContent text] false.

Definition NewToolResultError (text : string) : CallToolResult :=
  mkCallToolResult [TextContent text] true.

End mcp.

(** One iteration of the loop of [ImagesToMCPContent]. *)
Definition contentOfImage (imageData : gmap string (list byte))
    (mimeTypeOverrides : gmap string string) (img : ImageInfo) : list mcp.Content :=
  let key := imageKey img in
  match imageData !! key with
  | None => []
  | Some data =>
      let mimeType :=
        match mimeTypeOverrides !! key with
        | Some override => override
        | None => MimeType img
        end in
      [mcp.NewImageContent (base64.EncodeToString data) mimeType]
  end.

Definition ImagesToMCPContent (images : list ImageInfo)
    (imageData : gmap string (list byte)) (mimeTypeOverrides : gmap string string)
    : list mcp.Content :=
  fold_left (λ content img, content ++ contentOfImage imageData mimeTypeOverrides img)
            images [].

(** ** The tool that fetches one image *)

(** What [GetImageHandler] asks of [ApiProvider]: whether the tokens allow
    downloads, and the metadata of a file from the Slack client, a call
    that may change the client and may fail.  The same client serves the
    download, through [SlackFileDownloader].  The calls of the logger are
    left out: they return nothing. *)
Class ApiProvider (P : Type) := {
  CanDownloadFiles : P → bool;
  GetFileInfoContext : P → string → P * outcome slack.File
}.

Definition newline : string := String (ascii_of_nat 10) EmptyString.

Definition errFileIDRequired : string := "file_id parameter is required".

Definition errBrowserTokens : string :=
  "Image downloads not supported with browser tokens (xoxc/xoxd). Use OAuth tokens (xoxp/xoxb) instead.".

Definition errFileInfo (cause : string) : string := "Failed to get file info: " +:+ cause.

Definition errNotImage (file : slack.File) : string :=
  "File '" +:+ slack.Name file +:+ "' is not an image (type: " +:+ slack.Mimetype file
    +:+ "). Only image files (PNG, JPEG, GIF, WebP) can be retrieved.".

Definition errNoDownloadURL (file : slack.File) : string :=
  "File '" +:+ slack.Name file +:+ "' does not have a download URL available".

Definition errHostNotAllowed : string := "File URL is not from an allowed Slack domain".

Definition errFileTooLarge (file : slack.File) : string :=
  "File '" +:+ slack.Name file +:+ "' is too large (" +:+ pretty (slack.Size file)
    +:+ " bytes). Maximum allowed size is " +:+ pretty MaxImageSize +:+ " bytes (5MB).".

Definition errDownloadFailed (cause : string) : string :=
  "Failed to download image: " +:+ cause.

Definition imageSummary (file : slack.File) (imageData : list byte) (mimeType : string)
    : string :=
  "File: " +:+ slack.Name file +:+ newline +:+ "Size: " +:+ pretty (len imageData)
    +:+ " bytes" +:+ newline +:+ "Type: " +:+ mimeType.

(** [GetImageHandler].  [fileID] is [request.GetString("file_id", "")];
    the error the Go function returns next to the result is always nil. *)
Definition GetImageHandler `{ApiProvider P} `{SlackFileDownloader P} `{Parser}
    `{ImageCodec} (apiProvider : P) (fileID : string) : P * mcp.CallToolResult :=
  if String.eqb fileID "" then (apiProvider, mcp.NewToolResultError errFileIDRequired)
  else if negb (CanDownloadFiles apiProvider)
  then (apiProvider, mcp.NewToolResultError errBrowserTokens)
  else
    let '(apiProvider, r) := GetFileInfoContext apiProvider fileID in
    match r with
    | Fail err => (apiProvider, mcp.NewToolResultError (errFileInfo err))
    | Ok file =>
        if negb (isImageMimeType (slack.Mimetype file))
        then (apiProvider, mcp.NewToolResultError (errNotImage file))
        else
          let downloadURL := slack.URLPrivate file in
          let downloadURL :=
            if String.eqb downloadURL "" then slack.URLPrivateDownload file
            else downloadURL in
          if String.eqb downloadURL ""
          then (apiProvider, mcp.NewToolResultError (errNoDownloadURL file))
          else if negb (isAllowedImageHost downloadURL)
          then (apiProvider, mcp.NewToolResultError errHostNotAllowed)
          else if MaxImageSize <? slack.Size file
          then (apiProvider, mcp.NewToolResultError (errFileTooLarge file))
          else
            let '(apiProvider, r) := DownloadImage apiProvider downloadURL in
            match r with
            | Fail err => (apiProvider, mcp.NewToolResultError (errDownloadFailed err))
            | Ok imageData =>
                let mimeType := slack.Mimetype file in
                let compResult :=
                  CompressImageIfNeeded imageData mimeType MaxInlineImageBudget in
                let imageData := Data compResult in
                let mimeType := ResultMimeType compResult in
                let textContent :=
                  mcp.NewTextContent (imageSummary file imageData mimeType) in
                let imageContent :=
                  mcp.NewImageContent (base64.EncodeToString imageData) mimeType in
                (apiProvider, mcp.mkCallToolResult [textContent; imageContent] false)
            end
    end.

(** The provider of a client that records the URLs it is asked for: the
    metadata calls pass through. *)
Global Instance recording_ApiProvider `{ApiProvider P} : ApiProvider (P * list string) :=
  {| CanDownloadFiles pl := CanDownloadFiles pl.1;
     GetFileInfoContext pl fileID :=
       let '(p', r) := GetFileInfoContext pl.1 fileID in ((p', pl.2), r) |}.

(** ** The team context *)

(** More of Go's [strings] package, for one-byte separators and
    prefixes. *)
Module GoStringsMore.

(** [strings.Split(s, sep)]: the pieces between the separators, one more
    than there are separators. *)
Fixpoint Split (s : string) (sep : ascii) : list string :=
  match s with
  | EmptyString => [EmptyString]
  | String c s' =>
      if Ascii.eqb c sep then EmptyString :: Split s' sep
      else match Split s' sep with
           | piece :: pieces => String c piece :: pieces
           | [] => [String c EmptyString]
           end
  end.

(** [strings.Join]. *)
Fixpoint Join (elems : list string) (sep : string) : string :=
  match elems with
  | [] => EmptyString
  | [elem] => elem
  | elem :: elems' => elem +:+ sep +:+ Join elems' sep
  end.

(** [strings.TrimPrefix] for a one-byte prefix. *)
Definition TrimPrefix (s : string) (prefix : ascii) : string :=
  match s with
  | String c s' => if Ascii.eqb c prefix then s' else s
  | EmptyString => s
  end.

End GoStringsMore.

(** The caches of the package [provider], with the fields the handler
    reads.  [Channels] and [Users] are [None] for a nil map, which the
    handler tells from an empty one; a lookup in a nil map finds nothing.
    For the inverse maps nil and empty behave alike, so they are maps. *)
Module provider.

Record Channel := mkChannel {
  ID : string;
  Name : string;
  Purpose : string
}.

Record ChannelsCache := mkChannelsCache {
  Channels : option (gmap string Channel);
  ChannelsInv : gmap string string
}.

Record UsersCache := mkUsersCache {
  Users : option (gmap string slack.User);
  UsersInv : gmap string string
}.

(** [channelsMap.Channels[id]] *)
Definition channel (channelsMap : ChannelsCache) (id : string) : option Channel :=
  Channels channelsMap ≫= λ channels, channels !! id.

(** [usersMap.Users[id]] *)
Definition user (usersMap : UsersCache) (id : string) : option slack.User :=
  Users usersMap ≫= λ users, users !! id.

End provider.

(** [resolveChannelInput]: [(id, displayName, found)].  The warnings to
    the logger are left out. *)
Definition resolveChannelInput (input : string) (channelsMap : provider.ChannelsCache)
    : string * string * bool :=
  let input := GoStrings.TrimSpace input in
  if String.eqb input "" then ("", "", false)
  else if GoStrings.HasPrefix input "#" || GoStrings.HasPrefix input "@" then
    match provider.ChannelsInv channelsMap !! input with
    | Some id =>
        match provider.channel channelsMap id with
        | Some ch => (id, provider.Name ch, true)
        | None => (input, input, false)
        end
    | None => (input, input, false)
    end
  else if GoStrings.HasPrefix input "C" || GoStrings.HasPrefix input "G"
          || GoStrings.HasPrefix input "D" then
    match provider.channel channelsMap input with
    | Some ch => (input, provider.Name ch, true)
    | None => (input, input, false)
    end
  else (input, input, false).

(** [resolveUserInput]: [(id, displayName, found)]. *)
Definition resolveUserInput (input : string) (usersMap : provider.UsersCache)
    : string * string * bool :=
  let input := GoStrings.TrimSpace input in
  if String.eqb input "" then ("", "", false)
  else if GoStrings.HasPrefix input "@" then
    let username := GoStringsMore.TrimPrefix input "@" in
    match provider.UsersInv usersMap !! username with
    | Some uid =>
        match provider.user usersMap uid with
        | Some u => (uid, slack.RealName u, true)
        | None => (input, input, false)
        end
    | None => (input, input, false)
    end
  else if GoStrings.HasPrefix input "U" || GoStrings.HasPrefix input "W" then
    match provider.user usersMap input with
    | Some u => (input, slack.RealName u, true)
    | None => (input, input, false)
    end
  else (input, input, false).

(** [parseAliasEntry]: [(alias, value)]. *)
Definition parseAliasEntry (entry : string) : string * string :=
  let entry := GoStrings.TrimSpace entry in
  match GoStrings.IndexByte entry "=" with
  | Some idx =>
      (GoStrings.TrimSpace (GoStrings.take idx entry),
       GoStrings.TrimSpace (GoStrings.drop (S idx) entry))
  | None => ("", entry)
  end.

Definition warnNotFound (entry : string) : string :=
  "- " +:+ entry +:+ " (WARNING: not found in workspace)".

(** One iteration of the loop over the channel entries of
    [GetTeamContextHandler]: the lines appended for one entry. *)
Definition channelEntryLines (channelsMap : provider.ChannelsCache) (entry : string)
    : list string :=
  let entry := GoStrings.TrimSpace entry in
  if String.eqb entry "" then []
  else
    let '(alias, channelRef) := parseAliasEntry entry in
    let '(id, name, found) := resolveChannelInput channelRef channelsMap in
    if found then
      match provider.channel channelsMap id with
      | Some ch =>
          let purpose := provider.Purpose ch in
          let purpose := if String.eqb purpose "" then "(no purpose set)" else purpose in
          if negb (String.eqb alias "")
          then ["- **" +:+ alias +:+ "** → #" +:+ name +:+ " (channel_id: " +:+ id
                +:+ "): " +:+ purpose]
          else ["- #" +:+ name +:+ " (channel_id: " +:+ id +:+ "): " +:+ purpose]
      | None => []
      end
    else [warnNotFound entry].

(** One iteration of the loop over the user entries. *)
Definition userEntryLines (usersMap : provider.UsersCache)
    (channelsMap : option provider.ChannelsCache) (entry : string) : list string :=
  let entry := GoStrings.TrimSpace entry in
  if String.eqb entry "" then []
  else
    let '(alias, userRef) := parseAliasEntry entry in
    let '(id, displayName, found) := resolveUserInput userRef usersMap in
    if found then
      match provider.user usersMap id with
      | Some u =>
          let dmKey := "@" +:+ slack.UserName u in
          let dmChannelID :=
            match channelsMap with
            | Some channelsMap =>
                match provider.ChannelsInv channelsMap !! dmKey with
                | Some dmID => dmID
                | None => ""
                end
            | None => ""
            end in
          if negb (String.eqb alias "") then
            if negb (String.eqb dmChannelID "")
            then ["- **" +:+ alias +:+ "** → " +:+ displayName +:+ " (@"
                  +:+ slack.UserName u +:+ ", user_id: " +:+ id +:+ ", dm_channel: "
                  +:+ dmChannelID +:+ ")"]
            else ["- **" +:+ alias +:+ "** → " +:+ displayName +:+ " (@"
                  +:+ slack.UserName u +:+ ", user_id: " +:+ id +:+ ")"]
          else
            if negb (String.eqb dmChannelID "")
            then ["- " +:+ displayName +:+ " (@" +:+ slack.UserName u +:+ ", user_id: "
                  +:+ id +:+ ", dm_channel: " +:+ dmChannelID +:+ ")"]
            else ["- " +:+ displayName +:+ " (@" +:+ slack.UserName u +:+ ", user_id: "
                  +:+ id +:+ ")"]
      | None => []
      end
    else [warnNotFound entry].

Definition errChannelCache : string := "Channel cache not initialized".
Definition errUserCache : string := "User cache not initialized".

Definition usageGuidelines : list string :=
  ["## Usage Guidelines";
   "- **IMPORTANT**: When the user mentions a person or channel by nickname/alias (shown in bold above), use the corresponding @username or channel_id in tool calls";
   "- For DMs with team members, use their dm_channel ID as channel_id in conversations_history";
   "- For user filters in search, use @username format (e.g., filter_users_from: '@i.bastos')";
   "- Bot messages are filtered by default. Use exclude_bots=false to include them."].

Definition nothingConfigured : string :=
  "No priority channels or team members configured. Set SLACK_MCP_PRIORITY_CHANNELS and SLACK_MCP_PRIORITY_USERS environment variables to provide context.".

(** The slice [contextParts] that [GetTeamContextHandler] builds once the
    cache is ready, or the message of the error it returns on the way.
    The three strings are the environment variables
    [SLACK_MCP_PRIORITY_CHANNELS], [SLACK_MCP_PRIORITY_USERS] and
    [SLACK_MCP_TEAM_NAME]; [channelsMap] and [usersMap] are what
    [ProvideChannelsMaps] and [ProvideUsersMap] return, [None] for nil
    (the first is asked twice, and taken to answer alike). *)
Definition teamContextParts (priorityChannels priorityUsers teamName : string)
    (channelsMap : option provider.ChannelsCache)
    (usersMap : option provider.UsersCache) : outcome (list string) :=
  let teamName := if String.eqb teamName "" then "your team" else teamName in
  let contextParts := ["# Slack Workspace Context for " +:+ teamName +:+ newline] in
  let withChannels :=
    if negb (String.eqb priorityChannels "") then
      let contextParts :=
        contextParts ++
          ["## Priority Channels";
           "These are the main channels to focus on. Use the channel_id shown when calling Slack tools:"
             +:+ newline] in
      let channelEntries := GoStringsMore.Split priorityChannels "," in
      match channelsMap with
      | Some cache =>
          match provider.Channels cache with
          | Some _ =>
              Ok (fold_left (λ parts entry, parts ++ channelEntryLines cache entry)
                    channelEntries contextParts ++ [""])
          | None => Fail errChannelCache
          end
      | None => Fail errChannelCache
      end
    else Ok contextParts in
  match withChannels with
  | Fail err => Fail err
  | Ok contextParts =>
      let withUsers :=
        if negb (String.eqb priorityUsers "") then
          let contextParts :=
            contextParts ++
              ["## Team Members";
               "These are the key team members. Use the @username or DM channel_id when calling Slack tools:"
                 +:+ newline] in
          let userEntries := GoStringsMore.Split priorityUsers "," in
          match usersMap with
          | Some cache =>
              match provider.Users cache with
              | Some _ =>
                  Ok (fold_left
                        (λ parts entry, parts ++ userEntryLines cache channelsMap entry)
                        userEntries contextParts ++ [""])
              | None => Fail errUserCache
              end
          | None => Fail errUserCache
          end
        else Ok contextParts in
      match withUsers with
      | Fail err => Fail err
      | Ok contextParts =>
          if negb (String.eqb priorityChannels "") || negb (String.eqb priorityUsers "")
          then Ok (contextParts ++ usageGuidelines)
          else Ok (contextParts ++ [nothingConfigured])
      end
  end.

(** [GetTeamContextHandler]; [ready] is what [IsReady] returns. *)
Definition GetTeamContextHandler (ready : outcome bool)
    (priorityChannels priorityUsers teamName : string)
    (channelsMap : option provider.ChannelsCache)
    (usersMap : option provider.UsersCache) : mcp.CallToolResult :=
  match ready with
  | Fail err => mcp.NewToolResultError ("Failed to check cache readiness: " +:+ err)
  | Ok false =>
      mcp.NewToolResultError
        "Slack workspace data is still loading. Please retry in a few seconds."
  | Ok true =>
      match teamContextParts priorityChannels priorityUsers teamName channelsMap usersMap
      with
      | Fail err => mcp.NewToolResultError err
      | Ok contextParts =>
          mcp.NewToolResultText (GoStringsMore.Join contextParts newline)
      end
  end.

(** ** Notions the further properties are stated with *)

(** The URL [ExtractImagesFromMessage] downloads a file from: the private
    URL, or the private download URL when the first is empty. *)
Definition downloadURLOf (file : slack.File) : string :=
  if String.eqb (slack.URLPrivate file) "" then slack.URLPrivateDownload file
  else slack.URLPrivate file.

(** The MIME types of the table [supportedImageMimeTypes]. *)
Definition supportedTypeNames : list string :=
  ["image/png"; "image/jpeg"; "image/gif"; "image/webp"].

(** What the loop of [DownloadImagesWithBudget] keeps true of the
    references it has gone through: each of them is included, skipped or
    warned about at most once, and the keys of both maps are keys of
    references gone through. *)
Definition accountInv {C} (processed : list ImageInfo) (st : budgetState C) : Prop :=
  (size (imageData st) + length (skippedImages st) + length (warnings st)
   ≤ length processed)%nat
  ∧ skippedImages st `sublist_of` processed
  ∧ (∀ k d, imageData st !! k = Some d →
       ∃ img, img ∈ processed ∧ imageKey img = k ∧ Size img <= MaxImageSize)
  ∧ (∀ k v, mimeTypeOverrides st !! k = Some v →
       v = "image/jpeg"
       ∧ ∃ img, img ∈ processed ∧ imageKey img = k ∧ MimeType img = "image/png").

(** The type [ImagesToMCPContent] announces for a reference. *)
Definition announcedType (mimeTypeOverrides : gmap string string) (img : ImageInfo)
    : string :=
  match mimeTypeOverrides !! imageKey img with
  | Some override => override
  | None => MimeType img
  end.

(** Bytes and a type that belong together for a reference: downloaded
    bytes that passed the checks of [DownloadImage], under the declared
    type; or the JPEG encoding of such bytes, declared [image/png], under
    [image/jpeg]. *)
Definition emittedAs `{ImageCodec} (img : ImageInfo) (data : list byte)
    (mimeType : string) : Prop :=
  (mimeType = MimeType img ∧ isValidImageData data = true
   ∧ len data <= MaxImageSize)
  ∨ (mimeType = "image/jpeg" ∧ MimeType img = "image/png"
     ∧ ∃ raw quality,
         isValidImageData raw = true ∧ quality ∈ qualities
         ∧ compressPNGToJPEG raw quality = Some data).

(** Bytes fit to be sent as an image: bytes that passed the checks of
    [DownloadImage], or a JPEG encoding of such bytes. *)
Definition checkedBytes `{ImageCodec} (data : list byte) : Prop :=
  (isValidImageData data = true ∧ len data <= MaxImageSize)
  ∨ ∃ raw quality,
      isValidImageData raw = true ∧ len raw <= MaxImageSize
      ∧ quality ∈ qualities ∧ compressPNGToJPEG raw quality = Some data.

(** When no two references share a key, every reference is accounted for
    exactly once and the bytes held for a reference go with the type
    announced for it. *)
Definition exactInv `{ImageCodec} {C} (processed : list ImageInfo)
    (st : budgetState C) : Prop :=
  (size (imageData st) + length (skippedImages st) + length (warnings st)
   = length processed)%nat
  ∧ ∀ img data, img ∈ processed → imageData st !! imageKey img = Some data →
      emittedAs img data (announcedType (mimeTypeOverrides st) img).

(** The references the downloader may be asked for. *)
Definition fetchable (images : list ImageInfo) : list ImageInfo :=
  filter (λ img, Size img <= MaxImageSize) images.

(** The number of base64 characters in a list of content items. *)
Definition payloadLength (content : list mcp.Content) : Z :=
  fold_right (λ item total,
                match item with
                | mcp.ImageContent data _ => Z.of_nat (String.length data) + total
                | mcp.TextContent _ => total
                end) 0 content.

(** The bytes of a list of references, given the bytes of each. *)
Definition totalBytes (bytesOf : ImageInfo → list byte) (images : list ImageInfo) : Z :=
  fold_right (λ img total, len (bytesOf img) + total) 0 images.

(** The entries of a comma-separated list that are not blank. *)
Definition entriesOf (entries : string) : list string :=
  filter (λ entry, GoStrings.TrimSpace entry ≠ "") (GoStringsMore.Split entries ",").

(** ** Notions for the download pool *)

(** The goroutines the wait group still counts. *)
Definition notFinished (pc : taskPC) : bool :=
  match pc with
  | Finished => false
  | _ => true
  end.

(** The goroutines that have sent their result. *)
Definition hasSent (pc : taskPC) : bool :=
  match pc with
  | Sent | Released | Finished => true
  | _ => false
  end.

(** How the pool is laid out: the goroutines started and the references
    still to start are the first ten references; the wait group counts the
    goroutines that are not done; [resultChan] is closed only when nothing
    is left to start and the wait group is at zero; a download is only
    entered for a declared size within the limit. *)
Definition poolStructInv {C} (images : list ImageInfo) (s : poolState C) : Prop :=
  (tasks s).*1 ++ pending s = limitImages images
  ∧ wg s = countPC notFinished (tasks s)
  ∧ (resultClosed s = true → pending s = [] ∧ wg s = O)
  ∧ (∀ i img, tasks s !! i = Some (img, Downloading) → Size img <= MaxImageSize).

(** Where the results are: each result sent is in the channel, among the
    warnings, or one of the [collected] successes, of which the map holds
    the last one for each key; the bytes of a success passed the checks of
    [DownloadImage] and come under the key of a goroutine's reference. *)
Definition poolResultInv {C} (s : poolState C) : Prop :=
  (∃ collected : nat,
     (length (poolWarnings s) + collected + length (resultChan s)
      = countPC hasSent (tasks s))%nat
     ∧ (size (poolImageData s) ≤ collected)%nat)
  ∧ (∀ k data,
       poolImageData s !! k = Some data ∨ mkResult k data None ∈ resultChan s →
       isValidImageData data = true ∧ len data <= MaxImageSize
       ∧ ∃ img, img ∈ (tasks s).*1 ∧ imageKey img = k ∧ Size img <= MaxImageSize).

(** The invocation is over: every goroutine is done, the channel is closed
    and drained, so the collector's loop has ended. *)
Definition poolFinal {C} (s : poolState C) : Prop :=
  pending s = []
  ∧ (∀ i img pc, tasks s !! i = Some (img, pc) → pc = Finished)
  ∧ resultChan s = []
  ∧ resultClosed s = true.

(** The steps a goroutine at a program point has yet to take, a receive of
    its result by the collector included. *)
Definition stepsLeft (pc : taskPC) : nat :=
  match pc with
  | Spawned => 6
  | Acquired => 5
  | Downloading => 4
  | Sent => 2
  | Released => 1
  | Finished => 0
  end.

Fixpoint totalStepsLeft (ts : list (ImageInfo * taskPC)) : nat :=
  match ts with
  | [] => O
  | t :: ts' => (stepsLeft t.2 + totalStepsLeft ts')%nat
  end.

(** A bound on the steps the pool can still take. *)
Definition poolMeasure {C} (s : poolState C) : nat :=
  (7 * length (pending s) + totalStepsLeft (tasks s) + length (resultChan s)
   + (if resultClosed s then 0 else 1))%nat.

(** A run of the pool: the states it goes through after [s]. *)
Fixpoint poolTrace `{SlackFileDownloader C} (s : poolState C)
    (trace : list (poolState C)) : Prop :=
  match trace with
  | [] => True
  | s' :: trace' => poolStep s s' ∧ poolTrace s' trace'
  end.

(** The keys of the successes in a list of results. *)
Definition okKeys (results : list imageDownloadResult) : list string :=
  flat_map (λ result, match ResultError result with
                      | None => [ResultFileID result]
                      | Some _ => []
                      end) results.

(** When no two references share a key, each result sent is in the
    channel, among the warnings or in the map, and the keys in the channel
    and in the map are those of goroutines that have sent, each once. *)
Definition poolExactInv {C} (s : poolState C) : Prop :=
  (length (poolWarnings s) + size (poolImageData s) + length (resultChan s)
   = countPC hasSent (tasks s))%nat
  ∧ NoDup (okKeys (resultChan s))
  ∧ (∀ k, k ∈ okKeys (resultChan s) → poolImageData s !! k = None)
  ∧ (∀ k, is_Some (poolImageData s !! k) ∨ k ∈ okKeys (resultChan s) →
       ∃ i img pc, tasks s !! i = Some (img, pc) ∧ hasSent pc = true
                   ∧ imageKey img = k).

(** The states a schedule takes the pool through. *)
Fixpoint poolStates `{SlackFileDownloader C} (s : poolState C)
    (schedule : list poolAction) : list (poolState C) :=
  match schedule with
  | [] => []
  | a :: schedule' =>
      match poolExec s a with
      | Some s' => s' :: poolStates s' schedule'
      | None => []
      end
  end.

(** ** Data of the further examples *)

(** A schedule that runs the pool on four references to its end: three
    goroutines download at a time, the fourth after the first release. *)
Definition fullSchedule : list poolAction :=
  [DoSpawn; DoSpawn; DoSpawn; DoSpawn;
   DoAcquire 0; DoAcquire 1; DoAcquire 2;
   DoCheckSize 0; DoCheckSize 1; DoCheckSize 2;
   DoComplete 0; DoComplete 1; DoComplete 2;
   DoRelease 0; DoAcquire 3; DoCheckSize 3; DoComplete 3;
   DoRelease 1; DoRelease 2; DoRelease 3;
   DoDone 0; DoDone 1; DoDone 2; DoDone 3;
   DoClose; DoCollect; DoCollect; DoCollect; DoCollect].

(** A provider for the examples: a table of files by ID over the mock
    downloader, with tokens that allow downloads. *)
Record mockProvider := mkMockProvider {
  fileInfo : gmap string slack.File;
  downloader : mockSlackFileDownloader
}.

Global Instance mock_ApiProvider : ApiProvider mockProvider :=
  {| CanDownloadFiles _ := true;
     GetFileInfoContext p fileID :=
       match fileInfo p !! fileID with
       | Some file => (p, Ok file)
       | None => (p, Fail "file_not_found")
       end |}.

Global Instance mockProvider_GetFileContext : SlackFileDownloader mockProvider :=
  λ p downloadURL,
    let '(d, r) := GetFileContext (downloader p) downloadURL in
    (mkMockProvider (fileInfo p) d, r).

(** The file [F001] of the examples, as Slack describes it. *)
Definition fileF001 : slack.File :=
  slack.mkFile "F001" "F001.png" "image/png" 1000 "https://files.slack.com/F001" "".

Definition providerF001 : mockProvider :=
  mkMockProvider (<["F001" := fileF001]> ∅) threeFiles.

(** A reference to the file [F001] that declares the type [image/png]. *)
Definition declaredPNG : ImageInfo :=
  mkImageInfo "F001" "F001.png" "image/png" 1000 "https://files.slack.com/F001" "".

(** A small workspace for the examples: the channel [general] and the user
    [jane], with her DM channel. *)
Definition exampleChannels : provider.ChannelsCache :=
  provider.mkChannelsCache
    (Some (<["C001" := provider.mkChannel "C001" "general" "Company news"]>
             (<["D001" := provider.mkChannel "D001" "@jane" ""]> ∅)))
    (<["#general" := "C001"]> (<["@jane" := "D001"]> ∅)).

Definition exampleUsers : provider.UsersCache :=
  provider.mkUsersCache
    (Some (<["U001" := slack.mkUser "U001" "jane" "Jane Doe"]> ∅))
    (<["jane" := "U001"]> ∅).

(** * Properties *)

(** ** Strings *)

Lemma string_app_cons (c : ascii) (s t : string) :
  String c s +:+ t = String c (s +:+ t).
Proof. reflexivity. Qed.

Lemma string_length_app (s t : string) :
  String.length (s +:+ t) = (String.length s + String.length t)%nat.
Proof.
  induction s as [|c s IH]; [done|].
  rewrite string_app_cons. simpl. by rewrite IH.
Qed.

Lemma string_take_drop (n : nat) (s : string) :
  GoStrings.take n s +:+ GoStrings.drop n s = s.
Proof.
  revert s. induction n as [|n IH]; intros [|c s]; simpl; try done.
  by rewrite string_app_cons, IH.
Qed.

Lemma string_drop_app (p s : string) :
  GoStrings.drop (String.length p) (p +:+ s) = s.
Proof.
  induction p as [|c p IH]; [by destruct s|].
  by rewrite string_app_cons.
Qed.

(** [HasSuffix] decides "ends with". *)
Lemma HasSuffix_spec (s suffix : string) :
  GoStrings.HasSuffix s suffix = true ↔ ∃ p, s = p +:+ suffix.
Proof.
  unfold GoStrings.HasSuffix. rewrite andb_true_iff, Nat.leb_le, String.eqb_eq.
  split.
  - intros [_ Hd].
    exists (GoStrings.take (String.length s - String.length suffix) s).
    rewrite <- (string_take_drop (String.length s - String.length suffix) s) at 1.
    by rewrite Hd.
  - intros [p ->]. rewrite string_length_app. split; [lia|].
    replace (String.length p + String.length suffix - String.length suffix)%nat
      with (String.length p) by lia.
    apply string_drop_app.
Qed.

(** ** C1: the host allow-list *)

Lemma allowedImageHosts_lookup (k : string) (v : bool) :
  allowedImageHosts !! k = Some v ↔ v = true ∧ k ∈ allowedHostNames.
Proof.
  unfold allowedImageHosts, allowedHostNames.
  rewrite !lookup_insert, lookup_empty, !elem_of_cons, elem_of_nil.
  repeat destruct (decide _); subst; intuition congruence.
Qed.

Lemma allowedImageHosts_index (host : string) :
  map_index allowedImageHosts host = true ↔ host ∈ allowedHostNames.
Proof.
  unfold map_index. destruct (allowedImageHosts !! host) as [v|] eqn:E; simpl.
  - apply allowedImageHosts_lookup in E as [-> ?]. naive_solver.
  - split; [done|]. intros Hin.
    assert (allowedImageHosts !! host = Some true) as E'
      by (by apply allowedImageHosts_lookup).
    congruence.
Qed.

(** A loop over a map that returns [true] at the first hit finds a hit if
    there is one, whatever the order of the iteration. *)
Lemma map_range_exists {V} (m : gmap string V) (f : string * V → bool) :
  existsb f (map_to_list m) = true ↔ ∃ k v, m !! k = Some v ∧ f (k, v) = true.
Proof.
  rewrite existsb_exists. split.
  - intros [[k v] [Hin Hf]]. exists k, v. split; [|done].
    by apply elem_of_map_to_list, list_elem_of_In.
  - intros (k & v & Hl & Hf). exists (k, v). split; [|done].
    by apply list_elem_of_In, elem_of_map_to_list.
Qed.

Lemma allowedImageHosts_range (host : string) :
  existsb (λ kv : string * bool, GoStrings.HasSuffix host ("." +:+ kv.1))
          (map_to_list allowedImageHosts) = true
  ↔ ∃ entry sub, entry ∈ allowedHostNames ∧ host = sub +:+ "." +:+ entry.
Proof.
  rewrite map_range_exists. split.
  - intros (k & v & Hl & Hs). apply allowedImageHosts_lookup in Hl as [_ Hk].
    apply HasSuffix_spec in Hs as [sub ->]. by exists k, sub.
  - intros (entry & sub & Hk & ->). exists entry, true. split.
    + by apply allowedImageHosts_lookup.
    + apply HasSuffix_spec. by exists sub.
Qed.

Lemma isAllowedImageHost_parsed `{Parser} (rawURL : string) (u : NetURL.URL) :
  url_Parse rawURL = Some u →
  (isAllowedImageHost rawURL = true ↔ hostMatches (Hostname u)).
Proof.
  intros Hp. unfold isAllowedImageHost, hostMatches. rewrite Hp.
  destruct (map_index allowedImageHosts (Hostname u)) eqn:E.
  - apply allowedImageHosts_index in E. naive_solver.
  - rewrite allowedImageHosts_range. split.
    + intros (entry & sub & ? & ?). exists entry. eauto.
    + intros (entry & Hk & [Heq | [sub Hs]]).
      * apply allowedImageHosts_index in Hk. congruence.
      * by exists entry, sub.
Qed.

Lemma hostMatches_not (host : string) :
  map_index allowedImageHosts host = false →
  existsb (λ kv : string * bool, GoStrings.HasSuffix host ("." +:+ kv.1))
          (map_to_list allowedImageHosts) = false →
  ¬ hostMatches host.
Proof.
  intros Hi Hr (entry & Hk & [-> | [sub ->]]).
  - apply allowedImageHosts_index in Hk. congruence.
  - assert (existsb (λ kv : string * bool,
              GoStrings.HasSuffix (sub +:+ "." +:+ entry) ("." +:+ kv.1))
              (map_to_list allowedImageHosts) = true) as E.
    { apply allowedImageHosts_range. exists entry, sub. split; [exact Hk|reflexivity]. }
    congruence.
Qed.

(** C1.  For every parser and every URL string, [isAllowedImageHost]
    accepts the string if and only if it parses and its host name is an
    entry of the allowed set or ends with a dot followed by an entry.  A URL
    whose host is [files.slack.com] or [cdn.slack-edge.com] is accepted; a
    URL whose host is [files.slack.com.evil.com], or whose host is
    [evil.com] with [files.slack.com] in its path, is rejected.  The four
    URLs are those of the test suite, parsed by the model of [net/url]. *)
Theorem isAllowedImageHost_iff_host_matches :
  (∀ (P : Parser) (rawURL : string),
     isAllowedImageHost rawURL = true
     ↔ ∃ u, url_Parse rawURL = Some u ∧ hostMatches (Hostname u))
  ∧ (hostMatches "files.slack.com" ∧ hostMatches "cdn.slack-edge.com"
     ∧ ¬ hostMatches "files.slack.com.evil.com" ∧ ¬ hostMatches "evil.com")
  ∧ @isAllowedImageHost NetURL.go "https://evil.com/files.slack.com/fake" = false
  ∧ @isAllowedImageHost NetURL.go "https://files.slack.com.evil.com/image.png" = false
  ∧ @isAllowedImageHost NetURL.go "https://files.slack.com/files/123/image.png" = true
  ∧ @isAllowedImageHost NetURL.go "https://cdn.slack-edge.com/images/photo.webp" = true.
Proof.
  split; [|split; [|by vm_compute]].
  - intros P rawURL. destruct (url_Parse rawURL) as [u|] eqn:Hp.
    + rewrite (isAllowedImageHost_parsed _ _ Hp). split.
      * intros Hm. by exists u.
      * intros (u' & [= <-] & Hm). exact Hm.
    + unfold isAllowedImageHost. rewrite Hp. split; [done|].
      by intros (u' & [=] & _).
  - repeat split.
    + exists "files.slack.com". split; [set_solver|by left].
    + exists "slack-edge.com". split; [set_solver|]. right. by exists "cdn".
    + by apply hostMatches_not; vm_compute.
    + by apply hostMatches_not; vm_compute.
Qed.

(** ** The budgeted assembler *)

Section Assembler.
Context `{SlackFileDownloader C} `{ImageCodec}.
Implicit Types (st : budgetState C) (img : ImageInfo) (budget : Z).

Lemma DownloadImagesWithBudget_loop (c : C) (images : list ImageInfo) budget :
  DownloadImagesWithBudget c images budget
  = budgetLoop budget (budgetInit c) (limitImages images).
Proof.
  unfold DownloadImagesWithBudget. by destruct (limitImages images).
Qed.

Lemma budgetLoop_app budget st (pre post : list ImageInfo) :
  budgetLoop budget st (pre ++ post)
  = budgetLoop budget (budgetLoop budget st pre) post.
Proof. apply fold_left_app. Qed.

(** With the flag set, an iteration only appends to the skipped list. *)
Lemma budgetStep_exceeded budget st img :
  budgetExceeded st = true →
  budgetStep budget st img
  = mkBudgetState (slackClient st) (imageData st) (mimeTypeOverrides st)
      (skippedImages st ++ [img]) (warnings st) (cumulativeSize st) true.
Proof. intros Hx. unfold budgetStep. by rewrite Hx. Qed.

Lemma budgetLoop_exceeded budget st (rest : list ImageInfo) :
  budgetExceeded st = true →
  budgetLoop budget st rest
  = mkBudgetState (slackClient st) (imageData st) (mimeTypeOverrides st)
      (skippedImages st ++ rest) (warnings st) (cumulativeSize st) true.
Proof.
  revert st. induction rest as [|img rest IH]; intros st Hx.
  - destruct st; simpl in *. by rewrite app_nil_r, Hx.
  - unfold budgetLoop in *. simpl.
    rewrite (budgetStep_exceeded _ _ _ Hx), IH by done. simpl.
    by rewrite <- app_assoc.
Qed.

(** An image over the per-image limit costs a warning and nothing else. *)
Lemma budgetStep_too_large budget st img :
  budgetExceeded st = false → MaxImageSize < Size img →
  budgetStep budget st img
  = mkBudgetState (slackClient st) (imageData st) (mimeTypeOverrides st)
      (skippedImages st) (warnings st ++ [warnTooLarge img])
      (cumulativeSize st) false.
Proof.
  intros Hx Hs. unfold budgetStep. rewrite Hx.
  by destruct (Z.ltb_spec MaxImageSize (Size img)); [|lia].
Qed.

End Assembler.

Lemma len_nonneg {A} (l : list A) : 0 <= len l.
Proof. unfold len. lia. Qed.

Lemma includedBytes_nonneg (m : gmap string (list byte)) : 0 <= includedBytes m.
Proof.
  unfold includedBytes.
  apply (map_fold_weak_ind (λ total _, 0 <= total)); [done|].
  intros k d _ total _ IH. pose proof (len_nonneg d). lia.
Qed.

Lemma includedBytes_insert_fresh (m : gmap string (list byte)) k d :
  m !! k = None → includedBytes (<[k := d]> m) = len d + includedBytes m.
Proof.
  intros Hk. unfold includedBytes.
  rewrite (map_fold_insert_L (λ _ data acc, len data + acc)); [done| |done].
  intros. lia.
Qed.

Lemma includedBytes_delete (m : gmap string (list byte)) k d :
  m !! k = Some d → includedBytes m = len d + includedBytes (delete k m).
Proof.
  intros Hk. unfold includedBytes.
  rewrite (map_fold_delete_L (λ _ data acc, len data + acc) 0 k d m); [done| |done].
  intros. lia.
Qed.

(** Storing under a key adds at most the length stored: a key stored twice
    keeps the later bytes only. *)
Lemma includedBytes_insert (m : gmap string (list byte)) k d :
  includedBytes (<[k := d]> m) <= includedBytes m + len d.
Proof.
  destruct (m !! k) as [d0|] eqn:Hk.
  - rewrite <- insert_delete_eq.
    rewrite includedBytes_insert_fresh by apply lookup_delete_eq.
    rewrite (includedBytes_delete m k d0 Hk). pose proof (len_nonneg d0). lia.
  - rewrite includedBytes_insert_fresh by done. lia.
Qed.

Section AssemblerInvariant.
Context `{SlackFileDownloader C} `{ImageCodec}.

Lemma budgetInv_init (budget : Z) (c : C) : 0 <= budget → budgetInv budget (budgetInit c).
Proof.
  intros Hb. unfold budgetInv, budgetInit. cbn [cumulativeSize imageData].
  split; [lia|]. unfold includedBytes. rewrite map_fold_empty. lia.
Qed.

Lemma budgetInv_step (budget : Z) (st : budgetState C) (img : ImageInfo) :
  budgetInv budget st → budgetInv budget (budgetStep budget st img).
Proof.
  intros [Hc Hi]. unfold budgetStep.
  destruct (budgetExceeded st); [done|].
  destruct (MaxImageSize <? Size img); [done|].
  destruct (DownloadImage (slackClient st) (URL img)) as [c' [data|e]]; [|done].
  set (r := CompressImageIfNeeded data (MimeType img) (budget - cumulativeSize st)).
  destruct (Z.ltb_spec budget (cumulativeSize st + len (Data r))); [done|].
  unfold budgetInv. simpl.
  pose proof (len_nonneg (Data r)).
  pose proof (includedBytes_insert (imageData st) (imageKey img) (Data r)).
  lia.
Qed.

Lemma budgetInv_loop (budget : Z) (images : list ImageInfo) (st : budgetState C) :
  budgetInv budget st → budgetInv budget (budgetLoop budget st images).
Proof.
  revert st. induction images as [|img images IH]; intros st Hinv; [done|].
  apply IH, budgetInv_step, Hinv.
Qed.

End AssemblerInvariant.

(** ** C2: the exceeded flag is sticky *)

(** C2.  Split the (truncated) reference list of an invocation of
    [DownloadImagesWithBudget] at any point after which the exceeded flag
    is set.  Then after every further reference the flag is still set, the
    reference has been appended to the skipped list, and nothing else has
    changed: neither the downloader (no fetch was attempted, whatever the
    declared size of the reference), nor the included images, the
    warnings or the running total.  The result of the invocation is the
    state at the split with the rest of the list appended to the skipped
    list. *)
Theorem budget_exceeded_is_sticky `{SlackFileDownloader C} `{ImageCodec}
    (c : C) (images pre post : list ImageInfo) (budget : Z) :
  limitImages images = pre ++ post →
  budgetExceeded (budgetLoop budget (budgetInit c) pre) = true →
  let mid := budgetLoop budget (budgetInit c) pre in
  (∀ k : nat,
     budgetLoop budget (budgetInit c) (pre ++ take k post)
     = mkBudgetState (slackClient mid) (imageData mid) (mimeTypeOverrides mid)
         (skippedImages mid ++ take k post) (warnings mid) (cumulativeSize mid)
         true)
  ∧ DownloadImagesWithBudget c images budget
    = mkBudgetState (slackClient mid) (imageData mid) (mimeTypeOverrides mid)
        (skippedImages mid ++ post) (warnings mid) (cumulativeSize mid) true.
Proof.
  intros Hsplit Hx mid. split.
  - intros k. rewrite budgetLoop_app. by apply budgetLoop_exceeded.
  - rewrite DownloadImagesWithBudget_loop, Hsplit, budgetLoop_app.
    by apply budgetLoop_exceeded.
Qed.

Lemma budget_exceeded_is_sticky_witness :
  let pre := [testImage "F001" 1000; testImage "F002" 1000] in
  let post := [testImage "F003" 1000] in
  let mid := @budgetLoop _ recording_GetFileContext stubCodec 1500
               (budgetInit (threeFiles, [])) pre in
  limitImages threeImages = pre ++ post
  ∧ budgetExceeded mid = true
  ∧ @DownloadImagesWithBudget _ recording_GetFileContext stubCodec
      (threeFiles, []) threeImages 1500
    = mkBudgetState (slackClient mid) (imageData mid) (mimeTypeOverrides mid)
        (skippedImages mid ++ post) (warnings mid) (cumulativeSize mid) true.
Proof.
  intros pre post mid.
  assert (budgetExceeded mid = true) as Hx by (vm_compute; reflexivity).
  split; [reflexivity|]. split; [exact Hx|].
  exact (proj2 (@budget_exceeded_is_sticky _ recording_GetFileContext stubCodec
                  (threeFiles, []) threeImages pre post 1500 eq_refl Hx)).
Defined.

(** In that scenario the third image is never asked of the downloader. *)
Example third_image_not_fetched :
  (slackClient
     (@DownloadImagesWithBudget _ recording_GetFileContext stubCodec
        (threeFiles, []) threeImages 1500)).2
  = ["https://files.slack.com/F001"; "https://files.slack.com/F002"].
Proof. by vm_compute. Qed.

(** ** C3: the included bytes stay within the budget *)

(** C3.  For every invocation of [DownloadImagesWithBudget] with a budget
    that is not negative, the byte lengths of the included images sum to
    at most the budget.  This holds without exception: what the compressor
    returns, a last-resort encoding at the lowest quality included, is
    compared with the budget again before it is included. *)
Theorem included_bytes_within_budget `{SlackFileDownloader C} `{ImageCodec}
    (c : C) (images : list ImageInfo) (budget : Z) :
  0 <= budget →
  includedBytes (imageData (DownloadImagesWithBudget c images budget)) <= budget.
Proof.
  intros Hb. rewrite DownloadImagesWithBudget_loop.
  destruct (budgetInv_loop budget (limitImages images) (budgetInit c)
              (budgetInv_init budget c Hb)) as [Hc Hi].
  lia.
Qed.

Lemma included_bytes_within_budget_witness :
  0 <= 1500
  ∧ includedBytes
      (imageData (@DownloadImagesWithBudget _ mock_GetFileContext stubCodec
                    threeFiles threeImages 1500)) <= 1500.
Proof.
  split; [lia|].
  apply (@included_bytes_within_budget _ mock_GetFileContext stubCodec
           threeFiles threeImages 1500).
  lia.
Defined.

(** A last-resort encoding that is over the remaining budget is not
    included: the image is skipped and the flag is set. *)
Lemma last_resort_over_budget_is_skipped `{SlackFileDownloader C} `{ImageCodec}
    (budget : Z) (st : budgetState C) (img : ImageInfo) (c' : C) (data : list byte) :
  budgetExceeded st = false → Size img <= MaxImageSize →
  DownloadImage (slackClient st) (URL img) = (c', Ok data) →
  budget - cumulativeSize st
    < len (Data (CompressImageIfNeeded data (MimeType img)
                   (budget - cumulativeSize st))) →
  let st' := budgetStep budget st img in
  imageData st' = imageData st ∧ cumulativeSize st' = cumulativeSize st
  ∧ skippedImages st' = skippedImages st ++ [img] ∧ budgetExceeded st' = true.
Proof.
  intros Hx Hs Hd Hover. unfold budgetStep. rewrite Hx, Hd.
  destruct (Z.ltb_spec MaxImageSize (Size img)); [lia|].
  set (r := CompressImageIfNeeded _ _ _) in *.
  by destruct (Z.ltb_spec budget (cumulativeSize st + len (Data r))); [|lia].
Qed.

(** ** C4: the quality ladder of the compressor *)

Lemma compress_non_png `{ImageCodec} (data : list byte) (mimeType : string) (budget : Z) :
  mimeType ≠ "image/png" →
  CompressImageIfNeeded data mimeType budget = unchanged data mimeType.
Proof.
  intros Hne. unfold CompressImageIfNeeded.
  by destruct (String.eqb_spec mimeType "image/png").
Qed.

Section Ladder.
Context `{ImageCodec}.
Variables (data : list byte) (budget : Z) (result : CompressImageResult).

Lemma compressLoop_accept (quality : Z) (levels : list Z) (compressed : list byte) :
  compressPNGToJPEG data quality = Some compressed →
  len compressed <= budget ∨ quality = MinJPEGQuality →
  compressLoop data budget result (quality :: levels)
  = {| Data := compressed; ResultMimeType := "image/jpeg"; WasConverted := true;
       OriginalSize := OriginalSize result; FinalSize := len compressed |}.
Proof.
  intros Hc Hok. simpl. rewrite Hc.
  destruct (Z.leb_spec (len compressed) budget); [done|].
  destruct (Z.eqb_spec quality MinJPEGQuality); [done|]. lia.
Qed.

Lemma compressLoop_pass (quality : Z) (levels : list Z) :
  passedOver budget (compressPNGToJPEG data quality) →
  quality ≠ MinJPEGQuality →
  compressLoop data budget result (quality :: levels)
  = compressLoop data budget result levels.
Proof.
  intros [Hn | (compressed & Hc & Hover)] Hq; simpl.
  - by rewrite Hn.
  - rewrite Hc. destruct (Z.leb_spec (len compressed) budget); [lia|].
    by destruct (Z.eqb_spec quality MinJPEGQuality).
Qed.

Lemma compressLoop_fail (quality : Z) (levels : list Z) :
  compressPNGToJPEG data quality = None →
  compressLoop data budget result (quality :: levels)
  = compressLoop data budget result levels.
Proof. intros Hn. simpl. by rewrite Hn. Qed.

End Ladder.

(** C4.  [CompressImageIfNeeded] is a function of the bytes, the declared
    MIME type and the budget.  A declared type other than [image/png]
    leaves the input unchanged, not converted.  For [image/png] the levels
    80, 60, 40 are tried in this order: the first level whose encoding
    succeeds and fits the budget is the result; the encoding at 40 is the
    result whether it fits or not when the two levels before it were
    passed over, so a PNG that decodes and encodes is converted to JPEG
    even when it already fits the budget; and when every level fails, the
    result is the original PNG bytes, not converted. *)
Theorem CompressImageIfNeeded_quality_ladder `{ImageCodec}
    (data : list byte) (budget : Z) :
  let jpeg := compressPNGToJPEG data in
  let png := CompressImageIfNeeded data "image/png" budget in
  qualities = [80; 60; 40]
  ∧ (∀ mimeType, mimeType ≠ "image/png" →
       CompressImageIfNeeded data mimeType budget = unchanged data mimeType)
  ∧ (∀ compressed, jpeg 80 = Some compressed → len compressed <= budget →
       png = converted data compressed)
  ∧ (∀ compressed, passedOver budget (jpeg 80) →
       jpeg 60 = Some compressed → len compressed <= budget →
       png = converted data compressed)
  ∧ (∀ compressed, passedOver budget (jpeg 80) → passedOver budget (jpeg 60) →
       jpeg 40 = Some compressed →
       png = converted data compressed)
  ∧ (∀ compressed, jpeg 40 = Some compressed →
       WasConverted png = true ∧ ResultMimeType png = "image/jpeg")
  ∧ (jpeg 80 = None → jpeg 60 = None → jpeg 40 = None →
       png = unchanged data "image/png").
Proof.
  intros jpeg png. subst png jpeg.
  unfold CompressImageIfNeeded. simpl negb. cbv iota.
  change qualities with [80; 60; 40].
  split; [reflexivity|]. split; [intros; by apply compress_non_png|].
  split; [|split; [|split; [|split]]].
  - intros compressed Hc Hfit. rewrite (compressLoop_accept _ _ _ _ _ _ Hc); auto.
  - intros compressed H80 Hc Hfit.
    rewrite compressLoop_pass by done.
    rewrite (compressLoop_accept _ _ _ _ _ _ Hc); auto.
  - intros compressed H80 H60 Hc.
    rewrite !compressLoop_pass by done.
    rewrite (compressLoop_accept _ _ _ _ _ _ Hc); auto.
  - intros compressed Hc. simpl. rewrite Hc.
    destruct (compressPNGToJPEG data 80) as [c80|];
      [destruct (len c80 <=? budget); [done|]|];
      (destruct (compressPNGToJPEG data 60) as [c60|];
        [destruct (len c60 <=? budget); [done|]|]);
      by rewrite orb_true_r.
  - intros H80 H60 H40. by rewrite !compressLoop_fail.
Qed.

(** With a codec that fails, a PNG comes back as it was. *)
Example compress_falls_back_to_the_original :
  @CompressImageIfNeeded failingCodec (makePNG 1008) "image/png" 700
  = unchanged (makePNG 1008) "image/png".
Proof. by vm_compute. Qed.

(** With the example codec a PNG of 1008 bytes has encodings of 803, 603
    and 403 bytes; under a budget of 700 the encoding at 60 is the result. *)
Lemma CompressImageIfNeeded_quality_ladder_witness :
  let jpeg := @compressPNGToJPEG stubCodec (makePNG 1008) in
  passedOver 700 (jpeg 80)
  ∧ jpeg 60 = Some ([xff; xd8; xff] ++ replicate 600 x00)
  ∧ len ([xff; xd8; xff] ++ replicate 600 x00) <= 700
  ∧ @CompressImageIfNeeded stubCodec (makePNG 1008) "image/png" 700
    = converted (makePNG 1008) ([xff; xd8; xff] ++ replicate 600 x00).
Proof.
  intros jpeg.
  assert (passedOver 700 (jpeg 80)) as H80.
  { right. exists ([xff; xd8; xff] ++ replicate 800 x00).
    split; [by vm_compute|by vm_compute]. }
  assert (jpeg 60 = Some ([xff; xd8; xff] ++ replicate 600 x00)) as H60
    by (by vm_compute).
  assert (len ([xff; xd8; xff] ++ replicate 600 x00) <= 700) as Hfit
    by (by vm_compute).
  split; [exact H80|]. split; [exact H60|]. split; [exact Hfit|].
  exact (proj1 (proj2 (proj2 (proj2
           (@CompressImageIfNeeded_quality_ladder stubCodec (makePNG 1008) 700))))
           _ H80 H60 Hfit).
Defined.

(** ** C5: link-preview attachments *)

Lemma fold_left_app_flat_map {A B} (f : A → list B) (l : list A) (acc : list B) :
  fold_left (λ acc x, acc ++ f x) l acc = acc ++ flat_map f l.
Proof.
  revert acc. induction l as [|x l IH]; intros acc; simpl.
  - by rewrite app_nil_r.
  - by rewrite IH, <- app_assoc.
Qed.

Lemma ExtractImagesFromAttachments_flat_map `{Parser}
    (attachments : list Attachment) (msgTS : string) :
  ExtractImagesFromAttachments attachments msgTS
  = flat_map (extractFromAttachment msgTS) attachments.
Proof. unfold ExtractImagesFromAttachments. by rewrite fold_left_app_flat_map. Qed.

(** A URL that parses is given one of the four supported types. *)
Lemma guessed_type_of_allowed_url_is_supported `{Parser} (rawURL : string) :
  isAllowedImageHost rawURL = true →
  isImageMimeType (guessMimeTypeFromURL rawURL) = true.
Proof.
  unfold isAllowedImageHost, guessMimeTypeFromURL.
  destruct (url_Parse rawURL) as [u|]; [intros _|discriminate].
  repeat match goal with
         | |- context [if ?b then _ else _] => destruct b
         end; by vm_compute.
Qed.

(** C5 as stated fails at the case of the test suite named "attachment with
    blocked ImageURL but allowed ThumbURL": the full-size URL is present
    and its host is refused, and the reference to the thumbnail is
    produced. *)
Lemma blocked_full_size_uses_thumbnail_counterexample :
  let attachment :=
    mkAttachment "https://external.com/image.png"
                 "https://files.slack.com/files/123/thumb.png" in
  nonempty (ImageURL attachment) = true
  ∧ @isAllowedImageHost NetURL.go (ImageURL attachment) = false
  ∧ @ExtractImagesFromAttachments NetURL.go [attachment] "1234567890.123456"
    = [ {| FileID := ""; Name := "thumb.png"; MimeType := "image/png"; Size := 0;
           URL := "https://files.slack.com/files/123/thumb.png";
           MsgTS := "1234567890.123456" |} ].
Proof. by vm_compute. Qed.

(** C5, amended.  In [ExtractImagesFromAttachments] the thumbnail URL is
    the fallback whenever the full-size URL gives no reference, because it
    is absent or because its host is refused: each attachment yields the
    reference to its full-size URL when that URL is present and allowed;
    otherwise the reference to its thumbnail URL when that one is present
    and allowed; otherwise nothing.  The references come in the order of
    the attachments. *)
Theorem thumbnail_is_fallback_for_unusable_full_size `{Parser}
    (attachments : list Attachment) (msgTS : string) :
  ExtractImagesFromAttachments attachments msgTS
  = flat_map (λ attachment,
      if usable (ImageURL attachment)
      then [referenceTo (ImageURL attachment) msgTS]
      else if usable (ThumbURL attachment)
      then [referenceTo (ThumbURL attachment) msgTS]
      else []) attachments.
Proof.
  rewrite ExtractImagesFromAttachments_flat_map.
  induction attachments as [|a l IH]; [done|].
  simpl. rewrite IH. f_equal.
  unfold extractFromAttachment, usable, referenceTo.
  destruct (nonempty (ImageURL a)); simpl.
  - destruct (isAllowedImageHost (ImageURL a)) eqn:Hfull.
    + rewrite (guessed_type_of_allowed_url_is_supported _ Hfull).
      by destruct (nonempty (ThumbURL a) && isAllowedImageHost (ThumbURL a)).
    + destruct (nonempty (ThumbURL a)); [|done]. simpl.
      destruct (isAllowedImageHost (ThumbURL a)) eqn:Hthumb; [|done].
      by rewrite (guessed_type_of_allowed_url_is_supported _ Hthumb).
  - destruct (nonempty (ThumbURL a)); [|done]. simpl.
    destruct (isAllowedImageHost (ThumbURL a)) eqn:Hthumb; [|done].
    by rewrite (guessed_type_of_allowed_url_is_supported _ Hthumb).
Qed.

(** ** C6: magic bytes *)

Lemma prefix_take_iff {A} (p data : list A) :
  p `prefix_of` data ↔ take (length p) data = p.
Proof.
  split.
  - intros [k ->]. by rewrite take_app_length.
  - intros Ht. exists (drop (length p) data).
    rewrite <- Ht at 1. by rewrite take_drop.
Qed.

Lemma byte_is_spec (data : list byte) (i : nat) (b : byte) :
  byte_is data i b = true ↔ data !! i = Some b.
Proof.
  unfold byte_is. destruct (data !! i) as [c|]; [|done]. split.
  - intros Hb. by rewrite (byte_dec_bl _ _ Hb).
  - intros [= ->]. by apply byte_dec_lb.
Qed.

Lemma string_of_bytes_eq (data : list byte) (s : string) :
  String.eqb (string_of_bytes data) s = true ↔ data = bytes_of_string s.
Proof.
  rewrite String.eqb_eq. unfold string_of_bytes, bytes_of_string. split.
  - intros <-. by rewrite String.list_byte_of_string_of_list_byte.
  - intros ->. by rewrite String.string_of_list_byte_of_string.
Qed.

Lemma png_bytes_prefix (data : list byte) :
  byte_is data 0 x89 && byte_is data 1 x50 && byte_is data 2 x4e && byte_is data 3 x47
  = true ↔ pngMagic4 `prefix_of` data.
Proof.
  rewrite !andb_true_iff, !byte_is_spec, prefix_take_iff.
  unfold pngMagic4.
  destruct data as [|b0 [|b1 [|b2 [|b3 rest]]]]; simpl; rewrite ?take_0;
    intuition congruence.
Qed.

Lemma jpeg_bytes_prefix (data : list byte) :
  byte_is data 0 xff && byte_is data 1 xd8 && byte_is data 2 xff = true
  ↔ jpegMagic `prefix_of` data.
Proof.
  rewrite !andb_true_iff, !byte_is_spec, prefix_take_iff.
  unfold jpegMagic.
  destruct data as [|b0 [|b1 [|b2 rest]]]; simpl; rewrite ?take_0;
    intuition congruence.
Qed.

Lemma gif_bytes_prefix (data : list byte) :
  String.eqb (string_of_bytes (slice 0 3 data)) "GIF" = true
  ↔ gifMagic `prefix_of` data.
Proof. by rewrite string_of_bytes_eq, prefix_take_iff. Qed.

Lemma riff_bytes_prefix (data : list byte) :
  String.eqb (string_of_bytes (slice 0 4 data)) "RIFF" = true
  ↔ riffMagic `prefix_of` data.
Proof. by rewrite string_of_bytes_eq, prefix_take_iff. Qed.

Lemma webp_bytes_prefix (data : list byte) :
  String.eqb (string_of_bytes (slice 8 12 data)) "WEBP" = true
  ↔ webpMagic `prefix_of` drop 8 data.
Proof. by rewrite string_of_bytes_eq, prefix_take_iff. Qed.

(** The chain of tests of [isValidImageData] as one disjunction. *)
Lemma isValidImageData_tests (data : list byte) :
  isValidImageData data
  = negb (len data <? 8)
    && ((byte_is data 0 x89 && byte_is data 1 x50 && byte_is data 2 x4e
         && byte_is data 3 x47)
        || (byte_is data 0 xff && byte_is data 1 xd8 && byte_is data 2 xff)
        || ((6 <=? len data) && String.eqb (string_of_bytes (slice 0 3 data)) "GIF")
        || ((12 <=? len data)
            && String.eqb (string_of_bytes (slice 0 4 data)) "RIFF"
            && String.eqb (string_of_bytes (slice 8 12 data)) "WEBP")).
Proof.
  unfold isValidImageData.
  destruct (len data <? 8); [done|].
  repeat match goal with
         | |- context [if ?b then _ else _] => destruct b
         end; reflexivity.
Qed.

(** C6 as stated fails on eight bytes that start as a PNG signature and go on
    otherwise: accepted, with none of the four signatures present. *)
Lemma half_png_signature_counterexample :
  let data := [x89; x50; x4e; x47; x00; x00; x00; x00] in
  isValidImageData data = true ∧ ¬ claimedSignature data.
Proof.
  split; [by vm_compute|].
  unfold claimedSignature. rewrite !prefix_take_iff.
  intros [Hp | [Hj | [Hg | [Hr _]]]]; by vm_compute in *.
Qed.

(** C6, amended.  [isValidImageData] accepts a buffer if and only if it
    holds at least 8 bytes and starts with the first four bytes of the PNG
    signature (0x89 0x50 0x4E 0x47), or with the three bytes of the JPEG
    signature, or with [GIF], or with [RIFF] and has [WEBP] at offset 8;
    every buffer shorter than 8 bytes is invalid. *)
Theorem isValidImageData_iff_magic (data : list byte) :
  (isValidImageData data = true
   ↔ 8 <= len data
     ∧ (pngMagic4 `prefix_of` data
        ∨ jpegMagic `prefix_of` data
        ∨ gifMagic `prefix_of` data
        ∨ (riffMagic `prefix_of` data ∧ webpMagic `prefix_of` drop 8 data)))
  ∧ (len data < 8 → isValidImageData data = false).
Proof.
  rewrite isValidImageData_tests. split.
  - assert (webpMagic `prefix_of` drop 8 data
            ↔ ((12 <=? len data)
               && String.eqb (string_of_bytes (slice 8 12 data)) "WEBP") = true)
      as Hwebp.
    { rewrite andb_true_iff, webp_bytes_prefix, Z.leb_le. split; [|tauto].
      intros Hw. split; [|done]. destruct Hw as [k Hk].
      apply (f_equal length) in Hk. rewrite length_drop, length_app in Hk.
      simpl in Hk. unfold len. lia. }
    rewrite Hwebp.
    rewrite <- png_bytes_prefix, <- jpeg_bytes_prefix, <- gif_bytes_prefix,
      <- riff_bytes_prefix.
    set (P := byte_is data 0 x89 && _ && _ && _).
    set (J := byte_is data 0 xff && _ && _).
    set (G := String.eqb (string_of_bytes (slice 0 3 data)) "GIF").
    set (R := String.eqb (string_of_bytes (slice 0 4 data)) "RIFF").
    set (W := String.eqb (string_of_bytes (slice 8 12 data)) "WEBP").
    clearbody P J G R W.
    destruct (Z.ltb_spec (len data) 8); simpl.
    { split; [done|]. intros [? _]. lia. }
    assert ((6 <=? len data) = true) as -> by (apply Z.leb_le; lia).
    destruct P, J, G, R, (12 <=? len data), W; simpl; intuition congruence.
  - intros Hl. by destruct (Z.ltb_spec (len data) 8); [|lia].
Qed.

Lemma isValidImageData_iff_magic_witness :
  len [x47; x49; x46; x38; x39; x61] < 8
  ∧ isValidImageData [x47; x49; x46; x38; x39; x61] = false.
Proof.
  assert (len [x47; x49; x46; x38; x39; x61] < 8) as Hl by (by vm_compute).
  split; [exact Hl|].
  exact (proj2 (isValidImageData_iff_magic [x47; x49; x46; x38; x39; x61]) Hl).
Defined.

(** ** C7: HTML in place of an image *)

(** C7 as stated fails on a page of 13 bytes: it is no image, an HTML marker
    is in its first 500 bytes, and the error is the generic one. *)
Lemma short_html_page_counterexample :
  let data := bytes_of_string "<html></html>" in
  isValidImageData data = false
  ∧ claimedHTMLDetection data = true
  ∧ DownloadImage (serving data) "https://files.slack.com/F001"
    = (serving data, Fail errNotAnImage)
  ∧ errNotAnImage ≠ errAuthenticationFailed.
Proof. by vm_compute. Qed.

Lemma slice_head {A} (data : list A) (n : nat) :
  slice 0 (Nat.min n (length data)) data = take n data.
Proof.
  unfold slice. rewrite Nat.sub_0_r, drop_0.
  destruct (Nat.le_gt_cases n (length data)) as [Hle|Hgt].
  - by rewrite Nat.min_l.
  - rewrite Nat.min_r by lia. rewrite !take_ge by lia. done.
Qed.

Lemma slice_tail {A} (data : list A) (n : nat) :
  slice (length data - n) (length data) data = drop (length data - n) data.
Proof. unfold slice. apply take_ge. rewrite length_drop. lia. Qed.

Lemma contains_one_of (s : string) (markers : list string) :
  existsb (GoStrings.Contains s) markers = true
  ↔ ∃ marker, marker ∈ markers ∧ GoStrings.Contains s marker = true.
Proof.
  rewrite existsb_exists. split; intros (m & Hin & Hc); exists m; split; try done;
    by apply list_elem_of_In.
Qed.

(** What [isHTMLContent] decides. *)
Lemma isHTMLContent_spec (data : list byte) :
  isHTMLContent data = true
  ↔ 15 <= len data
    ∧ ((∃ marker, marker ∈ openingMarkers
          ∧ GoStrings.Contains
              (GoStrings.ToLower (string_of_bytes (take 500 data))) marker = true)
       ∨ (20 < len data
          ∧ ∃ marker, marker ∈ closingMarkers
              ∧ GoStrings.Contains
                  (GoStrings.ToLower
                     (string_of_bytes (drop (length data - 20) data))) marker
                = true)).
Proof.
  rewrite <- !contains_one_of. unfold isHTMLContent.
  rewrite slice_head, slice_tail. simpl existsb. rewrite !orb_false_r.
  destruct (Z.ltb_spec (len data) 15).
  { split; [done|]. intros [? _]. lia. }
  set (first500 := GoStrings.ToLower (string_of_bytes (take 500 data))).
  set (last20 := GoStrings.ToLower (string_of_bytes (drop (length data - 20) data))).
  rewrite <- !orb_assoc.
  destruct (GoStrings.Contains first500 "<!doctype" || _); [tauto|].
  destruct (Z.ltb_spec 20 (len data)).
  - destruct (GoStrings.Contains last20 "</html>" || _); [tauto|].
    split; [done|]. intros [_ [?|[_ ?]]]; done.
  - split; [done|]. intros [_ [?|[? _]]]; [done|lia].
Qed.

(** C7, amended.  When [DownloadImage] obtains bytes, no more than
    [MaxImageSize] of them, that fail the magic-byte classification, it
    returns the authentication-failure error exactly when [isHTMLContent]
    fires, and the not-a-valid-image-format error otherwise; the two
    errors differ.  [isHTMLContent] fires if and only if the buffer holds
    at least 15 bytes and either its first 500 bytes, lower-cased, contain
    one of the four opening markers, or it holds more than 20 bytes and its
    last 20 bytes, lower-cased, contain one of the two closing tags. *)
Theorem DownloadImage_distinguishes_html `{SlackFileDownloader C}
    (c c' : C) (url : string) (data : list byte) :
  GetFileContext c url = (c', Ok data) →
  len data <= MaxImageSize →
  isValidImageData data = false →
  DownloadImage c url
  = (c', Fail (if isHTMLContent data then errAuthenticationFailed else errNotAnImage))
  ∧ errAuthenticationFailed ≠ errNotAnImage
  ∧ (isHTMLContent data = true
     ↔ 15 <= len data
       ∧ ((∃ marker, marker ∈ openingMarkers
             ∧ GoStrings.Contains
                 (GoStrings.ToLower (string_of_bytes (take 500 data))) marker = true)
          ∨ (20 < len data
             ∧ ∃ marker, marker ∈ closingMarkers
                 ∧ GoStrings.Contains
                     (GoStrings.ToLower
                        (string_of_bytes (drop (length data - 20) data))) marker
                   = true))).
Proof.
  intros Hget Hsize Hinvalid. split; [|split].
  - unfold DownloadImage. rewrite Hget, Hinvalid.
    destruct (Z.ltb_spec MaxImageSize (len data)); [lia|].
    by destruct (isHTMLContent data).
  - discriminate.
  - apply isHTMLContent_spec.
Qed.

Lemma DownloadImage_distinguishes_html_witness :
  GetFileContext (serving loginPage) "https://files.slack.com/F001"
  = (serving loginPage, Ok loginPage)
  ∧ len loginPage <= MaxImageSize
  ∧ isValidImageData loginPage = false
  ∧ DownloadImage (serving loginPage) "https://files.slack.com/F001"
    = (serving loginPage,
       Fail (if isHTMLContent loginPage then errAuthenticationFailed else errNotAnImage))
  ∧ isHTMLContent loginPage = true.
Proof.
  assert (GetFileContext (serving loginPage) "https://files.slack.com/F001"
          = (serving loginPage, Ok loginPage)) as Hget by (by vm_compute).
  assert (len loginPage <= MaxImageSize) as Hsize by (by vm_compute).
  assert (isValidImageData loginPage = false) as Hinvalid by (by vm_compute).
  split; [exact Hget|]. split; [exact Hsize|]. split; [exact Hinvalid|].
  split; [|by vm_compute].
  exact (proj1 (DownloadImage_distinguishes_html _ _ _ _ Hget Hsize Hinvalid)).
Defined.

(** ** C8: an image over the per-image limit, followed by a small one *)

(** C8 as stated fails: the first reference is over the limit and the second
    under it, yet the second is included and the skipped list is empty. *)
Lemma oversized_then_small_counterexample :
  let r := @DownloadImagesWithBudget _ mock_GetFileContext stubCodec
             twoFiles oversizedThenSmall 1000 in
  MaxImageSize < 4000000 ∧ 500 <= MaxImageSize
  ∧ imageData r = <["F002" := makePNG 500]> ∅
  ∧ size (imageData r) = 1%nat
  ∧ skippedImages r = []
  ∧ warnings r = ["Skipped image: image 'F001.png' size 4000000 bytes exceeds limit"]
  ∧ budgetExceeded r = false.
Proof. by vm_compute. Qed.

(** The scenario of the test suite behind C8 has a budget of
    1000 and declared sizes of 2000 and 500, both under [MaxImageSize]:
    the first image is fetched and does not fit, which sets the flag; both
    are skipped and there is no warning. *)
Example first_over_budget_all_skipped :
  let r := @DownloadImagesWithBudget _ mock_GetFileContext stubCodec
             twoFiles [testImage "F001" 2000; testImage "F002" 500] 1000 in
  size (imageData r) = 0%nat
  ∧ skippedImages r = [testImage "F001" 2000; testImage "F002" 500]
  ∧ warnings r = [] ∧ budgetExceeded r = true.
Proof. by vm_compute. Qed.

(** C8, amended.  Given two references of which the first declares a size
    over the per-image limit [MaxImageSize], the first costs one warning
    and nothing else: it is not fetched, it is not put on the skipped list
    and the exceeded flag stays unset.  The second is then processed as
    the first of a list would be; if its declared size is within the
    limit, its fetch succeeds and its bytes after compression fit the
    budget, it is included. *)
Theorem oversized_first_leaves_flag_unset `{SlackFileDownloader C} `{ImageCodec}
    (c : C) (first second : ImageInfo) (budget : Z) :
  MaxImageSize < Size first →
  let st1 := budgetStep budget (budgetInit c) first in
  st1 = mkBudgetState c ∅ ∅ [] [warnTooLarge first] 0 false
  ∧ DownloadImagesWithBudget c [first; second] budget = budgetStep budget st1 second
  ∧ (∀ (c' : C) (data : list byte),
       Size second <= MaxImageSize →
       DownloadImage c (URL second) = (c', Ok data) →
       let r := CompressImageIfNeeded data (MimeType second) budget in
       len (Data r) <= budget →
       DownloadImagesWithBudget c [first; second] budget
       = mkBudgetState c' (<[imageKey second := Data r]> ∅)
           (if WasConverted r then <[imageKey second := ResultMimeType r]> ∅ else ∅)
           [] [warnTooLarge first] (len (Data r)) false).
Proof.
  intros Hbig st1.
  assert (st1 = mkBudgetState c ∅ ∅ [] [warnTooLarge first] 0 false) as Hst1
    by (by apply (budgetStep_too_large budget (budgetInit c) first)).
  assert (DownloadImagesWithBudget c [first; second] budget
          = budgetStep budget st1 second) as Hrun by reflexivity.
  split; [exact Hst1|]. split; [exact Hrun|].
  intros c' data Hsmall Hd r Hfit. rewrite Hrun, Hst1.
  unfold budgetStep. cbn [budgetExceeded slackClient cumulativeSize imageData
                          mimeTypeOverrides skippedImages warnings].
  rewrite Hd, Z.sub_0_r. fold r.
  destruct (Z.ltb_spec MaxImageSize (Size second)); [lia|].
  destruct (Z.ltb_spec budget (0 + len (Data r))); [lia|].
  reflexivity.
Qed.

Lemma oversized_first_leaves_flag_unset_witness :
  MaxImageSize < Size (testImage "F001" 4000000)
  ∧ @budgetStep _ mock_GetFileContext stubCodec 1000 (budgetInit twoFiles)
      (testImage "F001" 4000000)
    = mkBudgetState twoFiles ∅ ∅ [] [warnTooLarge (testImage "F001" 4000000)] 0 false.
Proof.
  assert (MaxImageSize < Size (testImage "F001" 4000000)) as Hbig
    by (vm_compute; reflexivity).
  split; [exact Hbig|].
  exact (proj1 (@oversized_first_leaves_flag_unset _ mock_GetFileContext stubCodec
                  twoFiles (testImage "F001" 4000000) (testImage "F002" 500)
                  1000 Hbig)).
Defined.

(** ** C9: the semaphore bounds the downloads in flight *)

Lemma countPC_app (p : taskPC → bool) (ts ts' : list (ImageInfo * taskPC)) :
  countPC p (ts ++ ts') = (countPC p ts + countPC p ts')%nat.
Proof. induction ts as [|t ts IH]; simpl; [done|]. rewrite IH. lia. Qed.

(** Moving one goroutine from [old] to [new] moves its share of a count. *)
Lemma countPC_insert (p : taskPC → bool) (ts : list (ImageInfo * taskPC))
    (i : nat) (img : ImageInfo) (old new : taskPC) :
  ts !! i = Some (img, old) →
  (countPC p (<[i := (img, new)]> ts) + (if p old then 1 else 0)
   = countPC p ts + (if p new then 1 else 0))%nat.
Proof.
  revert i. induction ts as [|t ts IH]; intros [|i] Hi; simpl in *; try done.
  - injection Hi as ->. simpl. lia.
  - specialize (IH i Hi). lia.
Qed.

Lemma countPC_le (p q : taskPC → bool) (ts : list (ImageInfo * taskPC)) :
  (∀ pc, p pc = true → q pc = true) → (countPC p ts <= countPC q ts)%nat.
Proof.
  intros Hpq. induction ts as [|[img pc] ts IH]; simpl; [done|].
  specialize (Hpq pc). destruct (p pc), (q pc); lia.
Qed.

Lemma countPC_pos (p : taskPC → bool) (ts : list (ImageInfo * taskPC))
    (i : nat) (img : ImageInfo) (pc : taskPC) :
  ts !! i = Some (img, pc) → p pc = true → (1 <= countPC p ts)%nat.
Proof.
  revert i. induction ts as [|t ts IH]; intros [|i] Hi Hp; simpl in *; try done.
  - injection Hi as ->. simpl. rewrite Hp. lia.
  - specialize (IH i Hi Hp). lia.
Qed.

(** Where a goroutine found at a program point after a step was before. *)
Lemma lookup_moved_task (ts : list (ImageInfo * taskPC)) (i j : nat)
    (img img' : ImageInfo) (pc old new : taskPC) :
  ts !! j = Some (img', old) →
  <[j := (img', new)]> ts !! i = Some (img, pc) →
  (i = j ∧ img = img' ∧ pc = new) ∨ (i ≠ j ∧ ts !! i = Some (img, pc)).
Proof.
  intros Hj Hi. destruct (decide (j = i)) as [->|Hne].
  - rewrite list_lookup_insert_eq in Hi by (by eapply lookup_lt_Some).
    injection Hi as <- <-. by left.
  - rewrite list_lookup_insert_ne in Hi by done. right. split; [congruence|done].
Qed.

(** [Ht] says where goroutine [j] was, [Hi] where goroutine [i] is after
    the step of [j]: either [i] is [j], at its new point, or [i] has not
    moved. *)
Ltac moved_task Ht Hi :=
  destruct (lookup_moved_task _ _ _ _ _ _ _ _ Ht Hi) as [(-> & -> & ?) | [_ ?]];
  [try discriminate; auto | auto].

Section Pool.
Context `{SlackFileDownloader C}.

Lemma poolInv_step (s s' : poolState C) :
  poolInv s → poolStep s s' → poolInv s'.
Proof.
  intros [Hsem Hcap] Hstep. unfold poolInv.
  destruct Hstep as [s img rest Hp | s i img Ht Hfree | s i img Ht Hs
                    | s i img Ht Hs | s i img c' r Ht Hd | s i img Ht
                    | s i img Ht | s Hp Hw Hc | s result rest Hp Hr];
    cbn [semaphore tasks]; unfold setTask.
  - rewrite countPC_app. simpl. lia.
  - pose proof (countPC_insert holdsSlot _ _ _ _ Acquired Ht). simpl in *. lia.
  - pose proof (countPC_insert holdsSlot _ _ _ _ Sent Ht). simpl in *. lia.
  - pose proof (countPC_insert holdsSlot _ _ _ _ Downloading Ht). simpl in *. lia.
  - pose proof (countPC_insert holdsSlot _ _ _ _ Sent Ht). simpl in *. lia.
  - pose proof (countPC_insert holdsSlot _ _ _ _ Released Ht). simpl in *. lia.
  - pose proof (countPC_insert holdsSlot _ _ _ _ Finished Ht). simpl in *. lia.
  - done.
  - done.
Qed.

Lemma poolInv_reachable (c : C) (images : list ImageInfo) (s : poolState C) :
  poolReachable c images s → poolInv s.
Proof.
  induction 1 as [|s s' _ IH Hstep].
  - unfold poolInv, poolInit. simpl. unfold MaxConcurrentDownloads. lia.
  - by apply (poolInv_step s s').
Qed.

Lemma taskAt_spec (s : poolState C) (i : nat) (pc : taskPC) (img : ImageInfo) :
  taskAt s i pc = Some img → tasks s !! i = Some (img, pc).
Proof.
  unfold taskAt. destruct (tasks s !! i) as [[img' pc']|]; [|done].
  case_bool_decide; [|done]. by intros [= ->]; subst.
Qed.

(** The function of the scheduler's choice takes steps of the relation. *)
Lemma poolExec_step (s s' : poolState C) (a : poolAction) :
  poolExec s a = Some s' → poolStep s s'.
Proof.
  intros He. destruct a as [|i|i|i|i|i| |]; simpl in He.
  - destruct (pending s) as [|img rest] eqn:Hp; [done|].
    injection He as <-. by apply step_spawn.
  - destruct (taskAt s i Spawned) as [img|] eqn:Ht; [|done].
    apply taskAt_spec in Ht. simpl in He.
    destruct (Nat.ltb_spec (semaphore s) MaxConcurrentDownloads); [|done].
    injection He as <-. by apply step_acquire.
  - destruct (taskAt s i Acquired) as [img|] eqn:Ht; [|done].
    apply taskAt_spec in Ht. simpl in He.
    destruct (Z.ltb_spec MaxImageSize (Size img)); injection He as <-.
    + by apply step_too_large.
    + by apply step_start.
  - destruct (taskAt s i Downloading) as [img|] eqn:Ht; [|done].
    apply taskAt_spec in Ht. simpl in He.
    destruct (DownloadImage (poolClient s) (URL img)) as [c' r] eqn:Hd.
    injection He as <-. by apply step_complete.
  - destruct (taskAt s i Sent) as [img|] eqn:Ht; [|done].
    apply taskAt_spec in Ht. injection He as <-. by apply step_release.
  - destruct (taskAt s i Released) as [img|] eqn:Ht; [|done].
    apply taskAt_spec in Ht. injection He as <-. by apply step_done.
  - destruct (pending s) eqn:Hp; [|done]. destruct (wg s) eqn:Hw; [|done].
    destruct (resultClosed s) eqn:Hc; [done|].
    injection He as <-. rewrite <- Hp, <- Hw. by apply step_close.
  - destruct (pending s) eqn:Hp; [|done].
    destruct (resultChan s) as [|result rest] eqn:Hr; [done|].
    injection He as <-. rewrite <- Hp. by apply step_collect.
Qed.

Lemma poolRun_reachable (c : C) (images : list ImageInfo) (schedule : list poolAction)
    (s s' : poolState C) :
  poolReachable c images s → poolRun s schedule = Some s' →
  poolReachable c images s'.
Proof.
  revert s. induction schedule as [|a schedule IH]; intros s Hs Hrun; simpl in *.
  - by injection Hrun as <-.
  - destruct (poolExec s a) as [s1|] eqn:He; [|done]. simpl in Hrun.
    apply (IH s1); [|done]. eapply reach_step; [exact Hs|].
    by apply (poolExec_step s s1 a).
Qed.

End Pool.

(** C9.  In every state an invocation of
    [DownloadImagesWithConcurrencyLimit] can reach, whatever the list of
    references and whatever the interleaving of its goroutines, at most
    [MaxConcurrentDownloads], that is 3, downloads are in flight.  The
    tokens in the semaphore are exactly the goroutines that have acquired
    a slot and not yet released it, so a download is only in flight under
    a slot; a goroutine enters its download from the point right after
    the acquisition only; and a goroutine that has sent its result, be it
    bytes or an error, can take its release step, which gives the slot
    back. *)
Theorem pool_downloads_in_flight_bounded `{SlackFileDownloader C}
    (c : C) (images : list ImageInfo) (s : poolState C) :
  poolReachable c images s →
  (inFlight s <= MaxConcurrentDownloads)%nat
  ∧ MaxConcurrentDownloads = 3%nat
  ∧ semaphore s = countPC holdsSlot (tasks s)
  ∧ (∀ s' i img,
       poolStep s s' → tasks s' !! i = Some (img, Downloading) →
       tasks s !! i = Some (img, Downloading) ∨ tasks s !! i = Some (img, Acquired))
  ∧ (∀ i img,
       tasks s !! i = Some (img, Sent) →
       ∃ s', poolStep s s'
             ∧ tasks s' !! i = Some (img, Released)
             ∧ S (semaphore s') = semaphore s).
Proof.
  intros Hreach. destruct (poolInv_reachable c images s Hreach) as [Hsem Hcap].
  split; [|split; [done|split; [done|split]]].
  - unfold inFlight.
    etransitivity; [apply (countPC_le isDownloading holdsSlot)|lia].
    by intros [].
  - intros s' i img Hstep Hi.
    destruct Hstep as [s img' rest Hp | s j img' Ht Hfree | s j img' Ht Hs
                      | s j img' Ht Hs | s j img' c' r Ht Hd | s j img' Ht
                      | s j img' Ht | s Hp Hw Hc | s result rest Hp Hr];
      cbn [tasks] in Hi; unfold setTask in Hi; auto; try by moved_task Ht Hi.
    apply lookup_app_Some in Hi as [Hi | [_ Hi]]; [auto|].
    by destruct (i - length (tasks s))%nat as [|[|?]].
  - intros i img Hi. eexists. split; [by apply (step_release s i img)|].
    cbn [tasks semaphore]. unfold setTask. split.
    + apply list_lookup_insert_eq. by eapply lookup_lt_Some.
    + pose proof (countPC_pos holdsSlot _ _ _ _ Hi eq_refl). lia.
Qed.

Lemma pool_downloads_in_flight_bounded_witness :
  poolReachable threeFiles fourImages stateThreeInFlight
  ∧ inFlight stateThreeInFlight = 3%nat
  ∧ poolExec stateThreeInFlight (DoAcquire 3) = None
  ∧ (inFlight stateThreeInFlight <= MaxConcurrentDownloads)%nat.
Proof.
  assert (poolReachable threeFiles fourImages stateThreeInFlight) as Hreach.
  { apply (poolRun_reachable threeFiles fourImages threeInFlight
             (poolInit threeFiles fourImages)); [apply reach_init|].
    by vm_compute. }
  split; [exact Hreach|]. split; [by vm_compute|]. split; [by vm_compute|].
  exact (proj1 (pool_downloads_in_flight_bounded threeFiles fourImages
                  stateThreeInFlight Hreach)).
Defined.

(** ** C10: the compressor reads the declared type as it is written *)

Lemma isImageMimeType_normalized (mimeType : string) :
  isImageMimeType mimeType
  = map_index supportedImageMimeTypes (normalizedMimeType mimeType).
Proof. reflexivity. Qed.

(** C10.  [CompressImageIfNeeded] compares the declared type with
    [image/png] as it is written, without the normalisation of
    [isImageMimeType].  A declared type that [isImageMimeType] reads as
    PNG but that is spelled otherwise, as are [image/png; charset=utf-8]
    and [IMAGE/PNG], is a supported image type, and bytes declared so are
    returned unchanged and not converted, whatever the bytes and the
    budget. *)
Theorem other_png_spelling_is_not_compressed `{ImageCodec}
    (data : list byte) (mimeType : string) (budget : Z) :
  normalizedMimeType mimeType = "image/png" →
  mimeType ≠ "image/png" →
  isImageMimeType mimeType = true
  ∧ CompressImageIfNeeded data mimeType budget = unchanged data mimeType
  ∧ WasConverted (CompressImageIfNeeded data mimeType budget) = false
  ∧ normalizedMimeType "image/png; charset=utf-8" = "image/png"
  ∧ normalizedMimeType "IMAGE/PNG" = "image/png".
Proof.
  intros Hnorm Hne. rewrite isImageMimeType_normalized, Hnorm.
  rewrite compress_non_png by done.
  repeat split; by vm_compute.
Qed.

(** PNG data of 2000 bytes declared as [IMAGE/PNG], with a budget of 100. *)
Lemma other_png_spelling_is_not_compressed_witness :
  normalizedMimeType "IMAGE/PNG" = "image/png"
  ∧ "IMAGE/PNG" ≠ "image/png"
  ∧ isValidImageData (makePNG 2000) = true
  ∧ 100 < len (makePNG 2000)
  ∧ @CompressImageIfNeeded stubCodec (makePNG 2000) "IMAGE/PNG" 100
    = unchanged (makePNG 2000) "IMAGE/PNG".
Proof.
  assert (normalizedMimeType "IMAGE/PNG" = "image/png") as Hnorm by (by vm_compute).
  assert ("IMAGE/PNG" ≠ "image/png") as Hne by discriminate.
  split; [exact Hnorm|]. split; [exact Hne|].
  split; [by vm_compute|]. split; [by vm_compute|].
  exact (proj1 (proj2 (@other_png_spelling_is_not_compressed stubCodec
                         (makePNG 2000) "IMAGE/PNG" 100 Hnorm Hne))).
Defined.

(** * Further properties *)

(** ** References from the files of a message *)

Lemma ExtractImagesFromMessage_flat_map (msg : slack.Message) :
  ExtractImagesFromMessage msg
  = flat_map (extractFromFile (slack.Timestamp msg)) (slack.Files msg).
Proof. unfold ExtractImagesFromMessage. by rewrite fold_left_app_flat_map. Qed.

Lemma length_flat_map_le {A B} (f : A → list B) (l : list A) :
  (∀ x, length (f x) <= 1)%nat → (length (flat_map f l) <= length l)%nat.
Proof.
  intros Hf. induction l as [|x l IH]; simpl; [done|].
  rewrite length_app. specialize (Hf x). lia.
Qed.

(** X1.  The references [ExtractImagesFromMessage] returns are exactly
    those of the files of the message that have a supported image type and
    a download URL, each with the file's ID, name, type and size, the
    private URL (the private download URL if that one is empty) and the
    time stamp of the message.  So a reference it returns never has an
    empty URL, and there is at most one reference per file. *)
Theorem ExtractImagesFromMessage_exactly_the_images (msg : slack.Message) :
  (∀ img : ImageInfo,
     img ∈ ExtractImagesFromMessage msg
     ↔ ∃ file, file ∈ slack.Files msg
         ∧ isImageMimeType (slack.Mimetype file) = true
         ∧ downloadURLOf file ≠ ""
         ∧ img = {| FileID := slack.ID file; Name := slack.Name file;
                    MimeType := slack.Mimetype file; Size := slack.Size file;
                    URL := downloadURLOf file; MsgTS := slack.Timestamp msg |})
  ∧ (∀ img, img ∈ ExtractImagesFromMessage msg → URL img ≠ "")
  ∧ (length (ExtractImagesFromMessage msg) <= length (slack.Files msg))%nat.
Proof.
  rewrite ExtractImagesFromMessage_flat_map.
  assert (∀ file img, img ∈ extractFromFile (slack.Timestamp msg) file
            ↔ isImageMimeType (slack.Mimetype file) = true
              ∧ downloadURLOf file ≠ ""
              ∧ img = {| FileID := slack.ID file; Name := slack.Name file;
                         MimeType := slack.Mimetype file; Size := slack.Size file;
                         URL := downloadURLOf file;
                         MsgTS := slack.Timestamp msg |}) as Hfile.
  { intros file img. unfold extractFromFile, downloadURLOf.
    destruct (isImageMimeType (slack.Mimetype file)); simpl.
    - destruct (String.eqb_spec
                  (if String.eqb (slack.URLPrivate file) ""
                   then slack.URLPrivateDownload file else slack.URLPrivate file) "")
        as [He|Hne].
      + rewrite elem_of_nil. intuition.
      + rewrite list_elem_of_singleton. intuition.
    - rewrite elem_of_nil. intuition discriminate. }
  assert (∀ img, img ∈ flat_map (extractFromFile (slack.Timestamp msg)) (slack.Files msg)
            ↔ ∃ file, file ∈ slack.Files msg
                ∧ img ∈ extractFromFile (slack.Timestamp msg) file) as Hin.
  { intros img. rewrite list_elem_of_In, in_flat_map.
    split; intros (file & Hf & Hi); exists file;
      by rewrite ?list_elem_of_In in *. }
  split; [|split].
  - intros img. rewrite Hin. split; intros (file & Hf & Hi); exists file;
      (split; [done|]); by apply Hfile.
  - intros img (file & _ & Hi)%Hin. apply Hfile in Hi as (_ & Hne & ->). done.
  - apply length_flat_map_le. intros file. unfold extractFromFile.
    repeat match goal with |- context [if ?b then _ else _] => destruct b end;
      simpl; lia.
Qed.

(** ** References from link previews, guessed types and file names *)

Lemma in_flat_map_elem_of {A B} (f : A → list B) (l : list A) (y : B) :
  y ∈ flat_map f l ↔ ∃ x, x ∈ l ∧ y ∈ f x.
Proof.
  rewrite list_elem_of_In, in_flat_map.
  split; intros (x & Hx & Hy); exists x; by rewrite ?list_elem_of_In in *.
Qed.

Lemma nonempty_spec (s : string) : nonempty s = true ↔ s ≠ "".
Proof. unfold nonempty. destruct (String.eqb_spec s ""); naive_solver. Qed.


(** X2.  [guessMimeTypeFromURL] returns the empty string exactly when the
    URL does not parse; for a URL that parses it returns one of the four
    supported types, so [isImageMimeType] accepts its answer. *)
Theorem guessMimeTypeFromURL_empty_or_supported `{Parser} (rawURL : string) :
  (guessMimeTypeFromURL rawURL = "" ↔ url_Parse rawURL = None)
  ∧ (url_Parse rawURL ≠ None →
     guessMimeTypeFromURL rawURL ∈ supportedTypeNames
     ∧ isImageMimeType (guessMimeTypeFromURL rawURL) = true).
Proof.
  unfold guessMimeTypeFromURL.
  destruct (url_Parse rawURL) as [u|]; [|by split].
  repeat match goal with |- context [if ?b then _ else _] => destruct b end;
    (split; [split; discriminate|]); intros _;
    (split; [unfold supportedTypeNames; set_solver|by vm_compute]).
Qed.

Lemma guessMimeTypeFromURL_empty_or_supported_witness :
  @url_Parse NetURL.go "https://files.slack.com/files/123/IMAGE.PNG" ≠ None
  ∧ @guessMimeTypeFromURL NetURL.go "https://files.slack.com/files/123/IMAGE.PNG"
    ∈ supportedTypeNames.
Proof.
  assert (@url_Parse NetURL.go "https://files.slack.com/files/123/IMAGE.PNG" ≠ None)
    as Hp by (by vm_compute).
  split; [exact Hp|].
  exact (proj1 (proj2 (@guessMimeTypeFromURL_empty_or_supported NetURL.go
                         "https://files.slack.com/files/123/IMAGE.PNG") Hp)).
Defined.


Lemma extractFilenameFromURL_nonempty `{Parser} (rawURL : string) :
  extractFilenameFromURL rawURL ≠ "".
Proof.
  unfold extractFilenameFromURL.
  destruct (url_Parse rawURL) as [u|]; [|done].
  destruct (GoStrings.LastIndexByte (Path u) "/") as [idx|]; [|done].
  by destruct (String.eqb_spec (GoStrings.drop (S idx) (Path u)) "").
Qed.


(** X4.  Every reference [ExtractImagesFromAttachments] returns points to
    an allowed host: its URL is not empty, passes [isAllowedImageHost] and
    is the full-size or the thumbnail URL of one of the attachments; it has
    no file ID, an unknown size, a supported type, a name and the given
    time stamp.  There is at most one reference per attachment. *)
Theorem ExtractImagesFromAttachments_only_allowed_hosts `{Parser}
    (attachments : list Attachment) (msgTS : string) :
  (∀ img : ImageInfo,
     img ∈ ExtractImagesFromAttachments attachments msgTS →
     isAllowedImageHost (URL img) = true
     ∧ URL img ≠ ""
     ∧ (∃ attachment, attachment ∈ attachments
          ∧ (URL img = ImageURL attachment ∨ URL img = ThumbURL attachment))
     ∧ FileID img = "" ∧ Size img = 0 ∧ MsgTS img = msgTS
     ∧ isImageMimeType (MimeType img) = true
     ∧ Name img ≠ "")
  ∧ (length (ExtractImagesFromAttachments attachments msgTS)
     <= length attachments)%nat.
Proof.
  rewrite ExtractImagesFromAttachments_flat_map. split.
  - intros img (a & Ha & Hi)%in_flat_map_elem_of.
    unfold extractFromAttachment in Hi.
    destruct (nonempty (ImageURL a) && isAllowedImageHost (ImageURL a)) eqn:Hfull.
    + apply andb_true_iff in Hfull as [Hne Hok].
      rewrite (guessed_type_of_allowed_url_is_supported _ Hok) in Hi.
      assert (img = attachmentImage (ImageURL a)
                      (guessMimeTypeFromURL (ImageURL a)) msgTS) as ->.
      { destruct (nonempty (ThumbURL a) && isAllowedImageHost (ThumbURL a));
          simpl in Hi; by apply list_elem_of_singleton in Hi. }
      simpl. repeat split; try done.
      * by apply nonempty_spec.
      * exists a. auto.
      * by apply guessed_type_of_allowed_url_is_supported.
      * apply extractFilenameFromURL_nonempty.
    + simpl in Hi.
      destruct (nonempty (ThumbURL a) && isAllowedImageHost (ThumbURL a)) eqn:Hthumb;
        [|by apply elem_of_nil in Hi].
      apply andb_true_iff in Hthumb as [Hne Hok].
      rewrite (guessed_type_of_allowed_url_is_supported _ Hok) in Hi.
      apply list_elem_of_singleton in Hi as ->.
      simpl. repeat split; try done.
      * by apply nonempty_spec.
      * exists a. auto.
      * by apply guessed_type_of_allowed_url_is_supported.
      * apply extractFilenameFromURL_nonempty.
  - apply length_flat_map_le. intros a. unfold extractFromAttachment.
    repeat match goal with |- context [if ?b then _ else _] => destruct b end;
      simpl; lia.
Qed.

(** ** The normalisation of MIME types *)











(** A string without white space at its front. *)
Lemma TrimLeftSpace_head (s : string) :
  match GoStrings.TrimLeftSpace s with
  | EmptyString => True
  | String c _ => Ascii.is_space c = false
  end.
Proof.
  induction s as [|c s IH]; simpl; [done|].
  by destruct (Ascii.is_space c) eqn:Hc; [|simpl].
Qed.

Lemma TrimLeftSpace_no_head (c : ascii) (s : string) :
  Ascii.is_space c = false → GoStrings.TrimLeftSpace (String c s) = String c s.
Proof. intros Hc. simpl. by rewrite Hc. Qed.


Lemma TrimRightSpace_head (c : ascii) (s : string) :
  Ascii.is_space c = false →
  ∃ t, GoStrings.TrimRightSpace (String c s) = String c t.
Proof.
  intros Hc. simpl. destruct (GoStrings.TrimRightSpace s); rewrite ?Hc; eauto.
Qed.












(** ** What a download and a compression return *)

(** X6.  [DownloadImage] calls the downloader once.  Bytes it returns are
    the bytes the downloader wrote, are at most [MaxImageSize] and at least
    8 bytes long and carry one of the magic-byte prefixes; an error of the
    downloader comes back with the prefix of [errDownload], and bytes over
    [MaxImageSize] are refused whatever they hold. *)
Theorem DownloadImage_returns_checked_bytes `{SlackFileDownloader C}
    (c : C) (url : string) :
  (DownloadImage c url).1 = (GetFileContext c url).1
  ∧ (∀ data, (DownloadImage c url).2 = Ok data →
       (GetFileContext c url).2 = Ok data
       ∧ 8 <= len data <= MaxImageSize
       ∧ isValidImageData data = true)
  ∧ (∀ cause, (GetFileContext c url).2 = Fail cause →
       (DownloadImage c url).2 = Fail (errDownload cause))
  ∧ (∀ data, (GetFileContext c url).2 = Ok data → MaxImageSize < len data →
       (DownloadImage c url).2 = Fail (errTooLarge (len data))).
Proof.
  unfold DownloadImage. destruct (GetFileContext c url) as [c' [data|cause]]; simpl.
  - destruct (Z.ltb_spec MaxImageSize (len data)) as [Hbig|Hsmall]; simpl.
    + repeat split; try done. intros ? [= <-] _. done.
    + destruct (isValidImageData data) eqn:Hvalid; simpl.
      * split; [done|]. split; [|split; [done|]].
        -- intros ? [= <-]. repeat split; try done.
           unfold isValidImageData in Hvalid.
           by destruct (Z.ltb_spec (len data) 8).
        -- intros ? [= <-] ?. lia.
      * destruct (isHTMLContent data); simpl;
          (split; [done|]); (split; [done|]); (split; [done|]);
          intros ? [= <-] ?; lia.
  - repeat split; try done. by intros ? [= <-].
Qed.

Section CompressionResult.
Context `{ImageCodec}.

(** The loop returns what it was given, or the encoding of one of the
    levels, accepted because it fits or because the level is the lowest. *)
Lemma compressLoop_cases (data : list byte) (budget : Z)
    (result : CompressImageResult) (levels : list Z) :
  compressLoop data budget result levels = result
  ∨ ∃ quality compressed,
      quality ∈ levels
      ∧ compressPNGToJPEG data quality = Some compressed
      ∧ (len compressed <= budget ∨ quality = MinJPEGQuality)
      ∧ compressLoop data budget result levels
        = {| Data := compressed; ResultMimeType := "image/jpeg";
             WasConverted := true; OriginalSize := OriginalSize result;
             FinalSize := len compressed |}.
Proof.
  induction levels as [|quality levels IH]; simpl; [by left|].
  assert (compressLoop data budget result levels = result
          ∨ ∃ quality0 compressed,
              quality0 ∈ quality :: levels
              ∧ compressPNGToJPEG data quality0 = Some compressed
              ∧ (len compressed <= budget ∨ quality0 = MinJPEGQuality)
              ∧ compressLoop data budget result levels
                = {| Data := compressed; ResultMimeType := "image/jpeg";
                     WasConverted := true; OriginalSize := OriginalSize result;
                     FinalSize := len compressed |}) as IH'.
  { destruct IH as [?|(q & c & ? & ? & ? & ?)]; [by left|].
    right. exists q, c. split; [by apply list_elem_of_further|done]. }
  destruct (compressPNGToJPEG data quality) as [compressed|] eqn:Hc; [|done].
  destruct ((len compressed <=? budget) || (quality =? MinJPEGQuality)) eqn:Hok;
    [|done].
  right. exists quality, compressed. split; [by apply list_elem_of_here|].
  split; [done|]. split; [|done].
  apply orb_true_iff in Hok as [?%Z.leb_le|?%Z.eqb_eq]; auto.
Qed.

End CompressionResult.

(** X7.  The result of [CompressImageIfNeeded] is consistent: it records
    the length of the input and the length of the bytes it holds; when it
    is not converted it is the input with its declared type; when it is
    converted the declared type was [image/png], the type is [image/jpeg]
    and the bytes are the encoding at one of the levels 80, 60, 40.  Bytes
    over the budget come back in two cases only: the input unchanged, or
    the encoding at the lowest level, 40. *)
Theorem CompressImageIfNeeded_result_is_consistent `{ImageCodec}
    (data : list byte) (mimeType : string) (budget : Z) :
  let r := CompressImageIfNeeded data mimeType budget in
  OriginalSize r = len data
  ∧ FinalSize r = len (Data r)
  ∧ (WasConverted r = false → r = unchanged data mimeType)
  ∧ (WasConverted r = true →
     mimeType = "image/png" ∧ ResultMimeType r = "image/jpeg"
     ∧ ∃ quality, quality ∈ [80; 60; 40]
         ∧ compressPNGToJPEG data quality = Some (Data r))
  ∧ (budget < len (Data r) →
     r = unchanged data mimeType
     ∨ compressPNGToJPEG data 40 = Some (Data r)).
Proof.
  intros r. subst r. unfold CompressImageIfNeeded. cbv zeta.
  fold (unchanged data mimeType).
  destruct (String.eqb_spec mimeType "image/png") as [->|Hne]; cbn [negb].
  - destruct (compressLoop_cases data budget (unchanged data "image/png") qualities)
      as [->|(q & c & Hq & Hc & Hok & ->)]; cbn [Data ResultMimeType WasConverted
        OriginalSize FinalSize unchanged].
    + repeat split; try done. by left.
    + repeat split; try done.
      * exists q. by split.
      * intros Hover. right. destruct Hok as [? | ->]; [lia|done].
  - repeat split; try done. by left.
Qed.

(** ** The budgeted assembler, reference by reference *)

Lemma limitImages_take (images : list ImageInfo) :
  limitImages images = take MaxImagesPerCall images.
Proof.
  unfold limitImages. destruct (Nat.ltb_spec MaxImagesPerCall (length images)); [done|].
  symmetry. apply take_ge. lia.
Qed.

Lemma limitImages_length (images : list ImageInfo) :
  (length (limitImages images) ≤ MaxImagesPerCall)%nat.
Proof. rewrite limitImages_take, length_take. lia. Qed.

Lemma limitImages_idemp (images : list ImageInfo) :
  limitImages (limitImages images) = limitImages images.
Proof. by rewrite !limitImages_take, take_take, Nat.min_id. Qed.

Section CompressionCases.
Context `{ImageCodec}.

(** The two shapes of a result of [CompressImageIfNeeded]. *)
Lemma CompressImageIfNeeded_cases (data : list byte) (mimeType : string) (budget : Z) :
  CompressImageIfNeeded data mimeType budget = unchanged data mimeType
  ∨ (mimeType = "image/png"
     ∧ ∃ quality compressed,
         quality ∈ qualities
         ∧ compressPNGToJPEG data quality = Some compressed
         ∧ (len compressed <= budget ∨ quality = MinJPEGQuality)
         ∧ CompressImageIfNeeded data mimeType budget = converted data compressed).
Proof.
  unfold CompressImageIfNeeded. cbv zeta. fold (unchanged data mimeType).
  destruct (String.eqb_spec mimeType "image/png") as [->|Hne]; cbn [negb]; [|by left].
  destruct (compressLoop_cases data budget (unchanged data "image/png") qualities)
    as [->|(q & c & Hq & Hc & Hok & ->)]; [by left|].
  right. split; [done|]. by exists q, c.
Qed.

End CompressionCases.

Ltac budget_step st img budget :=
  unfold budgetStep; cbv zeta;
  destruct (budgetExceeded st) eqn:Hflag;
  [|destruct (Z.ltb_spec MaxImageSize (Size img)) as [Hbig|Hsmall];
    [|destruct (DownloadImage (slackClient st) (URL img))
        as [client' [data|err]] eqn:Hdl;
      [pose proof (CompressImageIfNeeded_cases data (MimeType img)
                     (budget - cumulativeSize st)) as Hcomp;
       set (r := CompressImageIfNeeded data (MimeType img)
                   (budget - cumulativeSize st)) in *;
       destruct (Z.ltb_spec budget (cumulativeSize st + len (Data r)))
         as [Hover|Hfit]|]]];
  cbn [slackClient imageData mimeTypeOverrides skippedImages warnings
       cumulativeSize budgetExceeded].

Section AssemblerAccounting.
Context `{SlackFileDownloader C} `{ImageCodec}.
Implicit Types (st : budgetState C) (img : ImageInfo) (budget : Z).

(** Induction over the references the loop has gone through. *)
Lemma budgetLoop_ind (P : list ImageInfo → budgetState C → Prop) budget (c : C) :
  P [] (budgetInit c) →
  (∀ processed img,
     P processed (budgetLoop budget (budgetInit c) processed) →
     P (processed ++ [img])
       (budgetStep budget (budgetLoop budget (budgetInit c) processed) img)) →
  ∀ images, P images (budgetLoop budget (budgetInit c) images).
Proof.
  intros Hinit Hstep images. induction images as [|img images IH] using rev_ind;
    [done|].
  rewrite budgetLoop_app. by apply Hstep.
Qed.

(** The keys of the overrides after the compressor's result is noted. *)
Lemma overrides_noted (processed : list ImageInfo) img
    (overrides : gmap string string) (r : CompressImageResult) data budget :
  r = CompressImageIfNeeded data (MimeType img) budget →
  (∀ k v, overrides !! k = Some v →
     v = "image/jpeg"
     ∧ ∃ img0, img0 ∈ processed ∧ imageKey img0 = k ∧ MimeType img0 = "image/png") →
  ∀ k v,
    (if WasConverted r then <[imageKey img := ResultMimeType r]> overrides
     else overrides) !! k = Some v →
    v = "image/jpeg"
    ∧ ∃ img0, img0 ∈ processed ++ [img] ∧ imageKey img0 = k
              ∧ MimeType img0 = "image/png".
Proof.
  intros Hr Hold k v Hk.
  assert (overrides !! k = Some v →
          v = "image/jpeg"
          ∧ ∃ img0, img0 ∈ processed ++ [img] ∧ imageKey img0 = k
                    ∧ MimeType img0 = "image/png") as Hkeep.
  { intros Hk0. destruct (Hold k v Hk0) as (? & img0 & ? & ? & ?).
    split; [done|]. exists img0. rewrite elem_of_app. auto. }
  destruct (CompressImageIfNeeded_cases data (MimeType img) budget)
    as [Hu|(Hpng & q & c & _ & _ & _ & Hc)]; rewrite <- Hr in *.
  - rewrite Hu in Hk. cbn [WasConverted unchanged] in Hk. auto.
  - rewrite Hc in Hk. cbn [WasConverted ResultMimeType converted] in Hk.
    destruct (decide (k = imageKey img)) as [->|Hne].
    + rewrite lookup_insert_eq in Hk. injection Hk as <-. split; [done|].
      exists img. rewrite elem_of_app, list_elem_of_singleton. auto.
    + rewrite lookup_insert_ne in Hk by done. auto.
Qed.

Lemma accountInv_step budget st (processed : list ImageInfo) img :
  accountInv processed st →
  accountInv (processed ++ [img]) (budgetStep budget st img).
Proof.
  intros (Hcount & Hskip & Hdata & Hover0).
  assert (∀ k d, imageData st !! k = Some d →
            ∃ img0, img0 ∈ processed ++ [img] ∧ imageKey img0 = k
                    ∧ Size img0 <= MaxImageSize) as Hdata'.
  { intros k d Hk. destruct (Hdata k d Hk) as (img0 & ? & ? & ?).
    exists img0. rewrite elem_of_app. auto. }
  assert (∀ k v, mimeTypeOverrides st !! k = Some v →
            v = "image/jpeg"
            ∧ ∃ img0, img0 ∈ processed ++ [img] ∧ imageKey img0 = k
                      ∧ MimeType img0 = "image/png") as Hover'.
  { intros k v Hk. destruct (Hover0 k v Hk) as (? & img0 & ? & ? & ?).
    split; [done|]. exists img0. rewrite elem_of_app. auto. }
  unfold accountInv. budget_step st img budget; rewrite ?length_app; simpl.
  - split; [lia|]. split; [|done]. by apply sublist_app.
  - split; [lia|]. split; [|done]. by apply sublist_inserts_r.
  - split; [lia|]. split; [by apply sublist_app|]. split; [done|].
    by apply (overrides_noted processed img _ r data (budget - cumulativeSize st)).
  - split.
    { pose proof (map_size_insert (imageKey img) (Data r) (imageData st)) as Hs.
      destruct (imageData st !! imageKey img); simpl in Hs; lia. }
    split; [by apply sublist_inserts_r|]. split.
    + intros k d Hk. destruct (decide (k = imageKey img)) as [->|Hne].
      * exists img. rewrite elem_of_app, list_elem_of_singleton. auto.
      * rewrite lookup_insert_ne in Hk by done. eauto.
    + by apply (overrides_noted processed img _ r data (budget - cumulativeSize st)).
  - split; [lia|]. split; [|done]. by apply sublist_inserts_r.
Qed.

Lemma accountInv_loop budget (c : C) (images : list ImageInfo) :
  accountInv images (budgetLoop budget (budgetInit c) images).
Proof.
  apply (budgetLoop_ind (λ processed st, accountInv processed st)).
  - unfold accountInv, budgetInit. simpl. split; [rewrite map_size_empty; lia|].
    split; [done|]. split; intros ? ?; by rewrite lookup_empty.
  - intros processed img. apply accountInv_step.
Qed.

End AssemblerAccounting.

Section AssemblerExact.
Context `{SlackFileDownloader C} `{ImageCodec}.
Implicit Types (st : budgetState C) (img : ImageInfo) (budget : Z).

(** Bytes that [DownloadImage] returns passed its checks. *)
Lemma DownloadImage_Ok (c c' : C) (url : string) (data : list byte) :
  DownloadImage c url = (c', Ok data) →
  isValidImageData data = true ∧ len data <= MaxImageSize.
Proof.
  unfold DownloadImage. destruct (GetFileContext c url) as [c0 [d|cause]]; [|done].
  destruct (Z.ltb_spec MaxImageSize (len d)); [done|].
  destruct (isValidImageData d) eqn:Hvalid.
  - by intros [= _ <-].
  - by destruct (isHTMLContent d).
Qed.

Lemma announcedType_noted (overrides : gmap string string) img img0
    (r : CompressImageResult) :
  imageKey img0 ≠ imageKey img →
  announcedType (if WasConverted r
                 then <[imageKey img := ResultMimeType r]> overrides
                 else overrides) img0
  = announcedType overrides img0.
Proof.
  intros Hne. unfold announcedType. destruct (WasConverted r); [|done].
  by rewrite lookup_insert_ne.
Qed.

Lemma exactInv_step budget st (processed : list ImageInfo) img :
  NoDup (imageKey <$> processed ++ [img]) →
  accountInv processed st → exactInv processed st →
  exactInv (processed ++ [img]) (budgetStep budget st img).
Proof.
  intros Hnodup (_ & _ & Hdata & Hover0) (Hcount & Hemit).
  rewrite fmap_app in Hnodup. apply NoDup_app in Hnodup as (_ & Hfresh & _).
  assert (∀ img0, img0 ∈ processed → imageKey img0 ≠ imageKey img) as Hother.
  { intros img0 Hin Heq. apply (Hfresh (imageKey img0)).
    - by apply list_elem_of_fmap_2.
    - rewrite Heq. simpl. apply list_elem_of_here. }
  assert (imageData st !! imageKey img = None) as Hnone.
  { destruct (imageData st !! imageKey img) as [d|] eqn:Hk; [|done].
    destruct (Hdata _ _ Hk) as (img0 & Hin & Heq & _). by destruct (Hother img0 Hin). }
  assert (mimeTypeOverrides st !! imageKey img = None) as Hnone'.
  { destruct (mimeTypeOverrides st !! imageKey img) as [v|] eqn:Hk; [|done].
    destruct (Hover0 _ _ Hk) as (_ & img0 & Hin & Heq & _).
    by destruct (Hother img0 Hin). }
  assert (∀ img0 d, img0 ∈ processed ++ [img] →
            imageData st !! imageKey img0 = Some d →
            img0 ∈ processed
            ∧ emittedAs img0 d (announcedType (mimeTypeOverrides st) img0)) as Hold.
  { intros img0 d Hin Hk. apply elem_of_app in Hin as [Hin|Hin].
    - split; [done|]. by apply Hemit.
    - apply list_elem_of_singleton in Hin as ->. by rewrite Hnone in Hk. }
  unfold exactInv. budget_step st img budget; rewrite ?length_app; simpl.
  - split; [lia|]. intros img0 d Hin Hk. by apply Hold.
  - split; [lia|]. intros img0 d Hin Hk. by apply Hold.
  - split; [lia|]. intros img0 d Hin Hk.
    destruct (Hold img0 d Hin Hk) as [Hin0 He].
    rewrite announcedType_noted; [done|by apply Hother].
  - split; [rewrite map_size_insert_None by done; lia|].
    intros img0 d Hin Hk. apply elem_of_app in Hin as [Hin|Hin].
    + rewrite lookup_insert_ne in Hk by (apply not_eq_sym; by apply Hother).
      rewrite announcedType_noted by (by apply Hother). by apply Hemit.
    + apply list_elem_of_singleton in Hin as ->.
      rewrite lookup_insert_eq in Hk. injection Hk as <-.
      destruct (DownloadImage_Ok _ _ _ _ Hdl) as [Hvalid Hlen].
      unfold announcedType.
      destruct Hcomp as [Hu|(Hpng & q & c & Hq & Hc & _ & Hr)].
      * rewrite Hu. cbn [WasConverted Data unchanged]. rewrite Hnone'. by left.
      * rewrite Hr. cbn [WasConverted Data ResultMimeType converted].
        rewrite lookup_insert_eq. right. split; [done|]. split; [done|].
        by exists data, q.
  - split; [lia|]. intros img0 d Hin Hk. by apply Hold.
Qed.

Lemma exactInv_loop budget (c : C) (images : list ImageInfo) :
  NoDup (imageKey <$> images) →
  exactInv images (budgetLoop budget (budgetInit c) images).
Proof.
  apply (budgetLoop_ind
           (λ processed st, NoDup (imageKey <$> processed) → exactInv processed st)).
  - intros _. unfold exactInv, budgetInit. simpl. split; [by rewrite map_size_empty|].
    intros ? ? ?. by rewrite lookup_empty.
  - intros processed img IH Hnodup. apply exactInv_step; [done|apply accountInv_loop|].
    apply IH. rewrite fmap_app in Hnodup. by apply NoDup_app in Hnodup as (? & _).
Qed.

Lemma checkedBytes_loop budget (c : C) (images : list ImageInfo) :
  ∀ k data,
    imageData (budgetLoop budget (budgetInit c) images) !! k = Some data →
    checkedBytes data.
Proof.
  apply (budgetLoop_ind
           (λ _ st, ∀ k data, imageData st !! k = Some data → checkedBytes data)).
  - intros k data. unfold budgetInit. cbn [imageData]. by rewrite lookup_empty.
  - intros processed img.
    set (st := budgetLoop budget (budgetInit c) processed). clearbody st.
    intros IH. budget_step st img budget; try done.
    intros k d Hk. destruct (decide (k = imageKey img)) as [->|Hne];
      [|rewrite lookup_insert_ne in Hk by done; by apply (IH k)].
    rewrite lookup_insert_eq in Hk. injection Hk as <-.
    destruct (DownloadImage_Ok _ _ _ _ Hdl) as [Hvalid Hlen].
    destruct Hcomp as [->|(_ & q & compressed & Hq & Hc & _ & ->)].
    + by left.
    + right. by exists data, q.
Qed.

End AssemblerExact.

(** X8.  [DownloadImagesWithBudget] looks at the first [MaxImagesPerCall]
    references only: its result is the result on these ten.  Each of them
    is accounted for at most once (included, skipped, or warned about),
    and exactly once when no two of them share a key; the skipped
    references are among them, in their order; every key of the map of
    included images is the key of one of them that declares a size within
    [MaxImageSize], and the bytes under it passed the checks of
    [DownloadImage] or are a JPEG encoding of bytes that did. *)
Theorem DownloadImagesWithBudget_accounts_for_every_image
    `{SlackFileDownloader C} `{ImageCodec}
    (c : C) (images : list ImageInfo) (budget : Z) :
  let considered := take MaxImagesPerCall images in
  let st := DownloadImagesWithBudget c images budget in
  st = DownloadImagesWithBudget c considered budget
  ∧ (size (imageData st) + length (skippedImages st) + length (warnings st)
     ≤ length considered ≤ MaxImagesPerCall)%nat
  ∧ skippedImages st `sublist_of` considered
  ∧ (∀ k data, imageData st !! k = Some data →
       checkedBytes data
       ∧ ∃ img, img ∈ considered ∧ imageKey img = k ∧ Size img <= MaxImageSize)
  ∧ (NoDup (imageKey <$> considered) →
     (size (imageData st) + length (skippedImages st) + length (warnings st)
      = length considered)%nat).
Proof.
  intros considered st. subst considered st.
  rewrite !DownloadImagesWithBudget_loop, <- limitImages_take, limitImages_idemp.
  destruct (accountInv_loop budget c (limitImages images))
    as (Hcount & Hskip & Hdata & _).
  split; [done|]. split; [split; [done|apply limitImages_length]|].
  split; [done|]. split.
  { intros k data Hk. split; [|by apply (Hdata k data)].
    by apply (checkedBytes_loop budget c (limitImages images) k). }
  intros Hnodup. by destruct (exactInv_loop budget c (limitImages images) Hnodup).
Qed.

(** X9.  The map of MIME type overrides that [DownloadImagesWithBudget]
    returns holds no other value than [image/jpeg], and only under the key
    of one of the first ten references whose declared type is, letter for
    letter, [image/png]. *)
Theorem mime_overrides_are_jpeg_for_png
    `{SlackFileDownloader C} `{ImageCodec}
    (c : C) (images : list ImageInfo) (budget : Z) (k override : string) :
  mimeTypeOverrides (DownloadImagesWithBudget c images budget) !! k = Some override →
  override = "image/jpeg"
  ∧ ∃ img, img ∈ take MaxImagesPerCall images ∧ imageKey img = k
           ∧ MimeType img = "image/png".
Proof.
  rewrite DownloadImagesWithBudget_loop, <- limitImages_take.
  destruct (accountInv_loop budget c (limitImages images)) as (_ & _ & _ & Hover).
  apply Hover.
Qed.

(** A PNG of 1000 bytes, declared [image/png], is included as a JPEG. *)
Lemma mime_overrides_are_jpeg_for_png_witness :
  mimeTypeOverrides
    (@DownloadImagesWithBudget _ mock_GetFileContext stubCodec
       threeFiles [declaredPNG] 1500) !! "F001" = Some "image/jpeg"
  ∧ "image/jpeg" = "image/jpeg"
  ∧ ∃ img, img ∈ take MaxImagesPerCall [declaredPNG] ∧ imageKey img = "F001"
           ∧ MimeType img = "image/png".
Proof.
  assert (mimeTypeOverrides
            (@DownloadImagesWithBudget _ mock_GetFileContext stubCodec
               threeFiles [declaredPNG] 1500) !! "F001" = Some "image/jpeg") as Hk
    by (vm_compute; reflexivity).
  split; [exact Hk|].
  exact (@mime_overrides_are_jpeg_for_png _ mock_GetFileContext stubCodec
           threeFiles [declaredPNG] 1500 "F001" "image/jpeg" Hk).
Defined.

Section FetchLog.
Context `{SlackFileDownloader C} `{ImageCodec}.

(** With the recording downloader, [DownloadImage] adds its URL to the
    log. *)
Lemma DownloadImage_recording (cl : C * list string) (url : string) :
  (@DownloadImage _ recording_GetFileContext cl url).1.2 = cl.2 ++ [url].
Proof.
  unfold DownloadImage, GetFileContext at 1, recording_GetFileContext.
  destruct (GetFileContext cl.1 url) as [c' [data|cause]]; [|done].
  destruct (MaxImageSize <? len data); [done|].
  destruct (isValidImageData data); [done|]. by destruct (isHTMLContent data).
Qed.

Lemma fetchable_snoc (processed : list ImageInfo) (img : ImageInfo) :
  Size img <= MaxImageSize →
  fetchable (processed ++ [img]) = fetchable processed ++ [img].
Proof.
  intros Hsmall. unfold fetchable. rewrite filter_app. f_equal.
  by rewrite filter_cons_True.
Qed.

Lemma fetch_log_step budget (st : budgetState (C * list string))
    (processed : list ImageInfo) (img : ImageInfo) (log0 fetched : list string) :
  (slackClient st).2 = log0 ++ fetched →
  fetched `sublist_of` (URL <$> fetchable processed) →
  ∃ fetched',
    (slackClient (budgetStep budget st img)).2 = log0 ++ fetched'
    ∧ fetched' `sublist_of` (URL <$> fetchable (processed ++ [img])).
Proof.
  intros Hlog Hsub.
  assert (fetched `sublist_of` (URL <$> fetchable (processed ++ [img]))) as Hsub'.
  { unfold fetchable. rewrite filter_app, fmap_app. by apply sublist_inserts_r. }
  assert (∀ client' r,
            DownloadImage (slackClient st) (URL img) = (client', r) →
            Size img <= MaxImageSize →
            ∃ fetched',
              client'.2 = log0 ++ fetched'
              ∧ fetched' `sublist_of` (URL <$> fetchable (processed ++ [img])))
    as Hfetch.
  { intros client' r Hdl Hsmall. exists (fetched ++ [URL img]).
    pose proof (DownloadImage_recording (slackClient st) (URL img)) as Hrec.
    rewrite Hdl in Hrec. simpl in Hrec. rewrite Hrec, Hlog, <- app_assoc.
    split; [done|]. rewrite fetchable_snoc, fmap_app by done.
    by apply sublist_app. }
  budget_step st img budget; eauto.
Qed.

End FetchLog.

Lemma fetch_log_loop `{SlackFileDownloader C} `{ImageCodec}
    (c : C) (log0 : list string) (images : list ImageInfo) (budget : Z) :
  ∃ fetched,
    (slackClient (@budgetLoop _ recording_GetFileContext _ budget
                    (budgetInit (c, log0)) images)).2 = log0 ++ fetched
    ∧ fetched `sublist_of` (URL <$> fetchable images).
Proof.
  apply (budgetLoop_ind
           (λ processed st,
              ∃ fetched, (slackClient st).2 = log0 ++ fetched
                ∧ fetched `sublist_of` (URL <$> fetchable processed))).
  - exists []. simpl. by rewrite app_nil_r.
  - intros processed img (fetched & Hlog & Hsub). by eapply fetch_log_step.
Qed.

(** X10.  What [DownloadImagesWithBudget] asks of the downloader, read off
    a downloader that records its calls: the URLs of some of the first ten
    references that declare a size within [MaxImageSize], in the order of
    the references and at most one call for each; hence at most ten calls,
    none for a reference over the limit and none beyond the tenth. *)
Theorem DownloadImagesWithBudget_fetches_in_order
    `{SlackFileDownloader C} `{ImageCodec}
    (c : C) (log0 : list string) (images : list ImageInfo) (budget : Z) :
  ∃ fetched,
    (slackClient (@DownloadImagesWithBudget _ recording_GetFileContext _
                    (c, log0) images budget)).2 = log0 ++ fetched
    ∧ fetched `sublist_of` (URL <$> fetchable (take MaxImagesPerCall images))
    ∧ (length fetched ≤ MaxImagesPerCall)%nat.
Proof.
  rewrite DownloadImagesWithBudget_loop, <- limitImages_take.
  destruct (fetch_log_loop c log0 (limitImages images) budget)
    as (fetched & Hlog & Hsub).
  exists fetched. split; [done|]. split; [done|].
  apply sublist_length in Hsub. rewrite length_fmap in Hsub.
  pose proof (sublist_length _ _ (sublist_filter (λ img, Size img <= MaxImageSize)
                                    (limitImages images))) as Hf.
  pose proof (limitImages_length images). unfold fetchable in Hsub. lia.
Qed.

Lemma ExtractImagesFromAttachments_allowed `{Parser}
    (attachments : list Attachment) (msgTS : string) (img : ImageInfo) :
  img ∈ ExtractImagesFromAttachments attachments msgTS →
  isAllowedImageHost (URL img) = true.
Proof.
  rewrite ExtractImagesFromAttachments_flat_map.
  intros (a & Ha & Hi)%in_flat_map_elem_of. unfold extractFromAttachment in Hi.
  destruct (nonempty (ImageURL a) && isAllowedImageHost (ImageURL a)) eqn:Hfull.
  - apply andb_true_iff in Hfull as [_ Hok].
    rewrite (guessed_type_of_allowed_url_is_supported _ Hok) in Hi.
    destruct (nonempty (ThumbURL a) && isAllowedImageHost (ThumbURL a));
      simpl in Hi; by apply list_elem_of_singleton in Hi as ->.
  - simpl in Hi.
    destruct (nonempty (ThumbURL a) && isAllowedImageHost (ThumbURL a)) eqn:Hthumb;
      [|by apply elem_of_nil in Hi].
    apply andb_true_iff in Hthumb as [_ Hok].
    rewrite (guessed_type_of_allowed_url_is_supported _ Hok) in Hi.
    by apply list_elem_of_singleton in Hi as ->.
Qed.

(** X24.  Link previews are only fetched from allowed hosts: when
    [DownloadImagesWithBudget] is given the references
    [ExtractImagesFromAttachments] made of some attachments, every URL it
    asks of the downloader, read off a downloader that records its calls,
    passes [isAllowedImageHost]. *)
Theorem attachment_images_are_fetched_from_allowed_hosts
    `{SlackFileDownloader C} `{ImageCodec} `{Parser}
    (c : C) (log0 : list string) (attachments : list Attachment) (msgTS : string)
    (budget : Z) :
  ∃ fetched,
    (slackClient (@DownloadImagesWithBudget _ recording_GetFileContext _ (c, log0)
                    (ExtractImagesFromAttachments attachments msgTS) budget)).2
    = log0 ++ fetched
    ∧ ∀ url, url ∈ fetched → isAllowedImageHost url = true.
Proof.
  rewrite DownloadImagesWithBudget_loop.
  destruct (fetch_log_loop c log0
              (limitImages (ExtractImagesFromAttachments attachments msgTS)) budget)
    as (fetched & Hlog & Hsub).
  exists fetched. split; [done|]. intros url Hurl.
  apply (elem_of_sublist _ _ _ Hurl) in Hsub.
  apply list_elem_of_fmap in Hsub as (img & -> & Himg).
  apply (ExtractImagesFromAttachments_allowed attachments msgTS).
  apply list_elem_of_filter in Himg as [_ Himg].
  rewrite limitImages_take in Himg.
  apply (elem_of_sublist _ _ _ Himg), sublist_take.
Qed.

Section EverythingFits.
Context `{SlackFileDownloader C} `{ImageCodec}.

Lemma totalBytes_snoc (bytesOf : ImageInfo → list byte) (images : list ImageInfo)
    (img : ImageInfo) :
  totalBytes bytesOf (images ++ [img])
  = totalBytes bytesOf images + len (bytesOf img).
Proof.
  induction images as [|img0 images IH]; simpl; [lia|]. rewrite IH. lia.
Qed.

Lemma totalBytes_nonneg (bytesOf : ImageInfo → list byte) (images : list ImageInfo) :
  0 <= totalBytes bytesOf images.
Proof.
  induction images as [|img images IH]; simpl; [done|].
  pose proof (len_nonneg (bytesOf img)). lia.
Qed.

(** When everything fits, the loop includes reference after reference. *)
Lemma everything_fits_loop (c : C) (bytesOf : ImageInfo → list byte) (budget : Z)
    (images : list ImageInfo) :
  (∀ img, img ∈ images →
     Size img <= MaxImageSize ∧ MimeType img ≠ "image/png"
     ∧ DownloadImage c (URL img) = (c, Ok (bytesOf img))) →
  NoDup (imageKey <$> images) →
  totalBytes bytesOf images <= budget →
  slackClient (budgetLoop budget (budgetInit c) images) = c
  ∧ skippedImages (budgetLoop budget (budgetInit c) images) = []
  ∧ warnings (budgetLoop budget (budgetInit c) images) = []
  ∧ mimeTypeOverrides (budgetLoop budget (budgetInit c) images) = ∅
  ∧ budgetExceeded (budgetLoop budget (budgetInit c) images) = false
  ∧ cumulativeSize (budgetLoop budget (budgetInit c) images)
    = totalBytes bytesOf images
  ∧ (∀ img, img ∈ images →
       imageData (budgetLoop budget (budgetInit c) images) !! imageKey img
       = Some (bytesOf img)).
Proof.
  apply (budgetLoop_ind
           (λ processed st,
              (∀ img, img ∈ processed →
                 Size img <= MaxImageSize ∧ MimeType img ≠ "image/png"
                 ∧ DownloadImage c (URL img) = (c, Ok (bytesOf img))) →
              NoDup (imageKey <$> processed) →
              totalBytes bytesOf processed <= budget →
              slackClient st = c ∧ skippedImages st = [] ∧ warnings st = []
              ∧ mimeTypeOverrides st = ∅ ∧ budgetExceeded st = false
              ∧ cumulativeSize st = totalBytes bytesOf processed
              ∧ (∀ img, img ∈ processed →
                   imageData st !! imageKey img = Some (bytesOf img)))).
  - intros _ _ _. unfold budgetInit. cbn. repeat split; try done.
    by intros img ?%not_elem_of_nil.
  - intros processed img.
    set (st := budgetLoop budget (budgetInit c) processed). clearbody st.
    intros IH Hall Hnodup Htotal.
    rewrite fmap_app in Hnodup. apply NoDup_app in Hnodup as (Hnd & Hfresh & _).
    rewrite totalBytes_snoc in Htotal.
    pose proof (len_nonneg (bytesOf img)) as Hlen.
    destruct IH as (Hc & Hskip & Hwarn & Hover & Hflag & Hcum & Hdata);
      [intros img0 Hin; apply Hall, elem_of_app; by left|done|lia|].
    destruct (Hall img) as (Hsize & Htype & Hdl);
      [apply elem_of_app; right; apply list_elem_of_here|].
    unfold budgetStep. cbv zeta. rewrite Hflag.
    destruct (Z.ltb_spec MaxImageSize (Size img)); [lia|].
    rewrite Hc, Hdl, (compress_non_png _ _ _ Htype).
    cbn [WasConverted Data unchanged].
    destruct (Z.ltb_spec budget (cumulativeSize st + len (bytesOf img))); [lia|].
    cbn [slackClient skippedImages warnings mimeTypeOverrides budgetExceeded
         cumulativeSize imageData].
    rewrite totalBytes_snoc, Hcum. repeat split; try done.
    intros img0 [Hin| ->%list_elem_of_singleton]%elem_of_app.
    + rewrite lookup_insert_ne; [by apply Hdata|].
      intros Heq. apply (Hfresh (imageKey img0)).
      * by apply list_elem_of_fmap_2.
      * rewrite <- Heq. apply list_elem_of_here.
    + by rewrite lookup_insert_eq.
Qed.

End EverythingFits.

(** X25.  Nothing is dropped when everything fits: given at most ten
    references with different keys, none declared [image/png] or over the
    size limit, each of which [DownloadImage] fetches from a downloader
    that a download does not change, and the bytes of which together are
    within the budget, [DownloadImagesWithBudget] includes every reference
    with its bytes, skips none, warns of none and overrides no type.  The
    budget's bound is inclusive: a total equal to the budget fits. *)
Theorem everything_that_fits_is_included `{SlackFileDownloader C} `{ImageCodec}
    (c : C) (bytesOf : ImageInfo → list byte) (images : list ImageInfo)
    (budget : Z) :
  (length images ≤ MaxImagesPerCall)%nat →
  NoDup (imageKey <$> images) →
  (∀ img, img ∈ images →
     Size img <= MaxImageSize ∧ MimeType img ≠ "image/png"
     ∧ DownloadImage c (URL img) = (c, Ok (bytesOf img))) →
  totalBytes bytesOf images <= budget →
  let st := DownloadImagesWithBudget c images budget in
  (∀ img, img ∈ images → imageData st !! imageKey img = Some (bytesOf img))
  ∧ size (imageData st) = length images
  ∧ skippedImages st = [] ∧ warnings st = []
  ∧ mimeTypeOverrides st = ∅
  ∧ cumulativeSize st = totalBytes bytesOf images.
Proof.
  intros Hlen Hnodup Hall Htotal st. subst st.
  rewrite DownloadImagesWithBudget_loop.
  assert (limitImages images = images) as ->.
  { rewrite limitImages_take. apply take_ge. lia. }
  destruct (everything_fits_loop c bytesOf budget images Hall Hnodup Htotal)
    as (_ & Hskip & Hwarn & Hover & _ & Hcum & Hdata).
  destruct (exactInv_loop budget c images Hnodup) as [Hcount _].
  rewrite Hskip, Hwarn in Hcount. simpl in Hcount.
  repeat split; try done. lia.
Qed.

Lemma everything_that_fits_is_included_witness :
  let st := @DownloadImagesWithBudget _ mock_GetFileContext stubCodec
              threeFiles threeImages 3000 in
  (length threeImages ≤ MaxImagesPerCall)%nat
  ∧ NoDup (imageKey <$> threeImages)
  ∧ totalBytes (λ _, makePNG 1000) threeImages <= 3000
  ∧ size (imageData st) = length threeImages.
Proof.
  intros st.
  assert (length threeImages ≤ MaxImagesPerCall)%nat as Hlen
    by (vm_compute; lia).
  assert (NoDup (imageKey <$> threeImages)) as Hnodup
    by (apply (bool_decide_unpack _); vm_compute; exact I).
  assert (∀ img, img ∈ threeImages →
            Size img <= MaxImageSize ∧ MimeType img ≠ "image/png"
            ∧ @DownloadImage _ mock_GetFileContext threeFiles (URL img)
              = (threeFiles, Ok (makePNG 1000))) as Hall.
  { intros img Hin. unfold threeImages in Hin.
    repeat (apply elem_of_cons in Hin as [->|Hin];
            [split; [by vm_compute|split; [discriminate|by vm_compute]]|]).
    by apply not_elem_of_nil in Hin. }
  assert (totalBytes (λ _, makePNG 1000) threeImages <= 3000) as Htotal
    by (by vm_compute).
  split; [exact Hlen|]. split; [exact Hnodup|]. split; [exact Htotal|].
  exact (proj1 (proj2 (@everything_that_fits_is_included _ mock_GetFileContext
                         stubCodec threeFiles (λ _, makePNG 1000) threeImages 3000
                         Hlen Hnodup Hall Htotal))).
Defined.

Section SkippedSuffix.
Context `{SlackFileDownloader C} `{ImageCodec}.

Lemma skipped_suffix_step budget (st : budgetState C) (processed : list ImageInfo)
    (img : ImageInfo) :
  (∃ pre, processed = pre ++ skippedImages st)
  ∧ (budgetExceeded st = true ↔ skippedImages st ≠ []) →
  (∃ pre, processed ++ [img] = pre ++ skippedImages (budgetStep budget st img))
  ∧ (budgetExceeded (budgetStep budget st img) = true
     ↔ skippedImages (budgetStep budget st img) ≠ []).
Proof.
  intros [(pre & Hpre) Hflag0].
  assert (budgetExceeded st = false → skippedImages st = []) as Hnone.
  { intros Hf. destruct (skippedImages st); [done|].
    assert (budgetExceeded st = true) as Ht by (by apply Hflag0). congruence. }
  budget_step st img budget.
  - split; [exists pre; by rewrite Hpre, app_assoc|].
    split; [by intros _ [_ [=]]%app_nil|done].
  - rewrite (Hnone eq_refl) in *. split; [|done].
    exists (processed ++ [img]). by rewrite app_nil_r.
  - rewrite (Hnone eq_refl). split; [by exists processed|]. by split.
  - rewrite (Hnone eq_refl) in *. split; [|done].
    exists (processed ++ [img]). by rewrite app_nil_r.
  - rewrite (Hnone eq_refl) in *. split; [|done].
    exists (processed ++ [img]). by rewrite app_nil_r.
Qed.

End SkippedSuffix.

(** X23.  The references [DownloadImagesWithBudget] skips are the end of
    the list: the first ten references are some references followed by the
    skipped ones, in their order.  So after the first reference that does
    not fit the budget, every later one is skipped, and before it none is. *)
Theorem skipped_images_are_a_suffix `{SlackFileDownloader C} `{ImageCodec}
    (c : C) (images : list ImageInfo) (budget : Z) :
  let st := DownloadImagesWithBudget c images budget in
  (∃ pre, take MaxImagesPerCall images = pre ++ skippedImages st)
  ∧ (budgetExceeded st = true ↔ skippedImages st ≠ []).
Proof.
  intros st. subst st. rewrite DownloadImagesWithBudget_loop, <- limitImages_take.
  apply (budgetLoop_ind
           (λ processed st,
              (∃ pre, processed = pre ++ skippedImages st)
              ∧ (budgetExceeded st = true ↔ skippedImages st ≠ []))).
  - split; [by exists []|]. by split.
  - intros processed img. apply skipped_suffix_step.
Qed.

(** ** From the included images to the content sent *)

Lemma ImagesToMCPContent_flat_map (images : list ImageInfo)
    (imageData : gmap string (list byte)) (mimeTypeOverrides : gmap string string) :
  ImagesToMCPContent images imageData mimeTypeOverrides
  = flat_map (contentOfImage imageData mimeTypeOverrides) images.
Proof. unfold ImagesToMCPContent. by rewrite fold_left_app_flat_map. Qed.

Lemma contentOfImage_spec (imageData : gmap string (list byte))
    (mimeTypeOverrides : gmap string string) (img : ImageInfo) (item : mcp.Content) :
  item ∈ contentOfImage imageData mimeTypeOverrides img ↔
  ∃ data, imageData !! imageKey img = Some data
          ∧ item = mcp.ImageContent (base64.EncodeToString data)
                     (announcedType mimeTypeOverrides img).
Proof.
  unfold contentOfImage, announcedType, mcp.NewImageContent. cbv zeta.
  destruct (imageData !! imageKey img) as [data|].
  - rewrite list_elem_of_singleton. split; [intros ->; by exists data|].
    by intros (? & [= <-] & ->).
  - split; [by intros ?%not_elem_of_nil|by intros (? & ? & _)].
Qed.

(** References with different keys are different; with [NoDup] keys, a key
    names one reference. *)
Lemma NoDup_keys_inj (images : list ImageInfo) (img1 img2 : ImageInfo) :
  NoDup (imageKey <$> images) → img1 ∈ images → img2 ∈ images →
  imageKey img1 = imageKey img2 → img1 = img2.
Proof.
  induction images as [|img images IH]; simpl; [by intros _ ?%not_elem_of_nil|].
  rewrite NoDup_cons, !elem_of_cons. intros [Hfresh Hnodup] [->|H1] [->|H2] Heq;
    [done| | |by apply IH].
  - destruct Hfresh. rewrite Heq. by apply list_elem_of_fmap_2.
  - destruct Hfresh. rewrite <- Heq. by apply list_elem_of_fmap_2.
Qed.

Lemma NoDup_keys_take (images : list ImageInfo) (n : nat) :
  NoDup (imageKey <$> images) → NoDup (imageKey <$> take n images).
Proof.
  intros Hnodup. apply (sublist_NoDup _ (imageKey <$> images)); [done|].
  apply fmap_sublist, sublist_take.
Qed.

(** X11.  What is sent for the images [DownloadImagesWithBudget] included,
    when no two references share a key: every item that
    [ImagesToMCPContent] builds is an image item for one of the first ten
    references, holds the base64 encoding of the bytes included for it, and
    announces the type that goes with these bytes: the declared type for
    bytes that came from the downloader and passed its checks, and
    [image/jpeg] for the JPEG encoding of such bytes, which is only made
    for a reference declared [image/png]. *)
Theorem ImagesToMCPContent_announces_type_of_bytes
    `{SlackFileDownloader C} `{ImageCodec}
    (c : C) (images : list ImageInfo) (budget : Z) (item : mcp.Content) :
  NoDup (imageKey <$> images) →
  let st := DownloadImagesWithBudget c images budget in
  item ∈ ImagesToMCPContent images (imageData st) (mimeTypeOverrides st) →
  ∃ img data mimeType,
    img ∈ take MaxImagesPerCall images
    ∧ imageData st !! imageKey img = Some data
    ∧ item = mcp.ImageContent (base64.EncodeToString data) mimeType
    ∧ emittedAs img data mimeType.
Proof.
  intros Hnodup st. subst st.
  rewrite ImagesToMCPContent_flat_map, in_flat_map_elem_of.
  intros (img & Hin & (data & Hdata & ->)%contentOfImage_spec).
  rewrite DownloadImagesWithBudget_loop, <- limitImages_take in *.
  destruct (accountInv_loop budget c (limitImages images)) as (_ & _ & Hkeys & _).
  destruct (Hkeys _ _ Hdata) as (img0 & Hin0 & Hkey & _).
  assert (img0 = img) as ->.
  { apply (NoDup_keys_inj images); try done.
    rewrite limitImages_take in Hin0.
    apply (elem_of_sublist _ _ _ Hin0), sublist_take. }
  assert (NoDup (imageKey <$> limitImages images)) as Hnodup'.
  { rewrite limitImages_take. by apply NoDup_keys_take. }
  destruct (exactInv_loop budget c (limitImages images) Hnodup') as [_ Hemit].
  exists img, data, (announcedType
                       (mimeTypeOverrides
                          (budgetLoop budget (budgetInit c) (limitImages images))) img).
  split; [done|]. split; [done|]. split; [done|]. by apply Hemit.
Qed.

Lemma ImagesToMCPContent_announces_type_of_bytes_witness :
  let st := @DownloadImagesWithBudget _ mock_GetFileContext stubCodec
              threeFiles threeImages 1500 in
  let item := mcp.ImageContent (base64.EncodeToString (makePNG 1000)) "" in
  NoDup (imageKey <$> threeImages)
  ∧ item ∈ ImagesToMCPContent threeImages (imageData st) (mimeTypeOverrides st)
  ∧ ∃ img data mimeType,
      img ∈ take MaxImagesPerCall threeImages
      ∧ imageData st !! imageKey img = Some data
      ∧ item = mcp.ImageContent (base64.EncodeToString data) mimeType
      ∧ @emittedAs stubCodec img data mimeType.
Proof.
  intros st item.
  assert (NoDup (imageKey <$> threeImages)) as Hnodup
    by (apply (bool_decide_unpack _); vm_compute; exact I).
  assert (item ∈ ImagesToMCPContent threeImages (imageData st) (mimeTypeOverrides st))
    as Hitem by (vm_compute; apply list_elem_of_here).
  split; [exact Hnodup|]. split; [exact Hitem|].
  exact (@ImagesToMCPContent_announces_type_of_bytes _ mock_GetFileContext stubCodec
           threeFiles threeImages 1500 item Hnodup Hitem).
Defined.

(** Three bytes give four characters, a rest of one or two bytes four
    more. *)
Lemma EncodeToString_length (src : list byte) :
  String.length (base64.EncodeToString src) = (4 * ((length src + 2) / 3))%nat.
Proof.
  assert (∀ n (src : list byte), (length src < n)%nat →
            String.length (base64.EncodeToString src)
            = (4 * ((length src + 2) / 3))%nat) as Haux.
  { clear src. induction n as [|n IH]; intros src Hn; [lia|].
    destruct src as [|b0 [|b1 [|b2 rest]]]; [done..|].
    cbn [base64.EncodeToString String.length length]. cbv zeta.
    cbn [String.length]. rewrite IH by (simpl in Hn; lia).
    replace (S (S (S (length rest))) + 2)%nat with ((length rest + 2) + 1 * 3)%nat
      by lia.
    rewrite Nat.div_add by lia. lia. }
  apply (Haux (S (length src))). lia.
Qed.

Lemma payloadLength_app (content1 content2 : list mcp.Content) :
  payloadLength (content1 ++ content2)
  = payloadLength content1 + payloadLength content2.
Proof.
  induction content1 as [|item content1 IH]; simpl; [done|].
  destruct item; lia.
Qed.

(** Items for references with other keys do not depend on the entry of a
    key. *)
Lemma flat_map_contentOfImage_delete (imageData : gmap string (list byte))
    (mimeTypeOverrides : gmap string string) (k : string) (images : list ImageInfo) :
  k ∉ imageKey <$> images →
  flat_map (contentOfImage (delete k imageData) mimeTypeOverrides) images
  = flat_map (contentOfImage imageData mimeTypeOverrides) images.
Proof.
  induction images as [|img images IH]; simpl; [done|].
  rewrite not_elem_of_cons. intros [Hne Hk]. rewrite IH by done. f_equal.
  unfold contentOfImage. cbv zeta. by rewrite lookup_delete_ne.
Qed.

Lemma size_delete_Some (m : gmap string (list byte)) (k : string) (d : list byte) :
  m !! k = Some d → size m = S (size (delete k m)).
Proof.
  intros Hk. rewrite <- (insert_delete_id m k d Hk) at 1.
  rewrite map_size_insert_None; [done|apply lookup_delete_eq].
Qed.

(** With [NoDup] keys, an entry of the map is sent at most once. *)
Lemma content_within_map (images : list ImageInfo)
    (imageData : gmap string (list byte)) (mimeTypeOverrides : gmap string string) :
  NoDup (imageKey <$> images) →
  (length (flat_map (contentOfImage imageData mimeTypeOverrides) images)
   ≤ size imageData)%nat
  ∧ 3 * payloadLength (flat_map (contentOfImage imageData mimeTypeOverrides) images)
    <= 4 * includedBytes imageData + 8 * Z.of_nat (size imageData).
Proof.
  revert imageData. induction images as [|img images IH]; intros imageData; simpl.
  - intros _. pose proof (includedBytes_nonneg imageData). lia.
  - rewrite NoDup_cons. intros [Hfresh Hnodup].
    rewrite length_app, payloadLength_app.
    unfold contentOfImage at 1 3. cbv zeta.
    destruct (imageData !! imageKey img) as [data|] eqn:Hk.
    + rewrite <- (flat_map_contentOfImage_delete imageData _ (imageKey img)) by done.
      destruct (IH (delete (imageKey img) imageData) Hnodup) as [Hn Hb].
      rewrite (size_delete_Some _ _ _ Hk), (includedBytes_delete _ _ _ Hk).
      unfold mcp.NewImageContent. simpl. rewrite EncodeToString_length.
      unfold len. pose proof (Nat.Div0.mul_div_le (length data + 2) 3). lia.
    + destruct (IH imageData Hnodup). simpl. lia.
Qed.

(** X12.  The size of what is sent, when no two references share a key and
    the budget is not negative: [ImagesToMCPContent], given the references
    and the maps [DownloadImagesWithBudget] returned for them, builds at
    most [MaxImagesPerCall] items, and their base64 text is at most four
    thirds of the budget plus the padding of ten encodings.  (References
    that share a key are each sent with the bytes of the one entry, so
    neither bound holds for them.) *)
Theorem content_sent_is_bounded_by_budget
    `{SlackFileDownloader C} `{ImageCodec}
    (c : C) (images : list ImageInfo) (budget : Z) :
  NoDup (imageKey <$> images) → 0 <= budget →
  let st := DownloadImagesWithBudget c images budget in
  let content := ImagesToMCPContent images (imageData st) (mimeTypeOverrides st) in
  (length content ≤ MaxImagesPerCall)%nat
  ∧ 3 * payloadLength content <= 4 * budget + 8 * Z.of_nat MaxImagesPerCall.
Proof.
  intros Hnodup Hbudget st content. subst st content.
  rewrite ImagesToMCPContent_flat_map, DownloadImagesWithBudget_loop.
  set (st := budgetLoop budget (budgetInit c) (limitImages images)).
  destruct (content_within_map images (imageData st) (mimeTypeOverrides st) Hnodup)
    as [Hn Hb].
  destruct (accountInv_loop budget c (limitImages images)) as (Hcount & _).
  destruct (budgetInv_loop budget (limitImages images) (budgetInit c)
              (budgetInv_init budget c Hbudget)) as [Hcum Hinc].
  fold st in Hcount, Hcum, Hinc.
  pose proof (limitImages_length images). lia.
Qed.

Lemma content_sent_is_bounded_by_budget_witness :
  let st := @DownloadImagesWithBudget _ mock_GetFileContext stubCodec
              threeFiles threeImages 1500 in
  let content := ImagesToMCPContent threeImages (imageData st) (mimeTypeOverrides st) in
  NoDup (imageKey <$> threeImages) ∧ 0 <= 1500
  ∧ (length content ≤ MaxImagesPerCall)%nat
  ∧ 3 * payloadLength content <= 4 * 1500 + 8 * Z.of_nat MaxImagesPerCall.
Proof.
  intros st content.
  assert (NoDup (imageKey <$> threeImages)) as Hnodup
    by (apply (bool_decide_unpack _); vm_compute; exact I).
  assert (0 <= 1500) as Hbudget by lia.
  split; [exact Hnodup|]. split; [exact Hbudget|].
  exact (@content_sent_is_bounded_by_budget _ mock_GetFileContext stubCodec
           threeFiles threeImages 1500 Hnodup Hbudget).
Defined.

(** ** The download pool: channels, wait group, termination *)

Lemma fst_moved_task (ts : list (ImageInfo * taskPC)) (i : nat) (img : ImageInfo)
    (old new : taskPC) :
  ts !! i = Some (img, old) → (<[i := (img, new)]> ts).*1 = ts.*1.
Proof.
  intros Hi. rewrite list_fmap_insert. apply list_insert_id.
  by rewrite list_lookup_fmap, Hi.
Qed.

Lemma totalStepsLeft_app (ts ts' : list (ImageInfo * taskPC)) :
  totalStepsLeft (ts ++ ts') = (totalStepsLeft ts + totalStepsLeft ts')%nat.
Proof. induction ts as [|t ts IH]; simpl; [done|]. rewrite IH. lia. Qed.

Lemma totalStepsLeft_insert (ts : list (ImageInfo * taskPC)) (i : nat)
    (img : ImageInfo) (old new : taskPC) :
  ts !! i = Some (img, old) →
  (totalStepsLeft (<[i := (img, new)]> ts) + stepsLeft old
   = totalStepsLeft ts + stepsLeft new)%nat.
Proof.
  revert i. induction ts as [|t ts IH]; intros [|i] Hi; simpl in *; try done.
  - injection Hi as ->. simpl. lia.
  - specialize (IH i Hi). lia.
Qed.

(** A count that is not zero counts some goroutine. *)
Lemma countPC_exists (p : taskPC → bool) (ts : list (ImageInfo * taskPC)) :
  (1 <= countPC p ts)%nat → ∃ i img pc, ts !! i = Some (img, pc) ∧ p pc = true.
Proof.
  induction ts as [|[img pc] ts IH]; simpl; [lia|].
  destruct (p pc) eqn:Hp.
  - intros _. by exists O, img, pc.
  - intros Hc. destruct IH as (i & img' & pc' & Hi & Hp'); [lia|].
    by exists (S i), img', pc'.
Qed.

Lemma countPC_zero (p : taskPC → bool) (ts : list (ImageInfo * taskPC))
    (i : nat) (img : ImageInfo) (pc : taskPC) :
  countPC p ts = O → ts !! i = Some (img, pc) → p pc = false.
Proof.
  intros Hc Hi. destruct (p pc) eqn:Hp; [|done].
  pose proof (countPC_pos p ts i img pc Hi Hp). lia.
Qed.

Lemma countPC_all (p : taskPC → bool) (ts : list (ImageInfo * taskPC)) :
  (∀ i img pc, ts !! i = Some (img, pc) → p pc = true) →
  countPC p ts = length ts.
Proof.
  induction ts as [|[img pc] ts IH]; simpl; [done|]. intros Hall.
  rewrite (Hall O img pc eq_refl), IH; [done|].
  intros i img' pc' Hi. by apply (Hall (S i) img' pc').
Qed.

Lemma countPC_length (p : taskPC → bool) (ts : list (ImageInfo * taskPC)) :
  (countPC p ts <= length ts)%nat.
Proof. induction ts as [|[img pc] ts IH]; simpl; [done|]. destruct (p pc); lia. Qed.

Section PoolInvariants.
Context `{SlackFileDownloader C}.

Lemma poolStructInv_step (images : list ImageInfo) (s s' : poolState C) :
  poolStructInv images s → poolStep s s' → poolStructInv images s'.
Proof.
  intros (Himgs & Hwg & Hclosed & Hdl) Hstep. unfold poolStructInv.
  destruct Hstep as [s img rest Hp | s j img' Ht Hfree | s j img' Ht Hs
                    | s j img' Ht Hs | s j img' c' r Ht Hd | s j img' Ht
                    | s j img' Ht | s Hp Hw Hc | s result rest Hp Hr];
    cbn [tasks pending wg resultClosed]; unfold setTask;
    rewrite ?(fst_moved_task _ _ _ _ _ Ht).
  - split; [|split; [|split]].
    + rewrite fmap_app, <- app_assoc. simpl. by rewrite <- Hp.
    + rewrite countPC_app. simpl. lia.
    + intros Hc. destruct (Hclosed Hc) as [Hnil _]. by rewrite Hp in Hnil.
    + intros i img0 Hi. apply lookup_app_Some in Hi as [Hi | [_ Hi]]; [eauto|].
      by destruct (i - length (tasks s))%nat as [|[|?]].
  - split; [done|]. split; [|split; [done|]].
    + pose proof (countPC_insert notFinished _ _ _ _ Acquired Ht). simpl in *. lia.
    + intros i img0 Hi. moved_task Ht Hi. eauto.
  - split; [done|]. split; [|split; [done|]].
    + pose proof (countPC_insert notFinished _ _ _ _ Sent Ht). simpl in *. lia.
    + intros i img0 Hi. moved_task Ht Hi. eauto.
  - split; [done|]. split; [|split; [done|]].
    + pose proof (countPC_insert notFinished _ _ _ _ Downloading Ht). simpl in *. lia.
    + intros i img0 Hi. moved_task Ht Hi. eauto.
  - split; [done|]. split; [|split; [done|]].
    + pose proof (countPC_insert notFinished _ _ _ _ Sent Ht). simpl in *. lia.
    + intros i img0 Hi. moved_task Ht Hi. eauto.
  - split; [done|]. split; [|split; [done|]].
    + pose proof (countPC_insert notFinished _ _ _ _ Released Ht). simpl in *. lia.
    + intros i img0 Hi. moved_task Ht Hi. eauto.
  - pose proof (countPC_insert notFinished _ _ _ _ Finished Ht) as Hn.
    pose proof (countPC_pos notFinished _ _ _ _ Ht eq_refl) as Hpos.
    split; [done|]. split; [simpl in *; lia|]. split.
    + intros Hc. destruct (Hclosed Hc) as [_ Hz]. lia.
    + intros i img0 Hi. moved_task Ht Hi. eauto.
  - done.
  - done.
Qed.

Lemma poolStructInv_reachable (c : C) (images : list ImageInfo) (s : poolState C) :
  poolReachable c images s → poolStructInv images s.
Proof.
  induction 1 as [|s s' _ IH Hstep].
  - unfold poolStructInv, poolInit. simpl. by repeat split.
  - by apply (poolStructInv_step images s s').
Qed.

End PoolInvariants.

Section PoolResults.
Context `{SlackFileDownloader C}.

Lemma poolResultInv_step (images : list ImageInfo) (s s' : poolState C) :
  poolStructInv images s → poolResultInv s → poolStep s s' → poolResultInv s'.
Proof.
  intros (_ & _ & _ & Hdl) [(collected & Hcount & Hsize) Hprov] Hstep.
  unfold poolResultInv.
  destruct Hstep as [s img rest Hp | s j img' Ht Hfree | s j img' Ht Hs
                    | s j img' Ht Hs | s j img' c' r Ht Hd | s j img' Ht
                    | s j img' Ht | s Hp Hw Hc | s result rest Hp Hr];
    cbn [tasks poolWarnings resultChan poolImageData]; unfold setTask;
    rewrite ?(fst_moved_task _ _ _ _ _ Ht).
  - split.
    + exists collected. rewrite countPC_app. simpl. split; [lia|done].
    + intros k d Hk. destruct (Hprov k d Hk) as (? & ? & img0 & ? & ? & ?).
      split; [done|]. split; [done|]. exists img0. rewrite fmap_app, elem_of_app. auto.
  - split; [|done]. exists collected.
    pose proof (countPC_insert hasSent _ _ _ _ Acquired Ht). simpl in *.
    split; [lia|done].
  - split.
    + exists collected. rewrite length_app.
      pose proof (countPC_insert hasSent _ _ _ _ Sent Ht). simpl in *.
      split; [lia|done].
    + intros k d [Hk|Hk]; [by apply Hprov; left|].
      apply elem_of_app in Hk as [Hk|Hk]; [by apply Hprov; right|].
      by apply list_elem_of_singleton in Hk.
  - split; [|done]. exists collected.
    pose proof (countPC_insert hasSent _ _ _ _ Downloading Ht). simpl in *.
    split; [lia|done].
  - split.
    + exists collected. rewrite length_app.
      pose proof (countPC_insert hasSent _ _ _ _ Sent Ht). simpl in *.
      split; [lia|done].
    + intros k d [Hk|Hk]; [by apply Hprov; left|].
      apply elem_of_app in Hk as [Hk|Hk]; [by apply Hprov; right|].
      apply list_elem_of_singleton in Hk. destruct r as [data|cause]; [|done].
      simpl in Hk. injection Hk as -> ->.
      destruct (DownloadImage_Ok _ _ _ _ Hd) as [Hvalid Hlen].
      split; [done|]. split; [done|]. exists img'. split; [|by eauto].
      apply (list_elem_of_fmap_2 fst (tasks s) (img', Downloading)).
      by eapply list_elem_of_lookup_2.
  - split; [|done]. exists collected.
    pose proof (countPC_insert hasSent _ _ _ _ Released Ht). simpl in *.
    split; [lia|done].
  - split; [|done]. exists collected.
    pose proof (countPC_insert hasSent _ _ _ _ Finished Ht). simpl in *.
    split; [lia|done].
  - split; [by exists collected|done].
  - rewrite Hr in Hcount, Hprov. simpl in Hcount.
    destruct result as [k0 d0 [cause|]]; simpl.
    + split.
      * exists collected. rewrite length_app. simpl. split; [lia|done].
      * intros k d [Hk|Hk]; apply Hprov; [by left|right]. by apply list_elem_of_further.
    + split.
      * exists (S collected). split; [lia|].
        pose proof (map_size_insert k0 d0 (poolImageData s)) as Hs.
        destruct (poolImageData s !! k0); simpl in Hs; lia.
      * intros k d [Hk|Hk].
        -- destruct (decide (k = k0)) as [->|Hne].
           ++ rewrite lookup_insert_eq in Hk. injection Hk as <-.
              apply Hprov. right. apply list_elem_of_here.
           ++ rewrite lookup_insert_ne in Hk by done. apply Hprov. by left.
        -- apply Hprov. right. by apply list_elem_of_further.
Qed.

Lemma poolResultInv_reachable (c : C) (images : list ImageInfo) (s : poolState C) :
  poolReachable c images s → poolResultInv s.
Proof.
  induction 1 as [|s s' Hreach IH Hstep].
  - unfold poolResultInv, poolInit. simpl. split.
    + exists O. by rewrite map_size_empty.
    + intros k d [Hk|Hk]; [by rewrite lookup_empty in Hk|by apply not_elem_of_nil in Hk].
  - apply (poolResultInv_step images s s'); [|done..].
    by apply (poolStructInv_reachable c).
Qed.

Lemma poolMeasure_step (s s' : poolState C) :
  poolStep s s' → (poolMeasure s' < poolMeasure s)%nat.
Proof.
  intros Hstep. unfold poolMeasure.
  destruct Hstep as [s img rest Hp | s j img' Ht Hfree | s j img' Ht Hs
                    | s j img' Ht Hs | s j img' c' r Ht Hd | s j img' Ht
                    | s j img' Ht | s Hp Hw Hc | s result rest Hp Hr];
    cbn [tasks pending resultChan resultClosed]; unfold setTask;
    rewrite ?length_app.
  - rewrite Hp, totalStepsLeft_app. simpl. lia.
  - pose proof (totalStepsLeft_insert _ _ _ _ Acquired Ht). simpl in *. lia.
  - pose proof (totalStepsLeft_insert _ _ _ _ Sent Ht). simpl in *. lia.
  - pose proof (totalStepsLeft_insert _ _ _ _ Downloading Ht). simpl in *. lia.
  - pose proof (totalStepsLeft_insert _ _ _ _ Sent Ht). simpl in *. lia.
  - pose proof (totalStepsLeft_insert _ _ _ _ Released Ht). simpl in *. lia.
  - pose proof (totalStepsLeft_insert _ _ _ _ Finished Ht). simpl in *. lia.
  - rewrite Hc. lia.
  - rewrite Hr. simpl. lia.
Qed.

Lemma poolTrace_length (s : poolState C) (trace : list (poolState C)) :
  poolTrace s trace → (length trace <= poolMeasure s)%nat.
Proof.
  revert s. induction trace as [|s' trace IH]; intros s; simpl; [lia|].
  intros [Hstep Htrace]. specialize (IH s' Htrace).
  pose proof (poolMeasure_step s s' Hstep). lia.
Qed.

End PoolResults.

Section PoolSchedules.
Context `{SlackFileDownloader C}.

Lemma poolStates_trace (s : poolState C) (schedule : list poolAction) :
  poolTrace s (poolStates s schedule).
Proof.
  revert s. induction schedule as [|a schedule IH]; intros s; simpl; [done|].
  destruct (poolExec s a) as [s'|] eqn:He; simpl; [|done].
  split; [by apply (poolExec_step s s' a)|apply IH].
Qed.

End PoolSchedules.

(** X13.  In every state an invocation of
    [DownloadImagesWithConcurrencyLimit] can reach: the goroutines started
    and the references still to start are the first ten references; the
    results waiting in [resultChan] never exceed its capacity, the number
    of these references, so no send on it blocks; once [resultChan] is
    closed every goroutine is done, so none is left to send on the closed
    channel; a goroutine about to run its deferred receive finds a token
    in [semaphore], and one about to run [wg.Done()] finds the counter
    above zero. *)
Theorem pool_channels_and_wait_group_are_safe `{SlackFileDownloader C}
    (c : C) (images : list ImageInfo) (s : poolState C) :
  poolReachable c images s →
  (tasks s).*1 ++ pending s = take MaxImagesPerCall images
  ∧ (length (resultChan s) ≤ length (take MaxImagesPerCall images))%nat
  ∧ (resultClosed s = true →
     pending s = [] ∧ ∀ i img pc, tasks s !! i = Some (img, pc) → pc = Finished)
  ∧ (∀ i img, tasks s !! i = Some (img, Sent) → (1 ≤ semaphore s)%nat)
  ∧ (∀ i img, tasks s !! i = Some (img, Released) → (1 ≤ wg s)%nat).
Proof.
  intros Hreach.
  destruct (poolStructInv_reachable c images s Hreach) as (Himgs & Hwg & Hclosed & _).
  destruct (poolResultInv_reachable c images s Hreach)
    as [(collected & Hcount & _) _].
  destruct (poolInv_reachable c images s Hreach) as [Hsem _].
  rewrite <- limitImages_take. split; [done|]. split.
  { rewrite <- Himgs, length_app, length_fmap.
    pose proof (countPC_length hasSent (tasks s)). lia. }
  split.
  { intros Hc. destruct (Hclosed Hc) as [Hp Hz]. split; [done|].
    intros i img pc Hi. rewrite Hwg in Hz.
    pose proof (countPC_zero notFinished _ _ _ _ Hz Hi). by destruct pc. }
  split.
  - intros i img Hi. rewrite Hsem. by apply (countPC_pos holdsSlot _ i img Sent).
  - intros i img Hi. rewrite Hwg. by apply (countPC_pos notFinished _ i img Released).
Qed.

Lemma pool_channels_and_wait_group_are_safe_witness :
  poolReachable threeFiles fourImages stateThreeInFlight
  ∧ (tasks stateThreeInFlight).*1 ++ pending stateThreeInFlight
    = take MaxImagesPerCall fourImages.
Proof.
  assert (poolReachable threeFiles fourImages stateThreeInFlight) as Hreach.
  { apply (poolRun_reachable threeFiles fourImages threeInFlight
             (poolInit threeFiles fourImages)); [apply reach_init|].
    by vm_compute. }
  split; [exact Hreach|].
  exact (proj1 (pool_channels_and_wait_group_are_safe threeFiles fourImages
                  stateThreeInFlight Hreach)).
Defined.

(** X14.  The pool does not deadlock: in every state an invocation can
    reach, either some goroutine, the closer or the collector can take a
    step, or the invocation is over: every goroutine is done and
    [resultChan] is closed and drained.  A download is one step of the
    model: each call of the downloader is taken to return. *)
Theorem pool_never_deadlocks `{SlackFileDownloader C}
    (c : C) (images : list ImageInfo) (s : poolState C) :
  poolReachable c images s →
  poolFinal s ∨ ∃ s', poolStep s s'.
Proof.
  intros Hreach.
  destruct (poolStructInv_reachable c images s Hreach) as (_ & Hwg & _ & _).
  destruct (poolInv_reachable c images s Hreach) as [Hsem Hcap].
  destruct (pending s) as [|img rest] eqn:Hp;
    [|right; eexists; by apply (step_spawn s img rest)].
  destruct (countPC holdsSlot (tasks s)) as [|n] eqn:Hslots.
  - destruct (countPC (λ pc, bool_decide (pc = Spawned)) (tasks s)) as [|n] eqn:Hsp.
    + destruct (countPC (λ pc, bool_decide (pc = Released)) (tasks s)) as [|n] eqn:Hrl.
      * assert (∀ i img pc, tasks s !! i = Some (img, pc) → pc = Finished) as Hall.
        { intros i img pc Hi.
          pose proof (countPC_zero _ _ _ _ _ Hslots Hi) as H1.
          pose proof (countPC_zero _ _ _ _ _ Hsp Hi) as H2.
          pose proof (countPC_zero _ _ _ _ _ Hrl Hi) as H3.
          by destruct pc. }
        assert (wg s = O) as Hz.
        { rewrite Hwg. destruct (countPC notFinished (tasks s)) eqn:Hn; [done|].
          destruct (countPC_exists notFinished (tasks s)) as (i & img & pc & Hi & Hpc);
            [lia|]. by rewrite (Hall i img pc Hi) in Hpc. }
        destruct (resultClosed s) eqn:Hc;
          [|right; eexists; by apply (step_close s)].
        destruct (resultChan s) as [|result rest] eqn:Hr;
          [by left|right; eexists; by apply (step_collect s result rest)].
      * destruct (countPC_exists (λ pc, bool_decide (pc = Released)) (tasks s))
          as (i & img & pc & Hi & Hpc); [rewrite Hrl; lia|].
        apply bool_decide_eq_true in Hpc as ->.
        right. eexists. by apply (step_done s i img).
    + destruct (countPC_exists (λ pc, bool_decide (pc = Spawned)) (tasks s))
        as (i & img & pc & Hi & Hpc); [rewrite Hsp; lia|].
      apply bool_decide_eq_true in Hpc as ->.
      right. eexists. apply (step_acquire s i img); [done|].
      unfold MaxConcurrentDownloads. lia.
  - destruct (countPC_exists holdsSlot (tasks s)) as (i & img & pc & Hi & Hpc);
      [lia|].
    right. destruct pc; try discriminate.
    + destruct (Z.lt_ge_cases MaxImageSize (Size img)).
      * eexists. by apply (step_too_large s i img).
      * eexists. by apply (step_start s i img).
    + destruct (DownloadImage (poolClient s) (URL img)) as [c' r] eqn:Hd.
      eexists. by apply (step_complete s i img c' r).
    + eexists. by apply (step_release s i img).
Qed.

Lemma pool_never_deadlocks_witness :
  poolReachable threeFiles fourImages stateThreeInFlight
  ∧ (poolFinal stateThreeInFlight ∨ ∃ s', poolStep stateThreeInFlight s').
Proof.
  assert (poolReachable threeFiles fourImages stateThreeInFlight) as Hreach.
  { apply (poolRun_reachable threeFiles fourImages threeInFlight
             (poolInit threeFiles fourImages)); [apply reach_init|].
    by vm_compute. }
  split; [exact Hreach|].
  exact (pool_never_deadlocks threeFiles fourImages stateThreeInFlight Hreach).
Defined.

(** X15.  The pool terminates, each call of the downloader being taken to
    return: every run of an invocation, whatever the interleaving, takes
    at most seven steps for each of the first ten references and one more,
    so at most 71 steps.  With X14, every run that goes on as long as a
    step can be taken ends with all goroutines done and the collector's
    loop ended. *)
Theorem pool_runs_are_bounded `{SlackFileDownloader C}
    (c : C) (images : list ImageInfo) (trace : list (poolState C)) :
  poolTrace (poolInit c images) trace →
  (length trace ≤ 7 * length (take MaxImagesPerCall images) + 1 ≤ 71)%nat.
Proof.
  intros Htrace. apply poolTrace_length in Htrace.
  unfold poolMeasure, poolInit in Htrace. simpl in Htrace.
  rewrite <- limitImages_take. pose proof (limitImages_length images).
  unfold MaxImagesPerCall in *. lia.
Qed.

(** A run on four references that takes all of the 29 steps the bound
    allows. *)
Lemma pool_runs_are_bounded_witness :
  let trace := poolStates (poolInit threeFiles fourImages) fullSchedule in
  poolTrace (poolInit threeFiles fourImages) trace
  ∧ length trace = 29%nat
  ∧ (length trace ≤ 7 * length (take MaxImagesPerCall fourImages) + 1 ≤ 71)%nat.
Proof.
  intros trace.
  assert (poolTrace (poolInit threeFiles fourImages) trace) as Htrace
    by apply poolStates_trace.
  split; [exact Htrace|]. split; [by vm_compute|].
  exact (pool_runs_are_bounded threeFiles fourImages trace Htrace).
Defined.

(** ** The download pool: each reference gives one outcome *)

Lemma okKeys_app (results results' : list imageDownloadResult) :
  okKeys (results ++ results') = okKeys results ++ okKeys results'.
Proof. unfold okKeys. by rewrite flat_map_app. Qed.

(** With [NoDup] keys, a key names one goroutine. *)
Lemma task_keys_inj (ts : list (ImageInfo * taskPC)) (i j : nat)
    (img img' : ImageInfo) (pc pc' : taskPC) :
  NoDup (imageKey <$> ts.*1) →
  ts !! i = Some (img, pc) → ts !! j = Some (img', pc') →
  imageKey img = imageKey img' → i = j.
Proof.
  intros Hnodup Hi Hj Heq.
  apply (NoDup_lookup _ i j (imageKey img) Hnodup).
  - by rewrite !list_lookup_fmap, Hi.
  - by rewrite !list_lookup_fmap, Hj, Heq.
Qed.

(** A goroutine that has sent stays one that has sent. *)
Lemma sender_moved_task (ts : list (ImageInfo * taskPC)) (j : nat) (img : ImageInfo)
    (old new : taskPC) (k : string) :
  ts !! j = Some (img, old) →
  (hasSent old = true → hasSent new = true) →
  (∃ i img0 pc, ts !! i = Some (img0, pc) ∧ hasSent pc = true ∧ imageKey img0 = k) →
  ∃ i img0 pc, <[j := (img, new)]> ts !! i = Some (img0, pc) ∧ hasSent pc = true
               ∧ imageKey img0 = k.
Proof.
  intros Hj Hmono (i & img0 & pc & Hi & Hpc & Hk).
  destruct (decide (i = j)) as [->|Hne].
  - rewrite Hj in Hi. injection Hi as <- <-. exists j, img, new.
    rewrite list_lookup_insert_eq by (by eapply lookup_lt_Some). auto.
  - exists i, img0, pc. by rewrite list_lookup_insert_ne.
Qed.

Section PoolExact.
Context `{SlackFileDownloader C}.

Lemma poolExactInv_step (images : list ImageInfo) (s s' : poolState C) :
  NoDup (imageKey <$> limitImages images) →
  poolStructInv images s → poolExactInv s → poolStep s s' → poolExactInv s'.
Proof.
  intros Hnodup (Himgs & _ & _ & _) (Hcount & Hnd & Hdisj & Hprov) Hstep.
  assert (NoDup (imageKey <$> (tasks s).*1)) as Hkeys.
  { rewrite <- Himgs, fmap_app in Hnodup. by apply NoDup_app in Hnodup as (? & _). }
  unfold poolExactInv.
  destruct Hstep as [s img rest Hp | s j img' Ht Hfree | s j img' Ht Hs
                    | s j img' Ht Hs | s j img' c' r Ht Hd | s j img' Ht
                    | s j img' Ht | s Hp Hw Hc | s result rest Hp Hr];
    cbn [tasks poolWarnings resultChan poolImageData]; unfold setTask.
  - split; [rewrite countPC_app; simpl; lia|]. split; [done|]. split; [done|].
    intros k Hk. destruct (Hprov k Hk) as (i & img0 & pc & Hi & ? & ?).
    exists i, img0, pc. split; [by apply lookup_app_l_Some|done].
  - pose proof (countPC_insert hasSent _ _ _ _ Acquired Ht). simpl in *.
    split; [lia|]. split; [done|]. split; [done|].
    intros k Hk. by apply (sender_moved_task _ _ _ Spawned), Hprov.
  - pose proof (countPC_insert hasSent _ _ _ _ Sent Ht). simpl in *.
    rewrite length_app, okKeys_app. simpl. rewrite app_nil_r.
    split; [lia|]. split; [done|]. split; [done|].
    intros k Hk. by apply (sender_moved_task _ _ _ Acquired), Hprov.
  - pose proof (countPC_insert hasSent _ _ _ _ Downloading Ht). simpl in *.
    split; [lia|]. split; [done|]. split; [done|].
    intros k Hk. by apply (sender_moved_task _ _ _ Acquired), Hprov.
  - pose proof (countPC_insert hasSent _ _ _ _ Sent Ht) as Hn. simpl in Hn.
    rewrite length_app, okKeys_app.
    assert (¬ (is_Some (poolImageData s !! imageKey img')
               ∨ imageKey img' ∈ okKeys (resultChan s))) as Hfresh.
    { intros Hk. destruct (Hprov _ Hk) as (i & img0 & pc & Hi & Hpc & Heq).
      pose proof (task_keys_inj _ _ _ _ _ _ _ Hkeys Hi Ht Heq) as ->.
      rewrite Ht in Hi. by injection Hi as <- <-. }
    destruct r as [data|cause];
      [change (okKeys [resultOf img' (Ok data)]) with [imageKey img']
      |change (okKeys [resultOf img' (Fail cause)]) with (@nil string);
       rewrite app_nil_r]; cbn [length].
    + split; [lia|]. split.
      { apply NoDup_app. split; [done|]. split; [|apply NoDup_singleton].
        intros k Hk ->%list_elem_of_singleton. apply Hfresh. by right. }
      split.
      * intros k [Hk| ->%list_elem_of_singleton]%elem_of_app; [by apply Hdisj|].
        destruct (poolImageData s !! imageKey img') eqn:Hm; [|done].
        destruct Hfresh. left. by eexists.
      * intros k [Hk|[Hk| ->%list_elem_of_singleton]%elem_of_app].
        -- apply (sender_moved_task _ _ _ Downloading); [done..|]. apply Hprov. by left.
        -- apply (sender_moved_task _ _ _ Downloading); [done..|]. apply Hprov. by right.
        -- exists j, img', Sent.
           rewrite list_lookup_insert_eq by (by eapply lookup_lt_Some). auto.
    + split; [lia|]. split; [done|]. split; [done|].
      intros k Hk. by apply (sender_moved_task _ _ _ Downloading), Hprov.
  - pose proof (countPC_insert hasSent _ _ _ _ Released Ht). simpl in *.
    split; [lia|]. split; [done|]. split; [done|].
    intros k Hk. by apply (sender_moved_task _ _ _ Sent), Hprov.
  - pose proof (countPC_insert hasSent _ _ _ _ Finished Ht). simpl in *.
    split; [lia|]. split; [done|]. split; [done|].
    intros k Hk. by apply (sender_moved_task _ _ _ Released), Hprov.
  - done.
  - rewrite Hr in Hcount, Hnd, Hdisj, Hprov. simpl in Hcount.
    destruct result as [k0 d0 [cause|]]; simpl in *.
    + rewrite length_app. simpl. split; [lia|]. split; [done|]. split; [done|done].
    + apply NoDup_cons in Hnd as [Hk0 Hnd].
      assert (poolImageData s !! k0 = None) as Hnone
        by apply Hdisj, list_elem_of_here.
      rewrite map_size_insert_None by done. split; [lia|]. split; [done|]. split.
      * intros k Hk. rewrite lookup_insert_ne by (by intros <-).
        by apply Hdisj, list_elem_of_further.
      * intros k [Hk|Hk]; apply Hprov.
        -- destruct (decide (k = k0)) as [->|Hne]; [right; apply list_elem_of_here|].
           left. by rewrite lookup_insert_ne in Hk.
        -- right. by apply list_elem_of_further.
Qed.

Lemma poolExactInv_reachable (c : C) (images : list ImageInfo) (s : poolState C) :
  NoDup (imageKey <$> limitImages images) →
  poolReachable c images s → poolExactInv s.
Proof.
  intros Hnodup. induction 1 as [|s s' Hreach IH Hstep].
  - unfold poolExactInv, poolInit. simpl. rewrite map_size_empty.
    split; [done|]. split; [apply NoDup_nil_2|]. split; [done|].
    intros k [Hk|Hk]; [|by apply not_elem_of_nil in Hk].
    rewrite lookup_empty in Hk. by destruct Hk.
  - apply (poolExactInv_step images s s'); [done| |done..].
    by apply (poolStructInv_reachable c).
Qed.

End PoolExact.

(** X16.  What [DownloadImagesWithConcurrencyLimit] returns.  In every
    state the pool can reach, the bytes in the map passed the checks of
    [DownloadImage] (magic bytes, at most [MaxImageSize]) and are stored
    under the key of one of the first ten references, one that declares a
    size within the limit; the entries and the warnings together are never
    more than these references.  When the invocation is over and no two of
    these references share a key, every one of them has given exactly one
    entry or one warning. *)
Theorem pool_gives_one_outcome_per_reference `{SlackFileDownloader C}
    (c : C) (images : list ImageInfo) (s : poolState C) :
  poolReachable c images s →
  let considered := take MaxImagesPerCall images in
  (∀ k data, poolImageData s !! k = Some data →
     isValidImageData data = true ∧ len data <= MaxImageSize
     ∧ ∃ img, img ∈ considered ∧ imageKey img = k ∧ Size img <= MaxImageSize)
  ∧ (size (poolImageData s) + length (poolWarnings s) ≤ length considered)%nat
  ∧ (poolFinal s → NoDup (imageKey <$> considered) →
     (size (poolImageData s) + length (poolWarnings s) = length considered)%nat).
Proof.
  intros Hreach considered. subst considered. rewrite <- limitImages_take.
  destruct (poolStructInv_reachable c images s Hreach) as (Himgs & _ & _ & _).
  destruct (poolResultInv_reachable c images s Hreach)
    as [(collected & Hcount & Hsize) Hprov].
  pose proof (countPC_length hasSent (tasks s)) as Hle.
  assert (length (tasks s) + length (pending s) = length (limitImages images))%nat
    as Hlen by (by rewrite <- Himgs, length_app, length_fmap).
  split; [|split].
  - intros k data Hk.
    destruct (Hprov k data (or_introl Hk)) as (? & ? & img & Hin & ? & ?).
    split; [done|]. split; [done|]. exists img. split; [|done].
    rewrite <- Himgs, elem_of_app. by left.
  - lia.
  - intros (Hp & Hall & Hchan & _) Hnodup.
    destruct (poolExactInv_reachable c images s Hnodup Hreach) as (Hexact & _).
    rewrite Hchan in Hexact. rewrite Hp in Hlen. simpl in *.
    rewrite (countPC_all hasSent (tasks s)) in Hexact; [lia|].
    intros i img pc Hi. by rewrite (Hall i img pc Hi).
Qed.

(** The run of [fullSchedule]: three entries and the warning for the
    fourth reference, whose file the downloader does not have. *)
Lemma pool_gives_one_outcome_per_reference_witness :
  let s := default (poolInit threeFiles fourImages)
             (poolRun (poolInit threeFiles fourImages) fullSchedule) in
  poolReachable threeFiles fourImages s
  ∧ poolFinal s
  ∧ NoDup (imageKey <$> take MaxImagesPerCall fourImages)
  ∧ size (poolImageData s) = 3%nat
  ∧ (size (poolImageData s) + length (poolWarnings s)
     = length (take MaxImagesPerCall fourImages))%nat.
Proof.
  intros s.
  assert (poolReachable threeFiles fourImages s) as Hreach.
  { apply (poolRun_reachable threeFiles fourImages fullSchedule
             (poolInit threeFiles fourImages)); [apply reach_init|].
    by vm_compute. }
  assert (poolFinal s) as Hfinal.
  { split; [by vm_compute|]. split; [|split; by vm_compute].
    intros i img pc. vm_compute.
    destruct i as [|[|[|[|i]]]]; intros [=]; by subst. }
  assert (NoDup (imageKey <$> take MaxImagesPerCall fourImages)) as Hnodup
    by (apply (bool_decide_unpack _); vm_compute; exact I).
  split; [exact Hreach|]. split; [exact Hfinal|]. split; [exact Hnodup|].
  split; [by vm_compute|].
  exact (proj2 (proj2 (pool_gives_one_outcome_per_reference threeFiles fourImages
                         s Hreach)) Hfinal Hnodup).
Defined.

(** ** The tool that fetches one image *)

(** X17.  [GetImageHandler] asks the downloader for at most one URL, and
    only after every check has passed: read off a client that records its
    calls, either nothing is fetched, or the one URL fetched is the
    download URL of the file that Slack describes under the given ID, the
    ID is not empty, the tokens allow downloads, the file's type is a
    supported image type, the URL's host is an allowed one, and the
    declared size is within [MaxImageSize]. *)
Theorem GetImageHandler_downloads_only_checked_files
    `{ApiProvider P} `{SlackFileDownloader P} `{Parser} `{ImageCodec}
    (p : P) (log0 : list string) (fileID : string) :
  let log := (@GetImageHandler _ recording_ApiProvider recording_GetFileContext _ _
                (p, log0) fileID).1.2 in
  log = log0
  ∨ ∃ file, (GetFileInfoContext p fileID).2 = Ok file
      ∧ log = log0 ++ [downloadURLOf file]
      ∧ fileID ≠ "" ∧ CanDownloadFiles p = true
      ∧ isImageMimeType (slack.Mimetype file) = true
      ∧ isAllowedImageHost (downloadURLOf file) = true
      ∧ slack.Size file <= MaxImageSize.
Proof.
  intros log. subst log. unfold GetImageHandler.
  destruct (String.eqb_spec fileID "") as [->|Hid]; [by left|].
  cbn [CanDownloadFiles GetFileInfoContext recording_ApiProvider fst snd].
  destruct (CanDownloadFiles p) eqn:Hcan; cbn [negb]; [|by left].
  destruct (GetFileInfoContext p fileID) as [p1 [file|cause]] eqn:Hinfo; [|by left].
  destruct (isImageMimeType (slack.Mimetype file)) eqn:Htype; cbn [negb]; [|by left].
  fold (downloadURLOf file).
  destruct (String.eqb_spec (downloadURLOf file) "") as [Hurl|Hurl]; [by left|].
  destruct (isAllowedImageHost (downloadURLOf file)) eqn:Hhost; cbn [negb]; [|by left].
  destruct (Z.ltb_spec MaxImageSize (slack.Size file)) as [Hbig|Hsmall]; [by left|].
  right. exists file.
  pose proof (DownloadImage_recording (p1, log0) (downloadURLOf file)) as Hlog.
  destruct (@DownloadImage _ recording_GetFileContext (p1, log0) (downloadURLOf file))
    as [pl [data|cause]]; simpl in Hlog |- *; by rewrite Hlog.
Qed.

(** X18.  What [GetImageHandler] returns.  Without a file ID it returns
    the error that asks for one and calls nothing.  An error result holds
    one text item.  Any other result holds two items for the file that
    Slack describes under the ID: a text item with the file's name, the
    number of bytes sent and their type, and an image item with the base64
    encoding of these bytes under that type; the bytes are what the
    downloader returned, checked by [DownloadImage], under the file's own
    type, or a JPEG encoding of them under [image/jpeg], made only for a
    file of type [image/png] and over [MaxInlineImageBudget] only at the
    lowest quality. *)
Theorem GetImageHandler_result
    `{ApiProvider P} `{SlackFileDownloader P} `{Parser} `{ImageCodec}
    (p : P) (fileID : string) :
  let res := (GetImageHandler p fileID).2 in
  (fileID = "" →
   GetImageHandler p fileID = (p, mcp.NewToolResultError errFileIDRequired))
  ∧ (mcp.IsError res = true → ∃ message, mcp.Content_ res = [mcp.TextContent message])
  ∧ (mcp.IsError res = false →
     ∃ file data mimeType,
       (GetFileInfoContext p fileID).2 = Ok file
       ∧ mcp.Content_ res
         = [mcp.TextContent (imageSummary file data mimeType);
            mcp.ImageContent (base64.EncodeToString data) mimeType]
       ∧ ((mimeType = slack.Mimetype file ∧ isValidImageData data = true
           ∧ len data <= MaxImageSize)
          ∨ (mimeType = "image/jpeg" ∧ slack.Mimetype file = "image/png"
             ∧ ∃ raw quality,
                 isValidImageData raw = true ∧ quality ∈ qualities
                 ∧ compressPNGToJPEG raw quality = Some data
                 ∧ (len data <= MaxInlineImageBudget ∨ quality = MinJPEGQuality)))).
Proof.
  intros res. subst res. unfold GetImageHandler.
  destruct (String.eqb_spec fileID "") as [->|Hid].
  { split; [done|]. split; [by eexists|done]. }
  split; [done|].
  destruct (CanDownloadFiles p); cbn [negb]; [|split; [by eexists|done]].
  destruct (GetFileInfoContext p fileID) as [p1 [file|cause]];
    [|split; [by eexists|done]].
  destruct (isImageMimeType (slack.Mimetype file)); cbn [negb];
    [|split; [by eexists|done]].
  fold (downloadURLOf file).
  destruct (String.eqb_spec (downloadURLOf file) ""); [split; [by eexists|done]|].
  destruct (isAllowedImageHost (downloadURLOf file)); cbn [negb];
    [|split; [by eexists|done]].
  destruct (Z.ltb_spec MaxImageSize (slack.Size file)); [split; [by eexists|done]|].
  destruct (DownloadImage p1 (downloadURLOf file)) as [p2 [raw|cause]] eqn:Hdl;
    [|split; [by eexists|done]].
  cbv zeta. cbn [snd mcp.IsError mcp.Content_]. split; [done|]. intros _.
  destruct (DownloadImage_Ok _ _ _ _ Hdl) as [Hvalid Hlen].
  exists file.
  destruct (CompressImageIfNeeded_cases raw (slack.Mimetype file) MaxInlineImageBudget)
    as [->|(Hpng & q & c & Hq & Hc & Hok & ->)];
    cbn [Data ResultMimeType unchanged converted].
  - exists raw, (slack.Mimetype file). split; [done|]. split; [done|]. by left.
  - exists c, "image/jpeg". split; [done|]. split; [done|]. right.
    split; [done|]. split; [done|]. by exists raw, q.
Qed.

(** The file [F001] of the examples, a PNG of 1000 bytes, is sent as the
    JPEG the codec of the examples makes of it at quality 80. *)
Example GetImageHandler_sends_F001 :
  let jpeg := [xff; xd8; xff] ++ replicate 793 x00 in
  (@GetImageHandler _ mock_ApiProvider mockProvider_GetFileContext NetURL.go stubCodec
     providerF001 "F001").2
  = mcp.mkCallToolResult
      [mcp.TextContent (imageSummary fileF001 jpeg "image/jpeg");
       mcp.ImageContent (base64.EncodeToString jpeg) "image/jpeg"] false.
Proof. by vm_compute. Qed.

(** ** The team context: entries and references *)

Lemma TrimSpace_fixed_head (s : string) :
  GoStrings.TrimSpace s = s →
  match s with
  | EmptyString => True
  | String c _ => Ascii.is_space c = false
  end.
Proof.
  unfold GoStrings.TrimSpace. intros Hs.
  pose proof (TrimLeftSpace_head s) as Hh.
  destruct (GoStrings.TrimLeftSpace s) as [|c t]; [by rewrite <- Hs|].
  destruct (TrimRightSpace_head c t Hh) as [t' Ht']. by rewrite <- Hs, Ht'.
Qed.

Lemma TrimSpace_fixed_left (s : string) :
  GoStrings.TrimSpace s = s → GoStrings.TrimLeftSpace s = s.
Proof.
  intros Hs. pose proof (TrimSpace_fixed_head s Hs) as Hh.
  destruct s as [|c t]; [done|]. by apply TrimLeftSpace_no_head.
Qed.











(** ** The team context: the text built *)

Lemma resolveChannelInput_found (input : string) (channelsMap : provider.ChannelsCache)
    (id displayName : string) :
  resolveChannelInput input channelsMap = (id, displayName, true) →
  is_Some (provider.channel channelsMap id).
Proof.
  unfold resolveChannelInput. cbv zeta.
  repeat match goal with
         | |- context [if ?b then _ else _] => destruct b
         | |- context [match ?o with Some _ => _ | None => _ end] =>
             let Ho := fresh "Ho" in destruct o eqn:Ho
         end; intros [= <- <-]; by eexists.
Qed.

Lemma resolveUserInput_found (input : string) (usersMap : provider.UsersCache)
    (id displayName : string) :
  resolveUserInput input usersMap = (id, displayName, true) →
  is_Some (provider.user usersMap id).
Proof.
  unfold resolveUserInput. cbv zeta.
  repeat match goal with
         | |- context [if ?b then _ else _] => destruct b
         | |- context [match ?o with Some _ => _ | None => _ end] =>
             let Ho := fresh "Ho" in destruct o eqn:Ho
         end; intros [= <- <-]; by eexists.
Qed.

(** An entry that is not blank gives one line: a channel reported as found
    is in the cache. *)
Lemma channelEntryLines_length (channelsMap : provider.ChannelsCache) (entry : string) :
  length (channelEntryLines channelsMap entry)
  = if String.eqb (GoStrings.TrimSpace entry) "" then O else 1%nat.
Proof.
  unfold channelEntryLines. cbv zeta.
  destruct (String.eqb (GoStrings.TrimSpace entry) ""); [done|].
  destruct (parseAliasEntry (GoStrings.TrimSpace entry)) as [alias channelRef].
  destruct (resolveChannelInput channelRef channelsMap) as [[id name] [|]] eqn:Hres;
    [|done].
  destruct (resolveChannelInput_found _ _ _ _ Hres) as [ch ->].
  by destruct (negb (String.eqb alias "")).
Qed.

Lemma userEntryLines_length (usersMap : provider.UsersCache)
    (channelsMap : option provider.ChannelsCache) (entry : string) :
  length (userEntryLines usersMap channelsMap entry)
  = if String.eqb (GoStrings.TrimSpace entry) "" then O else 1%nat.
Proof.
  unfold userEntryLines. cbv zeta.
  destruct (String.eqb (GoStrings.TrimSpace entry) ""); [done|].
  destruct (parseAliasEntry (GoStrings.TrimSpace entry)) as [alias userRef].
  destruct (resolveUserInput userRef usersMap) as [[id name] [|]] eqn:Hres; [|done].
  destruct (resolveUserInput_found _ _ _ _ Hres) as [u ->].
  repeat match goal with |- context [if ?b then _ else _] => destruct b end; done.
Qed.

Lemma length_entry_lines (f : string → list string) (entries : list string) :
  (∀ entry, length (f entry)
            = if String.eqb (GoStrings.TrimSpace entry) "" then O else 1%nat) →
  length (flat_map f entries)
  = length (filter (λ entry, GoStrings.TrimSpace entry ≠ "") entries).
Proof.
  intros Hf. induction entries as [|entry entries IH]; simpl; [done|].
  rewrite length_app, Hf, IH.
  destruct (String.eqb_spec (GoStrings.TrimSpace entry) "") as [He|He].
  - by rewrite filter_cons_False by (by intros ?).
  - by rewrite filter_cons_True.
Qed.

(** X22.  [GetTeamContextHandler] leaves no configured entry out.  It
    returns an error in these cases only: the readiness check fails or
    says not ready, channels are configured and the channel cache or its
    map is nil, users are configured and the user cache or its map is
    nil.  Otherwise it returns one text item, the lines of which are: the
    title; for a configured list, two lines of heading, one line for
    every entry of the list that is not blank (the resolved channel or
    user, or the warning that it was not found) and an empty line; then
    the five lines of guidelines, or one line when nothing is
    configured. *)
Theorem GetTeamContextHandler_one_line_per_entry
    (ready : outcome bool) (priorityChannels priorityUsers teamName : string)
    (channelsMap : option provider.ChannelsCache)
    (usersMap : option provider.UsersCache) :
  let result := GetTeamContextHandler ready priorityChannels priorityUsers teamName
                  channelsMap usersMap in
  (mcp.IsError result = true ↔
   ready ≠ Ok true
   ∨ (priorityChannels ≠ "" ∧ channelsMap ≫= provider.Channels = None)
   ∨ (priorityUsers ≠ "" ∧ usersMap ≫= provider.Users = None))
  ∧ (mcp.IsError result = false →
     ∃ contextParts,
       teamContextParts priorityChannels priorityUsers teamName channelsMap usersMap
       = Ok contextParts
       ∧ mcp.Content_ result
         = [mcp.TextContent (GoStringsMore.Join contextParts newline)]
       ∧ length contextParts
         = (1 + (if String.eqb priorityChannels "" then 0
                 else 3 + length (entriesOf priorityChannels))
            + (if String.eqb priorityUsers "" then 0
               else 3 + length (entriesOf priorityUsers))
            + (if String.eqb priorityChannels "" && String.eqb priorityUsers ""
               then 1 else 5))%nat).
Proof.
  intros result. subst result. unfold GetTeamContextHandler.
  destruct ready as [[|]|cause];
    [|split; [split; [intros _; by left|done]|done]..].
  unfold teamContextParts. cbv zeta. unfold entriesOf.
  destruct (String.eqb_spec priorityChannels "") as [Hpc|Hpc]; cbn [negb];
    destruct (String.eqb_spec priorityUsers "") as [Hpu|Hpu]; cbn [negb orb andb].
  - split.
    + split; [done|]. intros [?|[[? _]|[? _]]]; done.
    + intros _. eexists. split; [done|]. split; [done|]. by rewrite length_app.
  - destruct usersMap as [[[users|] inv]|]; simpl.
    + split; [split; [done|]; intros [?|[[? _]|[_ ?]]]; done|].
      intros _. eexists. split; [done|]. split; [done|].
      rewrite !length_app, fold_left_app_flat_map, length_app.
      rewrite (length_entry_lines _ _ (userEntryLines_length _ _)). simpl. lia.
    + split; [split; [intros _; right; right; by split|done]|done].
    + split; [split; [intros _; right; right; by split|done]|done].
  - destruct channelsMap as [[[channels|] inv]|]; simpl.
    + split; [split; [done|]; intros [?|[[_ ?]|[? _]]]; done|].
      intros _. eexists. split; [done|]. split; [done|].
      rewrite !length_app, fold_left_app_flat_map, length_app.
      rewrite (length_entry_lines _ _ (channelEntryLines_length _)). simpl. lia.
    + split; [split; [intros _; right; left; by split|done]|done].
    + split; [split; [intros _; right; left; by split|done]|done].
  - destruct channelsMap as [[[channels|] inv]|]; simpl;
      [|split; [split; [intros _; right; left; by split|done]|done]..].
    destruct usersMap as [[[users|] uinv]|]; simpl;
      [|split; [split; [intros _; right; right; by split|done]|done]..].
    split; [split; [done|]; intros [?|[[_ ?]|[_ ?]]]; done|].
    intros _. eexists. split; [done|]. split; [done|].
    rewrite !length_app, !fold_left_app_flat_map, !length_app.
    rewrite (length_entry_lines _ _ (channelEntryLines_length _)).
    rewrite (length_entry_lines _ _ (userEntryLines_length _ _)). simpl. lia.
Qed.

(** The context for the small workspace of the examples, with an alias, a
    channel by name and a user that is not in the workspace. *)
Example GetTeamContextHandler_example :
  GetTeamContextHandler (Ok true) "news=#general, #random" "boss=@jane" ""
    (Some exampleChannels) (Some exampleUsers)
  = mcp.NewToolResultText
      (GoStringsMore.Join
         (["# Slack Workspace Context for your team" +:+ newline;
           "## Priority Channels";
           "These are the main channels to focus on. Use the channel_id shown when calling Slack tools:"
             +:+ newline;
           "- **news** → #general (channel_id: C001): Company news";
           "- #random (WARNING: not found in workspace)";
           "";
           "## Team Members";
           "These are the key team members. Use the @username or DM channel_id when calling Slack tools:"
             +:+ newline;
           "- **boss** → Jane Doe (@jane, user_id: U001, dm_channel: D001)";
           ""] ++ usageGuidelines) newline).
Proof. by vm_compute. Qed.
